(** * aithen-ai: ingestion pipeline, chat relays and personality store

    A shallow embedding of
      - [app/ollama_client.py]          (OllamaClient.stream_chat),
      - [app/training_service.py]       (TrainingService),
      - [app/routes/training_routes.py] (stream_training.generate_progress),
      - [app/routes/chat_routes.py]     (stream_chat_sse, legacy generate),
      - [app/personality_store.py]      (PersonalityStore.save, load),
      - [app/main.py]                   (get_personality, save_personality),
    together with the properties of the chunker, the extraction dispatcher
    and the extraction methods, the embedding client, the vector store
    upsert, the progress stream, the chat line normalizer and its relays,
    and the personality store.

    Python values are modelled as follows.
      - [str] is a list of Unicode code points ([Py.str] = [list N]); [len],
        slicing, [strip], [startswith], [replace] and [in] are written out.
      - [int] is [Z]; Python's [float] is IEEE-754 binary64, here [PrimFloat].
      - a parsed JSON document is the inductive [Json.t]; a [dict] is an
        association list in insertion order with unique keys.
      - [json.loads] and [json.dumps] are written out after [json.decoder]
        and [json.encoder]; the limits of the interpreter (recursion depth,
        digits of an integer) are left out.
      - an exception is a value of [Py.exn]; a function that can raise
        returns [Py.result]. *)

From Stdlib Require Import ZArith NArith List String Ascii Bool Lia Sorted.
From Stdlib Require DecimalPos DecimalFacts.
From Stdlib Require Import DecimalString Floats Uint63.
Import ListNotations.

(* ================================================================== *)
(** ** Python strings                                                  *)
(* ================================================================== *)

Module Py.

Definition char := N.
Definition str := list char.

(** [ord c] is the code point of an ASCII character literal and [u s]
    the Python string with the characters of the ASCII literal [s]. *)
Definition ord (c : ascii) : char := N_of_ascii c.
Definition u (s : string) : str := List.map N_of_ascii (list_ascii_of_string s).

(** The double quote, U+0022. *)
Definition QUOTE : char := 34%N.
Definition BACKSLASH : char := 92%N.

(** [jq s] is [u s] with every apostrophe replaced by a double quote: it
    only serves to write down the JSON inputs of the examples. *)
Definition jq (s : string) : str :=
  List.map (fun c => if N.eqb c 39 then QUOTE else c) (u s).

Fixpoint eqb (a b : str) : bool :=
  match a, b with
  | [], [] => true
  | x :: a', y :: b' => N.eqb x y && eqb a' b'
  | _, _ => false
  end.

(** [str.isspace] on one code point (CPython's [_PyUnicode_IsWhitespace]). *)
Definition isspace (c : char) : bool :=
  ((9 <=? c) && (c <=? 13) || (28 <=? c) && (c <=? 32)
   || (c =? 133) || (c =? 160) || (c =? 5760)
   || (8192 <=? c) && (c <=? 8202)
   || (c =? 8232) || (c =? 8233) || (c =? 8239) || (c =? 8287)
   || (c =? 12288))%N.

Fixpoint lstrip (s : str) : str :=
  match s with
  | c :: r => if isspace c then lstrip r else s
  | [] => []
  end.

Definition rstrip (s : str) : str := rev (lstrip (rev s)).

(** [s.strip()] *)
Definition strip (s : str) : str := rstrip (lstrip s).

(** [s.startswith(p)] *)
Fixpoint startswith (p s : str) : bool :=
  match p, s with
  | [], _ => true
  | x :: p', y :: s' => N.eqb x y && startswith p' s'
  | _ :: _, [] => false
  end.

(** [sub in s] for two strings: substring test. *)
Fixpoint contains (sub s : str) : bool :=
  startswith sub s ||
  match s with
  | [] => false
  | _ :: r => contains sub r
  end.

(** [s.replace(old, new)]: every non-overlapping occurrence of [old],
    scanning from the left, is replaced.  [skip] counts the characters of
    a matched occurrence that are still to be dropped. *)
Fixpoint replace_from (old new s : str) (skip : nat) : str :=
  match s with
  | [] => []
  | c :: r =>
      match skip with
      | S k => replace_from old new r k
      | O =>
          if startswith old s
          then new ++ replace_from old new r (List.length old - 1)
          else c :: replace_from old new r 0
      end
  end.

Fixpoint intersperse (new s : str) : str :=
  match s with
  | [] => new
  | c :: r => new ++ c :: intersperse new r
  end.

Definition replace (old new s : str) : str :=
  match old with
  | [] => intersperse new s
  | _ :: _ => replace_from old new s 0
  end.

(** [s[lo:hi]] with Python's treatment of negative and out-of-range
    bounds. *)
Definition clamp_index (len i : Z) : Z :=
  let i := if (i <? 0)%Z then (i + len)%Z else i in
  if (i <? 0)%Z then 0%Z else if (len <? i)%Z then len else i.

Definition slice {A : Type} (s : list A) (lo hi : Z) : list A :=
  let len := Z.of_nat (List.length s) in
  let lo' := clamp_index len lo in
  let hi' := clamp_index len hi in
  firstn (Z.to_nat (hi' - lo')) (skipn (Z.to_nat lo') s).

(** [s.lower()] on the ASCII letters.  The extensions and media types the
    dispatcher compares against are ASCII and contain neither [k] nor
    [i], the only ASCII letters that are the lowercase of a non-ASCII
    character, so the comparisons of [process_file] are decided as in
    Python. *)
Definition lower_char (c : char) : char :=
  if ((65 <=? c) && (c <=? 90))%N then (c + 32)%N else c.
Definition lower (s : str) : str := List.map lower_char s.

(** Exceptions: the class and the message [str(e)]. *)
Inductive exn_class :=
| Exception | FileNotFoundError | ImportError | ValueError | TypeError
| KeyError | JSONDecodeError | RecursionError | AttributeError | HTTPError
| DatabaseError.

Record exn := Exn { exn_cls : exn_class; exn_msg : str }.

Inductive result (A : Type) :=
| Ok (a : A)
| Raise (e : exn).
Arguments Ok {A} a.
Arguments Raise {A} e.

Definition is_ok {A : Type} (r : result A) : bool :=
  match r with Ok _ => true | Raise _ => false end.

Definition bind {A B : Type} (r : result A) (k : A -> result B) : result B :=
  match r with
  | Ok a => k a
  | Raise e => Raise e
  end.

End Py.

Notation "x <- c ;; k" := (Py.bind c (fun x => k))
  (at level 61, c at next level, right associativity).

(* ================================================================== *)
(** ** JSON documents and [json.loads]                                 *)
(* ================================================================== *)

Module Json.
Import Py.

(** A decoded document.  An integer literal is an [int]; a literal with
    a fraction or an exponent, and the constants [NaN], [Infinity] and
    [-Infinity], are floats, kept as their lexeme. *)
#[warnings="-register-all"]
Inductive t :=
| JNull
| JBool (b : bool)
| JInt (z : Z)
| JFloat (lexeme : str)
| JStr (s : str)
| JArr (items : list t)
| JObj (pairs : list (str * t)).

(** [d.get(k)] on an association list. *)
Fixpoint lookup (k : str) (d : list (str * t)) : option t :=
  match d with
  | [] => None
  | (k', v) :: d' => if Py.eqb k k' then Some v else lookup k d'
  end.

(** [d[k] = v]: an existing key keeps its position. *)
Fixpoint dict_set (k : str) (v : t) (d : list (str * t)) : list (str * t) :=
  match d with
  | [] => [(k, v)]
  | (k', v') :: d' =>
      if Py.eqb k k' then (k, v) :: d' else (k', v') :: dict_set k v d'
  end.

(** [dict(pairs)] *)
Definition dict (pairs : list (str * t)) : list (str * t) :=
  fold_left (fun d kv => dict_set (fst kv) (snd kv) d) pairs [].

(** The outcome of the decoder: a value and the rest of the input, a
    [JSONDecodeError], or the recursion budget exhausted. *)
Inductive scan (A : Type) :=
| Scanned (a : A)
| DecodeError
| OutOfFuel.
Arguments Scanned {A} a.
Arguments DecodeError {A}.
Arguments OutOfFuel {A}.

(** [WHITESPACE]: space, tab, line feed and carriage return. *)
Definition ws_char (c : char) : bool :=
  ((c =? 32) || (c =? 9) || (c =? 10) || (c =? 13))%N.

Fixpoint skip_ws (s : str) : str :=
  match s with
  | c :: r => if ws_char c then skip_ws r else s
  | [] => []
  end.

Definition hexval (c : char) : option N :=
  if ((48 <=? c) && (c <=? 57))%N then Some (c - 48)%N
  else if ((65 <=? c) && (c <=? 70))%N then Some (c - 55)%N
  else if ((97 <=? c) && (c <=? 102))%N then Some (c - 87)%N
  else None.

(** [_decode_uXXXX]: exactly four hexadecimal digits. *)
Definition hex4 (a b c d : char) : option N :=
  match hexval a, hexval b, hexval c, hexval d with
  | Some x, Some y, Some z, Some w => Some (((x * 16 + y) * 16 + z) * 16 + w)%N
  | _, _, _, _ => None
  end.

(** The [BACKSLASH] table of [json.decoder]. *)
Definition unescape (e : char) : option char :=
  if (e =? 34)%N then Some 34%N            (* quote *)
  else if (e =? 92)%N then Some 92%N       (* backslash *)
  else if (e =? 47)%N then Some 47%N       (* \/ *)
  else if (e =? 98)%N then Some 8%N        (* \b *)
  else if (e =? 102)%N then Some 12%N      (* \f *)
  else if (e =? 110)%N then Some 10%N      (* \n *)
  else if (e =? 114)%N then Some 13%N      (* \r *)
  else if (e =? 116)%N then Some 9%N       (* \t *)
  else None.

Definition is_high_surrogate (c : N) : bool := ((55296 <=? c) && (c <=? 56319))%N.
Definition is_low_surrogate (c : N) : bool := ((56320 <=? c) && (c <=? 57343))%N.
Definition join_surrogates (hi lo : N) : N :=
  (65536 + N.lor (N.shiftl (hi - 55296) 10) (lo - 56320))%N.

(** [scanstring(s, end, strict=True)], entered after the opening quote:
    the decoded string and the input after the closing quote, or [None]
    for a [JSONDecodeError] (unterminated string, control character,
    invalid escape). *)
Fixpoint scanstring (s : str) (acc : str) : option (str * str) :=
  match s with
  | [] => None
  | c :: r =>
      if (c =? QUOTE)%N then Some (rev acc, r)
      else if (c <? 32)%N then None
      else if (c =? BACKSLASH)%N then
        match r with
        | [] => None
        | e :: r1 =>
            if (e =? 117)%N then                         (* \uXXXX *)
              match r1 with
              | h1 :: h2 :: h3 :: h4 :: r2 =>
                  match hex4 h1 h2 h3 h4 with
                  | None => None
                  | Some uni =>
                      if is_high_surrogate uni then
                        match r2 with
                        | b :: v :: r3 =>
                            if ((b =? BACKSLASH) && (v =? 117))%N then
                              match r3 with
                              | g1 :: g2 :: g3 :: g4 :: r4 =>
                                  match hex4 g1 g2 g3 g4 with
                                  | None => None
                                  | Some uni2 =>
                                      if is_low_surrogate uni2
                                      then scanstring r4 (join_surrogates uni uni2 :: acc)
                                      else scanstring r2 (uni :: acc)
                                  end
                              | _ => None
                              end
                            else scanstring r2 (uni :: acc)
                        | _ => scanstring r2 (uni :: acc)
                        end
                      else scanstring r2 (uni :: acc)
                  end
              | _ => None
              end
            else
              match unescape e with
              | Some c' => scanstring r1 (c' :: acc)
              | None => None
              end
        end
      else scanstring r (c :: acc)
  end.

Definition is_digit (c : char) : bool := ((48 <=? c) && (c <=? 57))%N.

Fixpoint span_digits (s : str) : str * str :=
  match s with
  | c :: r =>
      if is_digit c then let (d, r') := span_digits r in (c :: d, r') else ([], s)
  | [] => ([], [])
  end.

Definition digits_value (d : str) : Z :=
  fold_left (fun (acc : Z) (c : char) => (acc * 10 + Z.of_N (c - 48))%Z) d 0%Z.

(** The integer part of [NUMBER_RE] (an optional minus sign, then either a
    single 0 or a nonzero digit followed by digits): sign, digits and the
    rest. *)
Definition match_integer (s : str) : option (bool * str * str) :=
  let (neg, s1) :=
    match s with
    | c :: r => if (c =? 45)%N then (true, r) else (false, s)
    | [] => (false, s)
    end in
  match s1 with
  | c :: r =>
      if (c =? 48)%N then Some (neg, [c], r)
      else if is_digit c then
        let (d, r') := span_digits r in Some (neg, c :: d, r')
      else None
  | [] => None
  end.

(** The optional fraction of [NUMBER_RE]: a dot and at least one digit. *)
Definition match_frac (s : str) : str * str :=
  match s with
  | c :: r =>
      if (c =? 46)%N then
        match span_digits r with
        | ([], _) => ([], s)
        | (d, r') => (c :: d, r')
        end
      else ([], s)
  | [] => ([], s)
  end.

(** The optional exponent of [NUMBER_RE]: e or E, an optional sign and at
    least one digit. *)
Definition match_exp (s : str) : str * str :=
  match s with
  | c :: r =>
      if ((c =? 101) || (c =? 69))%N then
        let (sign, r1) :=
          match r with
          | g :: r' => if ((g =? 45) || (g =? 43))%N then ([g], r') else ([], r)
          | [] => ([], r)
          end in
        match span_digits r1 with
        | ([], _) => ([], s)
        | (d, r') => (c :: sign ++ d, r')
        end
      else ([], s)
  | [] => ([], s)
  end.

(** [match_number] and the conversion of its groups. *)
Definition match_number (s : str) : option (t * str) :=
  match match_integer s with
  | None => None
  | Some (neg, int_digits, r) =>
      let (frac, r1) := match_frac r in
      let (exp, r2) := match_exp r1 in
      match frac, exp with
      | [], [] =>
          let z := digits_value int_digits in
          Some (JInt (if neg then (- z)%Z else z), r2)
      | _, _ =>
          Some (JFloat ((if neg then [45%N] else []) ++ int_digits ++ frac ++ exp), r2)
      end
  end.

(** A literal [lit] found at the head of [s]. *)
Definition literal (lit : string) (v : t) (s : str) : option (t * str) :=
  if startswith (u lit) s then Some (v, skipn (List.length (u lit)) s) else None.

Definition first_some {A : Type} (a b : option A) : option A :=
  match a with Some _ => a | None => b end.

(** [scan_once], [JSONObject] and [JSONArray] of [json.scanner] and
    [json.decoder].  The input is the text from the current index on;
    a result carries the text after the value.  [fuel] bounds the chain
    of calls. *)
Fixpoint scan_once (fuel : nat) (s : str) {struct fuel} : scan (t * str) :=
  match fuel with
  | O => OutOfFuel
  | S n =>
      match s with
      | [] => DecodeError
      | c :: r =>
          if (c =? QUOTE)%N then
            match scanstring r [] with
            | Some (x, r') => Scanned (JStr x, r')
            | None => DecodeError
            end
          else if (c =? 123)%N then                       (* { *)
            match skip_ws r with
            | c1 :: r1 =>
                if (c1 =? 125)%N then Scanned (JObj [], r1)
                else if (c1 =? QUOTE)%N then object_members n r1 []
                else DecodeError
            | [] => DecodeError
            end
          else if (c =? 91)%N then                        (* [ *)
            match skip_ws r with
            | c1 :: r1 =>
                if (c1 =? 93)%N then Scanned (JArr [], r1)
                else array_items n (c1 :: r1) []
            | [] => DecodeError
            end
          else
            match
              first_some (literal "null" JNull s)
             (first_some (literal "true" (JBool true) s)
             (first_some (literal "false" (JBool false) s)
             (first_some (match_number s)
             (first_some (literal "NaN" (JFloat (u "NaN")) s)
             (first_some (literal "Infinity" (JFloat (u "Infinity")) s)
                         (literal "-Infinity" (JFloat (u "-Infinity")) s))))))
            with
            | Some vr => Scanned vr
            | None => DecodeError
            end
      end
  end

(** The member loop of [JSONObject], entered after the opening quote of
    a key; [pairs] are the members read so far, last first. *)
with object_members (fuel : nat) (s : str) (pairs : list (str * t))
     {struct fuel} : scan (t * str) :=
  match fuel with
  | O => OutOfFuel
  | S n =>
      match scanstring s [] with
      | None => DecodeError
      | Some (key, s1) =>
          match skip_ws s1 with
          | c :: s2 =>
              if (c =? 58)%N then                          (* : *)
                match scan_once n (skip_ws s2) with
                | Scanned (v, s3) =>
                    let pairs' := (key, v) :: pairs in
                    match skip_ws s3 with
                    | c' :: s4 =>
                        if (c' =? 125)%N then Scanned (JObj (dict (rev pairs')), s4)
                        else if (c' =? 44)%N then          (* , *)
                          match skip_ws s4 with
                          | q :: s5 =>
                              if (q =? QUOTE)%N then object_members n s5 pairs'
                              else DecodeError
                          | [] => DecodeError
                          end
                        else DecodeError
                    | [] => DecodeError
                    end
                | DecodeError => DecodeError
                | OutOfFuel => OutOfFuel
                end
              else DecodeError
          | [] => DecodeError
          end
      end
  end

(** The item loop of [JSONArray], entered at the first character of an
    item; [items] are the items read so far, last first. *)
with array_items (fuel : nat) (s : str) (items : list t)
     {struct fuel} : scan (t * str) :=
  match fuel with
  | O => OutOfFuel
  | S n =>
      match scan_once n s with
      | Scanned (v, s1) =>
          let items' := v :: items in
          match skip_ws s1 with
          | c :: s2 =>
              if (c =? 93)%N then Scanned (JArr (rev items'), s2)
              else if (c =? 44)%N then array_items n (skip_ws s2) items'
              else DecodeError
          | [] => DecodeError
          end
      | DecodeError => DecodeError
      | OutOfFuel => OutOfFuel
      end
  end.

(** [json.loads(s)]: one document surrounded by optional whitespace.  Each
    character of the input accounts for at most two calls in a chain, so
    the budget below is never used up (see [loads_never_out_of_fuel]).
    The limit Python puts on the number of digits of an integer literal is
    not modelled. *)
Definition loads (s : str) : scan t :=
  match scan_once (S (2 * List.length s)) (skip_ws s) with
  | Scanned (v, r) =>
      match skip_ws r with
      | [] => Scanned v
      | _ :: _ => DecodeError
      end
  | DecodeError => DecodeError
  | OutOfFuel => OutOfFuel
  end.

(** [json.loads] as a call that returns or raises.  The decoder's budget
    running out stands for Python's [RecursionError]; the message of a
    [JSONDecodeError], which reports a position, is not reproduced. *)
Definition json_loads (s : str) : result t :=
  match loads s with
  | Scanned v => Ok v
  | DecodeError => Raise (Exn JSONDecodeError (u "JSONDecodeError"))
  | OutOfFuel => Raise (Exn RecursionError (u "maximum recursion depth exceeded"))
  end.

End Json.

(* ================================================================== *)
(** ** [app/ollama_client.py]: the chat stream normalizer              *)
(* ================================================================== *)

Module OllamaClient.
Import Py Json.

(** [type(v).__name__] of a decoded value. *)
Definition type_name (v : Json.t) : str :=
  match v with
  | JNull => u "NoneType"
  | JBool _ => u "bool"
  | JInt _ => u "int"
  | JFloat _ => u "float"
  | JStr _ => u "str"
  | JArr _ => u "list"
  | JObj _ => u "dict"
  end.

(** [k in v] for a string [k]: key membership in a dict, element
    membership in a list, substring test in a string, [TypeError] on the
    other values. *)
Definition py_in (k : str) (v : Json.t) : result bool :=
  match v with
  | JObj d => Ok (match lookup k d with Some _ => true | None => false end)
  | JArr items =>
      Ok (existsb (fun x => match x with JStr s => Py.eqb k s | _ => false end) items)
  | JStr s => Ok (contains k s)
  | _ => Raise (Exn TypeError
                  (u "argument of type '" ++ type_name v ++ u "' is not iterable"))
  end.

(** [v[k]] for a string [k]. *)
Definition getitem (v : Json.t) (k : str) : result Json.t :=
  match v with
  | JObj d =>
      match lookup k d with
      | Some x => Ok x
      | None => Raise (Exn KeyError k)
      end
  | JArr _ => Raise (Exn TypeError (u "list indices must be integers or slices, not str"))
  | JStr _ => Raise (Exn TypeError (u "string indices must be integers, not 'str'"))
  | _ => Raise (Exn TypeError (u "'" ++ type_name v ++ u "' object is not subscriptable"))
  end.

(** How the generator ends: the loop is left (end of the upstream lines or
    the sentinel) or an exception escapes. *)
Inductive ending :=
| Finished
| Raised (e : exn).

(** The clean-up of one upstream line (lines 38 to 40). *)
Definition clean (line : str) : str :=
  let line := strip line in
  if startswith (u "data: ") line then replace (u "data: ") [] line else line.

(** [line in ("[DONE]", "done", "DONE")] *)
Definition is_sentinel (line : str) : bool :=
  Py.eqb line (u "[DONE]") || Py.eqb line (u "done") || Py.eqb line (u "DONE").

(** [stream_chat]: the body of the [async for] over the upstream lines.
    The result is the sequence of yielded values, in order, and how the
    generator ended. *)
Fixpoint stream_chat (lines : list str) : list Json.t * ending :=
  match lines with
  | [] => ([], Finished)
  | line :: rest =>
      match line, strip line with
      | [], _ | _, [] => stream_chat rest
      | _, _ =>
          let line := clean line in
          if is_sentinel line then ([], Finished)
          else
            match json_loads line with
            | Raise {| exn_cls := JSONDecodeError |} => stream_chat rest
            | Raise e => ([], Raised e)
            | Ok data =>
                match py_in (u "message") data with
                | Raise e => ([], Raised e)
                | Ok false => stream_chat rest
                | Ok true =>
                    match getitem data (u "message") with
                    | Raise e => ([], Raised e)
                    | Ok m =>
                        match py_in (u "content") m with
                        | Raise e => ([], Raised e)
                        | Ok false => stream_chat rest
                        | Ok true =>
                            match getitem m (u "content") with
                            | Raise e => ([], Raised e)
                            | Ok c =>
                                let (ys, e) := stream_chat rest in (c :: ys, e)
                            end
                        end
                    end
                end
            end
      end
  end.

End OllamaClient.

(* ================================================================== *)
(** ** [app/training_service.py]                                       *)
(* ================================================================== *)

Module TrainingService.
Import Py Json.

(** The instance attributes set by [__init__]. *)
Record t := {
  ollama_url : str;
  embedding_model : str;
  chunk_size : Z;
  chunk_overlap : Z
}.

(** [TrainingService.__init__]: the four module-level settings are copied
    into the instance; nothing is checked. *)
Definition __init__ (OLLAMA_URL EMBEDDING_MODEL : str) (CHUNK_SIZE CHUNK_OVERLAP : Z) : t :=
  {| ollama_url := OLLAMA_URL;
     embedding_model := EMBEDDING_MODEL;
     chunk_size := CHUNK_SIZE;
     chunk_overlap := CHUNK_OVERLAP |}.

(** The instance obtained when no environment variable is set. *)
Definition default : t :=
  __init__ (u "http://localhost:11434") (u "nomic-embed-text") 1000 200.

(** *** The chunker *)

(** The [metadata] dict built by [process_file] and the copy extended by
    [_chunk_text]. *)
Record file_metadata := {
  file_id : str;
  file_path : str;
  mime_type : str
}.

Record chunk_metadata := {
  base : file_metadata;
  chunk_start : Z;
  chunk_end : Z
}.

Record chunk := {
  text : str;
  metadata : chunk_metadata
}.

(** The [while start < text_length] loop of [_chunk_text].  One unit of
    [fuel] is spent per iteration; [None] means the budget was too small
    for the loop to reach its exit. *)
Fixpoint chunk_loop (fuel : nat) (self : t) (txt : str) (md : file_metadata)
         (start : Z) (chunks : list chunk) : option (list chunk) :=
  if (start <? Z.of_nat (List.length txt))%Z then
    match fuel with
    | O => None
    | S n =>
        let end_ := (start + chunk_size self)%Z in
        let chunk_text := slice txt start end_ in
        let chunks' :=
          match strip chunk_text with
          | [] => chunks
          | _ :: _ =>
              chunks ++ [ {| text := chunk_text;
                             metadata := {| base := md;
                                            chunk_start := start;
                                            chunk_end := end_ |} |} ]
          end in
        chunk_loop n self txt md (end_ - chunk_overlap self)%Z chunks'
    end
  else Some chunks.

(** [_chunk_text(text, metadata)] run for at most [fuel] iterations. *)
Definition _chunk_text_fuel (fuel : nat) (self : t) (txt : str) (md : file_metadata)
  : option (list chunk) :=
  chunk_loop fuel self txt md 0 [].

(** [_chunk_text(text, metadata)].  One iteration per character is enough
    whenever the loop advances at all, so [None] here means that the call
    does not return (see [chunk_text_None_diverges]). *)
Definition _chunk_text (self : t) (txt : str) (md : file_metadata) : option (list chunk) :=
  _chunk_text_fuel (List.length txt) self txt md.

(** *** The extraction dispatcher *)

Fixpoint split_on (sep : char) (s : str) (cur : str) : list str :=
  match s with
  | [] => [rev cur]
  | c :: r =>
      if (c =? sep)%N then rev cur :: split_on sep r [] else split_on sep r (c :: cur)
  end.

(** [Path(p).name] for a POSIX path: the last component that is neither
    empty nor a single dot. *)
Definition path_name (p : str) : str :=
  last (filter (fun c => negb (Py.eqb c [] || Py.eqb c (u ".")))
               (split_on (ord "/") p [])) [].

Fixpoint span_not_dot (s : str) : str * bool :=
  match s with
  | [] => ([], false)
  | c :: r =>
      if (c =? ord ".")%N then ([], true)
      else let (a, found) := span_not_dot r in (c :: a, found)
  end.

(** [Path(p).suffix]: with [i] the index of the last dot of the name, the
    name from [i] on if [0 < i < len(name) - 1], and the empty string
    otherwise. *)
Definition suffix (p : str) : str :=
  let name := path_name p in
  let (ext_rev, found) := span_not_dot (rev name) in
  let i := (List.length name - List.length ext_rev - 1)%nat in
  if found && Nat.ltb 0 i && negb (Py.eqb ext_rev [])
  then ord "." :: rev ext_rev
  else [].

(** [x in [a, b, ...]] for strings. *)
Definition mem (x : str) (l : list str) : bool := existsb (Py.eqb x) l.

(** The private extraction methods. *)
Inductive extractor :=
| _extract_pdf_text
| _extract_docx_text
| _extract_excel_text
| _extract_csv_text
| _extract_json_text
| _extract_text_file.

(** The [if]/[elif] chain of [process_file] (lines 69 to 83). *)
Definition select_extractor (file_ext mime_type : str) : extractor :=
  if Py.eqb file_ext (u ".pdf") || Py.eqb mime_type (u "application/pdf")
  then _extract_pdf_text
  else if mem file_ext [u ".docx"; u ".doc"]
          || contains (u "wordprocessingml") mime_type
          || Py.eqb mime_type (u "application/msword")
  then _extract_docx_text
  else if mem file_ext [u ".xlsx"; u ".xls"]
          || contains (u "spreadsheetml") mime_type
          || mem mime_type
               [u "application/vnd.ms-excel";
                u "application/vnd.openxmlformats-officedocument.spreadsheetml.sheet"]
  then _extract_excel_text
  else if Py.eqb file_ext (u ".csv") || Py.eqb mime_type (u "text/csv")
  then _extract_csv_text
  else if Py.eqb file_ext (u ".json") || Py.eqb mime_type (u "application/json")
  then _extract_json_text
  else if mem file_ext [u ".txt"; u ".md"]
          || mem mime_type [u "text/plain"; u "text/markdown"]
  then _extract_text_file
  else _extract_text_file.

(** What the service finds around it: the optional libraries that could
    be imported, the file system, and what the reader behind each method
    (PyPDF2, python-docx, pandas, [json], [open]) returns for a path. *)
Record env := {
  HAS_PDF : bool;
  HAS_DOCX : bool;
  HAS_PANDAS : bool;
  HAS_XLSX : bool;
  path_exists : str -> bool;
  reader : extractor -> str -> result str
}.

(** The bodies of the extraction methods: the capability check, the
    reader, and the re-raise of the two pandas methods. *)
Definition run_extractor (E : env) (x : extractor) (path : str) : result str :=
  match x with
  | _extract_pdf_text =>
      if negb (HAS_PDF E) then
        Raise (Exn ImportError
          (u "PyPDF2 is required for PDF processing. Install with: pip install PyPDF2"))
      else reader E x path
  | _extract_docx_text =>
      if negb (HAS_DOCX E) then
        Raise (Exn ImportError
          (u "python-docx is required for DOCX processing. Install with: pip install python-docx"))
      else reader E x path
  | _extract_excel_text =>
      if negb (HAS_PANDAS E) then
        Raise (Exn ImportError
          (u "pandas and openpyxl are required for Excel processing. Install with: pip install pandas openpyxl"))
      else
        match reader E x path with
        | Ok s => Ok s
        | Raise e => Raise (Exn Exception (u "Error reading Excel file: " ++ exn_msg e))
        end
  | _extract_csv_text =>
      if negb (HAS_PANDAS E) then
        Raise (Exn ImportError
          (u "pandas is required for CSV processing. Install with: pip install pandas"))
      else
        match reader E x path with
        | Ok s => Ok s
        | Raise e => Raise (Exn Exception (u "Error reading CSV file: " ++ exn_msg e))
        end
  | _extract_json_text => reader E x path
  | _extract_text_file => reader E x path
  end.

(** The extraction part of [process_file] (lines 58 to 88): the text handed
    to the chunker, or the exception raised before the chunker is
    reached. *)
Definition extract_text (E : env) (file_path mime_type : str) : result str :=
  if negb (path_exists E file_path) then
    Raise (Exn FileNotFoundError (u "File not found: " ++ file_path))
  else
    let file_ext := lower (suffix file_path) in
    match run_extractor E (select_extractor file_ext mime_type) file_path with
    | Raise e =>
        Raise (Exn Exception
                 (u "Error extracting text from " ++ file_path ++ u ": " ++ exn_msg e))
    | Ok txt =>
        match strip txt with
        | [] => Raise (Exn ValueError (u "No text content extracted from " ++ file_path))
        | _ :: _ => Ok txt
        end
    end.

(** [process_file(file_path, file_id, mime_type)]: [None] when the call
    does not return, otherwise the chunks or the exception. *)
Definition process_file (self : t) (E : env) (file_path file_id mime_type : str)
  : option (result (list chunk)) :=
  match extract_text E file_path mime_type with
  | Raise e => Some (Raise e)
  | Ok txt =>
      let metadata := {| file_id := file_id; file_path := file_path;
                         mime_type := mime_type |} in
      match _chunk_text self txt metadata with
      | Some chunks => Some (Ok chunks)
      | None => None
      end
  end.

(** *** The embedding client *)

(** What the POST to [/api/embeddings] comes back with: [client.post]
    raises (no connection, timeout), or a response with a status code and
    a body arrives. *)
Inductive http_reply :=
| transport_failure (e : exn)
| response (status_code : Z) (body : str).

(** [str(n)] for an integer. *)
Definition str_of_Z (z : Z) : str :=
  u (DecimalString.NilZero.string_of_int (Z.to_int z)).

(** [response.raise_for_status()]: an exception for every status outside
    200..299. *)
Definition raise_for_status (status_code : Z) : result unit :=
  if ((200 <=? status_code) && (status_code <=? 299))%Z then Ok tt
  else Raise (Exn HTTPError (u "HTTPStatusError: " ++ str_of_Z status_code)).

(** [data.get("embedding", [])] *)
Definition get_embedding (data : Json.t) : result Json.t :=
  match data with
  | JObj d =>
      match lookup (u "embedding") d with
      | Some v => Ok v
      | None => Ok (JArr [])
      end
  | _ => Raise (Exn AttributeError (u "object has no attribute 'get'"))
  end.

(** [generate_embedding(text)], given the reply to its request.  Every
    exception of the [try] block is re-raised as a plain [Exception]. *)
Definition generate_embedding (self : t) (reply : http_reply) (txt : str)
  : result Json.t :=
  let attempt : result Json.t :=
    match reply with
    | transport_failure e => Raise e
    | response status_code body =>
        _ <- raise_for_status status_code ;;
        data <- json_loads body ;;
        get_embedding data
    end in
  match attempt with
  | Ok v => Ok v
  | Raise e => Raise (Exn Exception (u "Error generating embedding: " ++ exn_msg e))
  end.

(** *** The vector store *)

(** A row of [knowledge_base_embeddings], column by column. *)
Record row := {
  col_id : Z;
  col_knowledge_base_id : Z;
  col_knowledge_base_version_id : Z;
  col_knowledge_base_file_id : Z;
  col_chunk_index : Z;
  col_chunk_text : str;
  col_embedding : Json.t;
  col_metadata : chunk_metadata;
  col_created_at : Z;
  col_updated_at : Z
}.

Definition table := list row.

(** The conflict target of the statement:
    [(knowledge_base_version_id, knowledge_base_file_id, chunk_index)]. *)
Definition natural_key (r : row) : Z * Z * Z :=
  (col_knowledge_base_version_id r, col_knowledge_base_file_id r, col_chunk_index r).

Definition key_eqb (a b : Z * Z * Z) : bool :=
  let '(a1, a2, a3) := a in
  let '(b1, b2, b3) := b in
  ((a1 =? b1) && (a2 =? b2) && (a3 =? b3))%Z.

(** [DO UPDATE SET chunk_text = EXCLUDED.chunk_text, embedding =
    EXCLUDED.embedding, metadata = EXCLUDED.metadata, updated_at = NOW()]
    on the row in conflict; [None] when no row has the key of [new]. *)
Fixpoint on_conflict_do_update (new : row) (tbl : table) : option table :=
  match tbl with
  | [] => None
  | r :: rest =>
      if key_eqb (natural_key r) (natural_key new) then
        Some ({| col_id := col_id r;
                 col_knowledge_base_id := col_knowledge_base_id r;
                 col_knowledge_base_version_id := col_knowledge_base_version_id r;
                 col_knowledge_base_file_id := col_knowledge_base_file_id r;
                 col_chunk_index := col_chunk_index r;
                 col_chunk_text := col_chunk_text new;
                 col_embedding := col_embedding new;
                 col_metadata := col_metadata new;
                 col_created_at := col_created_at r;
                 col_updated_at := col_updated_at new |} :: rest)
      else
        match on_conflict_do_update new rest with
        | Some rest' => Some (r :: rest')
        | None => None
        end
  end.

(** Modelled from the spec: the schema of [knowledge_base_embeddings] is
    not part of this repository's sources; section 6 gives it a generated
    primary id and a unique constraint over (version id, file id, chunk
    index).  [execute_insert] is the statement of lines 245 to 257 on such
    a table: a row in conflict on the unique constraint is updated in
    place; otherwise the row is inserted, unless its id is taken, which
    violates the primary key. *)
Definition execute_insert (new : row) (tbl : table) : result table :=
  match on_conflict_do_update new tbl with
  | Some tbl' => Ok tbl'
  | None =>
      if existsb (fun r => (col_id r =? col_id new)%Z) tbl
      then Raise (Exn DatabaseError
                    (u "duplicate key value violates unique constraint"))
      else Ok (tbl ++ [new])
  end.

(** What one call of [store_embedding] gets from outside: whether psycopg2
    can be imported, the outcome of [connect], the generated id
    ([int(time.time() * 1000000) + random.randint(0, 999999)]), the value
    of [NOW()], an error of the server for this statement other than a
    conflict on a unique index (a failed cast, a vector of the wrong
    dimension, a lost connection), and the outcome of [commit]. *)
Record db_call := {
  has_psycopg2 : bool;
  connect : result unit;
  embedding_id : Z;
  NOW : Z;
  server_error : option exn;
  commit : result unit
}.

(** The code points of the decimal digits zero (Unicode 14, category Nd):
    each is followed by its digits one to nine. *)
Definition decimal_zeros : list N :=
  [48; 1632; 1776; 1984; 2406; 2534; 2662; 2790; 2918; 3046; 3174; 3302;
   3430; 3558; 3664; 3792; 3872; 4160; 4240; 6112; 6160; 6470; 6608; 6784;
   6800; 6992; 7088; 7232; 7248; 42528; 43216; 43264; 43472; 43504; 43600;
   44016; 65296; 66720; 68912; 69734; 69872; 69942; 70096; 70384; 70736;
   70864; 71248; 71360; 71472; 71904; 72016; 72784; 73040; 73120; 92768;
   92864; 93008; 120782; 120792; 120802; 120812; 120822; 123200; 123632;
   125264; 130032]%N.

(** The value of a decimal digit, as [int] reads it. *)
Definition decimal_value (c : char) : option Z :=
  match find (fun z => (z <=? c) && (c <=? z + 9))%N decimal_zeros with
  | Some z => Some (Z.of_N (c - z))
  | None => None
  end.

Fixpoint int_digits (s : str) (acc : Z) (after_digit : bool) : option Z :=
  match s with
  | [] => if after_digit then Some acc else None
  | c :: r =>
      match decimal_value c with
      | Some d => int_digits r (acc * 10 + d)%Z true
      | None =>
          if (c =? 95)%N && after_digit then int_digits r acc false else None
      end
  end.

(** [int(s)] for a string: surrounding whitespace, an optional sign, and
    decimal digits with single underscores between them. *)
Definition py_int (s : str) : result Z :=
  let body := strip s in
  let parsed :=
    match body with
    | c :: r =>
        if (c =? 45)%N then option_map Z.opp (int_digits r 0 false)
        else if (c =? 43)%N then int_digits r 0 false
        else int_digits body 0 false
    | [] => None
    end in
  match parsed with
  | Some z => Ok z
  | None => Raise (Exn ValueError (u "invalid literal for int() with base 10: " ++ s))
  end.

(** [for f in embedding]: a list, a string and a dict can be iterated. *)
Definition iterable (v : Json.t) : result unit :=
  match v with
  | JArr _ | JStr _ | JObj _ => Ok tt
  | _ => Raise (Exn TypeError (u "object is not iterable"))
  end.

(** [store_embedding(...)]: the outcome of the call and the table after
    it.  The table changes only when the statement and the commit both
    succeed. *)
Definition store_embedding (self : t) (db : db_call) (tbl : table)
    (knowledge_base_id version_id file_id : str) (chunk_index : Z)
    (chunk_text : str) (embedding : Json.t) (metadata : chunk_metadata)
  : result unit * table :=
  if negb (has_psycopg2 db) then
    (Raise (Exn ImportError
       (u "psycopg2 is required for database storage. Install with: pip install psycopg2-binary")),
     tbl)
  else
    let attempt : result table :=
      _ <- connect db ;;
      _ <- iterable embedding ;;
      kb <- py_int knowledge_base_id ;;
      ver <- py_int version_id ;;
      file <- py_int file_id ;;
      _ <- match server_error db with Some e => Raise e | None => Ok tt end ;;
      tbl' <- execute_insert
                {| col_id := embedding_id db;
                   col_knowledge_base_id := kb;
                   col_knowledge_base_version_id := ver;
                   col_knowledge_base_file_id := file;
                   col_chunk_index := chunk_index;
                   col_chunk_text := chunk_text;
                   col_embedding := embedding;
                   col_metadata := metadata;
                   col_created_at := NOW db;
                   col_updated_at := NOW db |} tbl ;;
      _ <- commit db ;;
      Ok tbl'
    in
    match attempt with
    | Ok tbl' => (Ok tt, tbl')
    | Raise e => (Raise (Exn Exception (u "Error storing embedding: " ++ exn_msg e)), tbl)
    end.

End TrainingService.

(* ================================================================== *)
(** ** [app/routes/training_routes.py]: the progress stream            *)
(* ================================================================== *)

Module TrainingRoutes.
Import Py Json TrainingService.

(** *** Python's arithmetic on the counters *)

(** [float(n)] for a counter [0 <= n < 2^53], where the conversion is
    exact. *)
Definition float_of_int (n : Z) : float := PrimFloat.of_uint63 (Uint63.of_Z n).

(** [a / b] for two such counters: the correctly rounded quotient. *)
Definition truediv (a b : Z) : float := PrimFloat.div (float_of_int a) (float_of_int b).

(** [int(x)] for a finite float: truncation towards zero. *)
Definition int_of_float (x : float) : Z :=
  match Prim2SF x with
  | S754_finite s m e =>
      let mag := if (0 <=? e)%Z then Z.shiftl (Zpos m) e else Z.shiftr (Zpos m) (- e) in
      if s then (- mag)%Z else mag
  | _ => 0%Z
  end.

Definition hundred : float := float_of_int 100.

(** [int((file_idx - 1) / total_files * 100)] *)
Definition pct_processing (file_idx total_files : Z) : Z :=
  int_of_float (PrimFloat.mul (truediv (file_idx - 1) total_files) hundred).

(** [int(((file_idx - 1) / total_files
          + chunk_idx / total_chunks / total_files) * 100)] *)
Definition pct_chunk (file_idx total_files chunk_idx total_chunks : Z) : Z :=
  int_of_float
    (PrimFloat.mul
       (PrimFloat.add (truediv (file_idx - 1) total_files)
                      (PrimFloat.div (truediv chunk_idx total_chunks)
                                     (float_of_int total_files)))
       hundred).

(** [int((file_idx / total_files) * 100)] *)
Definition pct_completed (file_idx total_files : Z) : Z :=
  int_of_float (PrimFloat.mul (truediv file_idx total_files) hundred).

(** [int((chunk_idx / total_chunks) * 100)] *)
Definition pct_file (chunk_idx total_chunks : Z) : Z :=
  int_of_float (PrimFloat.mul (truediv chunk_idx total_chunks) hundred).

(** *** Requests, file details and events *)

(** One entry of [request.files]. *)
Record file_info := {
  id : str;
  name : str;
  path : str;
  mime_type : str;
  size : option Z
}.

Record TrainingRequest := {
  knowledge_base_id : str;
  version_id : str;
  files : list file_info
}.

Inductive status := processing | embedding | storing | completed | failed.

(** The [file_detail] dict.  The two wall-clock stamps [started_at] and
    [completed_at] are left out. *)
Record file_detail := {
  fd_file_id : str;
  fd_file_name : str;
  fd_file_size : Z;
  fd_file_type : str;
  fd_status : status;
  fd_chunks_total : Z;
  fd_chunks_done : Z;
  fd_percentage : Z;
  fd_error : option str
}.

Definition set_chunks_total (n : Z) (d : file_detail) : file_detail :=
  {| fd_file_id := fd_file_id d; fd_file_name := fd_file_name d;
     fd_file_size := fd_file_size d; fd_file_type := fd_file_type d;
     fd_status := fd_status d; fd_chunks_total := n;
     fd_chunks_done := fd_chunks_done d; fd_percentage := fd_percentage d;
     fd_error := fd_error d |}.

Definition set_progress (done pct : Z) (st : status) (d : file_detail) : file_detail :=
  {| fd_file_id := fd_file_id d; fd_file_name := fd_file_name d;
     fd_file_size := fd_file_size d; fd_file_type := fd_file_type d;
     fd_status := st; fd_chunks_total := fd_chunks_total d;
     fd_chunks_done := done; fd_percentage := pct;
     fd_error := fd_error d |}.

Definition set_status (st : status) (d : file_detail) : file_detail :=
  set_progress (fd_chunks_done d) (fd_percentage d) st d.

Definition set_failed (msg : str) (d : file_detail) : file_detail :=
  {| fd_file_id := fd_file_id d; fd_file_name := fd_file_name d;
     fd_file_size := fd_file_size d; fd_file_type := fd_file_type d;
     fd_status := failed; fd_chunks_total := fd_chunks_total d;
     fd_chunks_done := fd_chunks_done d; fd_percentage := fd_percentage d;
     fd_error := Some msg |}.

(** The events written to the stream, by their [type].  Each carries the
    [file_details] list as serialized at the moment of the [yield].  The
    fields that repeat the request ([current_file_size],
    [current_file_type], [job_id], [job_index], [total_jobs]) and the
    [message] of a progress event are left out.  [job_error] is the event
    of the outer [except]. *)
Inductive event :=
| progress (current_file total_files current_chunk total_chunks percentage : Z)
           (st : status) (current_file_id : str) (file_details : list file_detail)
| error (current_file total_files : Z) (current_file_id : str)
        (file_details : list file_detail) (message : str)
| complete (current_file total_files percentage : Z)
| job_error (message : str).

(** What the generator meets while it runs: the surroundings of the
    service, and for the chunk [chunk_idx] of the file [file_idx] the reply
    to the embedding request and the database's part in the store call. *)
Record world := {
  service_env : env;
  embeddings_reply : Z -> Z -> http_reply;
  db : Z -> Z -> db_call
}.

(** How a run of the generator ends: it returns, or it is stuck in a call
    that does not return. *)
Inductive run_end := returned | stuck.

(** *** [generate_progress] *)

(** The loop over the chunks of one file (lines 121 to 186).  [before] are
    the details of the earlier files, [detail] those of the current one;
    the result holds the events, whether the loop ran to its end, the
    details of the file and the table afterwards. *)
Fixpoint chunks_loop (self : TrainingService.t) (W : world) (req : TrainingRequest)
    (info : file_info) (file_idx total_files total_chunks : Z)
    (before : list file_detail)
    (chunk_idx : Z) (chunks : list chunk) (detail : file_detail) (tbl : table)
  : list event * result unit * file_detail * table :=
  match chunks with
  | [] => ([], Ok tt, detail, tbl)
  | chunk :: rest =>
      let pct := pct_chunk file_idx total_files chunk_idx total_chunks in
      let detail1 :=
        set_progress chunk_idx (pct_file chunk_idx total_chunks) embedding detail in
      let ev1 := progress file_idx total_files chunk_idx total_chunks pct
                          embedding (id info) (before ++ [detail1]) in
      match generate_embedding self (embeddings_reply W file_idx chunk_idx)
                               (text chunk) with
      | Raise e => ([ev1], Raise e, detail1, tbl)
      | Ok emb =>
          match store_embedding self (db W file_idx chunk_idx) tbl
                  (knowledge_base_id req) (version_id req) (id info)
                  (chunk_idx - 1) (text chunk) emb (metadata chunk) with
          | (Raise e, tbl1) => ([ev1], Raise e, detail1, tbl1)
          | (Ok _, tbl1) =>
              let detail2 := set_status storing detail1 in
              let ev2 := progress file_idx total_files chunk_idx total_chunks pct
                                  storing (id info) (before ++ [detail2]) in
              let '(evs, r, detail3, tbl2) :=
                chunks_loop self W req info file_idx total_files total_chunks
                            before (chunk_idx + 1) rest detail2 tbl1 in
              (ev1 :: ev2 :: evs, r, detail3, tbl2)
          end
      end
  end.

(** The message of the [error] event of a file. *)
Definition error_message (info : file_info) (e : exn) : str :=
  u "Error processing " ++ name info ++ u ": " ++ exn_msg e.

(** One iteration of the loop over the files (lines 67 to 231), for the
    file [info] at position [file_idx].  [file_details] is the list of
    that name as it stands when the iteration starts; the result holds the
    events of the iteration, whether it came to its end, the details of
    the file as the iteration leaves them, and the table. *)
Definition file_body (self : TrainingService.t) (W : world) (req : TrainingRequest)
    (total_files file_idx : Z) (info : file_info)
    (file_details : list file_detail) (tbl : table)
  : list event * run_end * file_detail * table :=
  let file_size := match size info with Some n => n | None => 0%Z end in
  let detail0 :=
    {| fd_file_id := id info; fd_file_name := name info;
       fd_file_size := file_size; fd_file_type := mime_type info;
       fd_status := processing; fd_chunks_total := 0; fd_chunks_done := 0;
       fd_percentage := 0; fd_error := None |} in
  let ev0 := progress file_idx total_files 0 0
                      (pct_processing file_idx total_files)
                      processing (id info) (file_details ++ [detail0]) in
  (* the handler of the per-file [try] *)
  let handler (evs : list event) (e : exn) (detail : file_detail) (tbl1 : table) :=
    let detail' := set_failed (exn_msg e) detail in
    let ev := error file_idx total_files (id info)
                    (file_details ++ [detail']) (error_message info e) in
    (ev0 :: evs ++ [ev], returned, detail', tbl1) in
  match process_file self (service_env W) (path info) (id info) (mime_type info) with
  | None => ([ev0], stuck, detail0, tbl)
  | Some (Raise e) => handler [] e detail0 tbl
  | Some (Ok chunks) =>
      let total_chunks := Z.of_nat (List.length chunks) in
      let detail1 := set_chunks_total total_chunks detail0 in
      match chunks_loop self W req info file_idx total_files total_chunks
                        file_details 1 chunks detail1 tbl with
      | (evs, Raise e, detail2, tbl1) => handler evs e detail2 tbl1
      | (evs, Ok _, detail2, tbl1) =>
          let detail3 := set_progress (fd_chunks_done detail2) 100 completed detail2 in
          let ev := progress file_idx total_files total_chunks total_chunks
                             (pct_completed file_idx total_files)
                             completed (id info) (file_details ++ [detail3]) in
          (ev0 :: evs ++ [ev], returned, detail3, tbl1)
      end
  end.

(** The loop over the files (line 66): [for file_idx, file_info in
    enumerate(request.files, 1)]. *)
Fixpoint files_loop (self : TrainingService.t) (W : world) (req : TrainingRequest)
    (total_files file_idx : Z) (todo : list file_info)
    (file_details : list file_detail) (tbl : table)
  : list event * run_end * list file_detail * table :=
  match todo with
  | [] => ([], returned, file_details, tbl)
  | info :: rest =>
      match file_body self W req total_files file_idx info file_details tbl with
      | (evs, stuck, detail, tbl1) => (evs, stuck, file_details ++ [detail], tbl1)
      | (evs, returned, detail, tbl1) =>
          let '(evs', en, details', tbl2) :=
            files_loop self W req total_files (file_idx + 1) rest
                       (file_details ++ [detail]) tbl1 in
          (evs ++ evs', en, details', tbl2)
      end
  end.

(** The result of a run: the events in the order of their [yield], how
    the run ended, the final [file_details] and the table. *)
Record run := {
  events : list event;
  ending : run_end;
  details : list file_detail;
  final_table : table
}.

(** [generate_progress()] for a request, started on the table [tbl].  No
    operation outside the per-file [try] can raise here, so the handler
    of the outer [try] is never entered. *)
Definition generate_progress (self : TrainingService.t) (W : world)
    (request : TrainingRequest) (tbl : table) : run :=
  let total_files := Z.of_nat (List.length (files request)) in
  let '(evs, en, file_details, tbl') :=
    files_loop self W request total_files 1 (files request) [] tbl in
  match en with
  | returned =>
      {| events := evs ++ [complete total_files total_files 100];
         ending := returned; details := file_details; final_table := tbl' |}
  | stuck =>
      {| events := evs; ending := stuck; details := file_details;
         final_table := tbl' |}
  end.

End TrainingRoutes.

(* ================================================================== *)
(** ** Vocabulary of the statements                                    *)
(* ================================================================== *)

Module Spec.
Import Py Json TrainingService TrainingRoutes.

(** *** Chunker *)

(** The quotient of [a] by [b > 0], rounded up. *)
Definition ceil_div (a b : Z) : Z := ((a + b - 1) / b)%Z.

(** The number of windows as section 8 of the specification has it, for a
    text of length [L], a window [W] and an overlap [V]. *)
Definition spec_window_count (L W V : Z) : Z :=
  ceil_div (Z.max 0 (L - V)) (W - V).

(** The distance between two consecutive starts. *)
Definition stride (self : TrainingService.t) : Z :=
  (chunk_size self - chunk_overlap self)%Z.

(** The number of iterations of the loop on a text of length [L]. *)
Definition window_count (self : TrainingService.t) (L : Z) : Z :=
  ceil_div L (stride self).

(** The starts [0, stride, 2 * stride, ...] of these iterations. *)
Definition window_starts (self : TrainingService.t) (L : Z) : list Z :=
  List.map (fun k => (Z.of_nat k * stride self)%Z)
           (seq 0 (Z.to_nat (window_count self L))).

(** The chunk the loop builds for the window that starts at [start]. *)
Definition window (self : TrainingService.t) (txt : str) (md : file_metadata)
    (start : Z) : chunk :=
  {| text := slice txt start (start + chunk_size self);
     metadata := {| base := md; chunk_start := start;
                    chunk_end := (start + chunk_size self)%Z |} |}.

(** [chunk_text.strip()] is not empty. *)
Definition nonblank (c : chunk) : bool :=
  match strip (text c) with
  | [] => false
  | _ :: _ => true
  end.

(** [n] starts from [start] on, one stride apart. *)
Fixpoint starts_from (self : TrainingService.t) (n : nat) (start : Z) : list Z :=
  match n with
  | O => []
  | S n' => start :: starts_from self n' (start + stride self)%Z
  end.

(** The iterations the loop still has to make when it is at [start]. *)
Definition remaining (self : TrainingService.t) (L start : Z) : nat :=
  if (start <? L)%Z then Z.to_nat (ceil_div (L - start) (stride self)) else O.

Definition no_file : file_metadata :=
  {| file_id := []; file_path := []; TrainingService.mime_type := [] |}.

Definition with_window (W V : Z) : TrainingService.t := __init__ [] [] W V.

(** *** Dispatcher *)

(** The format an extension stands for, from the extension tests of the
    chain. *)
Definition ext_format (file_ext : str) : option extractor :=
  if Py.eqb file_ext (u ".pdf") then Some _extract_pdf_text
  else if mem file_ext [u ".docx"; u ".doc"] then Some _extract_docx_text
  else if mem file_ext [u ".xlsx"; u ".xls"] then Some _extract_excel_text
  else if Py.eqb file_ext (u ".csv") then Some _extract_csv_text
  else if Py.eqb file_ext (u ".json") then Some _extract_json_text
  else if mem file_ext [u ".txt"; u ".md"] then Some _extract_text_file
  else None.

(** The format a declared media type stands for, from the media type
    tests of the chain. *)
Definition mime_format (mime_type : str) : option extractor :=
  if Py.eqb mime_type (u "application/pdf") then Some _extract_pdf_text
  else if contains (u "wordprocessingml") mime_type
          || Py.eqb mime_type (u "application/msword")
  then Some _extract_docx_text
  else if contains (u "spreadsheetml") mime_type
          || mem mime_type
               [u "application/vnd.ms-excel";
                u "application/vnd.openxmlformats-officedocument.spreadsheetml.sheet"]
  then Some _extract_excel_text
  else if Py.eqb mime_type (u "text/csv") then Some _extract_csv_text
  else if Py.eqb mime_type (u "application/json") then Some _extract_json_text
  else if mem mime_type [u "text/plain"; u "text/markdown"] then Some _extract_text_file
  else None.

(** The place of a format in the chain. *)
Definition rank (x : extractor) : nat :=
  match x with
  | _extract_pdf_text => 0
  | _extract_docx_text => 1
  | _extract_excel_text => 2
  | _extract_csv_text => 3
  | _extract_json_text => 4
  | _extract_text_file => 5
  end.

(** The selection as section 4.1 of the specification has it: the
    extension first, the declared media type second, plain text when
    neither is known. *)
Definition spec_select_extractor (file_ext mime_type : str) : extractor :=
  match ext_format file_ext with
  | Some x => x
  | None =>
      match mime_format mime_type with
      | Some x => x
      | None => _extract_text_file
      end
  end.

(** *** Embedding client *)

Definition embedding_error_prefix : str := u "Error generating embedding: ".

(** *** Chat stream *)

(** The five upstream lines of section 8, property 5. *)
Definition upstream_lines : list str :=
  [ jq "data: {'message':{'content':'a'}}";
    u "garbage{{";
    jq "data: {'message':{'content':'b'}}";
    u "[DONE]";
    jq "data: {'message':{'content':'c'}}" ].

(** A line whose content holds the text of the prefix. *)
Definition line_with_inner_prefix : str :=
  jq "data: {'message':{'content':'x data: y'}}".

(** The removal of one leading prefix, as section 4.6 of the specification
    has it. *)
Definition spec_strip_prefix (line : str) : str :=
  let line := strip line in
  if startswith (u "data: ") line then skipn 6 line else line.

(** *** Vector store *)

(** The rows of a table under a natural key. *)
Definition count_key (k : Z * Z * Z) (tbl : table) : nat :=
  List.length (filter (fun r => key_eqb (natural_key r) k) tbl).

(** The table holds at most one row per natural key. *)
Definition one_row_per_key (tbl : table) : Prop :=
  forall k, (count_key k tbl <= 1)%nat.

(** The arguments of one call of [store_embedding] and what it gets from
    outside. *)
Record store_call := {
  call_db : db_call;
  call_knowledge_base_id : str;
  call_version_id : str;
  call_file_id : str;
  call_chunk_index : Z;
  call_chunk_text : str;
  call_embedding : Json.t;
  call_metadata : chunk_metadata
}.

Definition store (self : TrainingService.t) (tbl : table) (c : store_call)
  : result unit * table :=
  store_embedding self (call_db c) tbl (call_knowledge_base_id c) (call_version_id c)
    (call_file_id c) (call_chunk_index c) (call_chunk_text c) (call_embedding c)
    (call_metadata c).

(** The table after a sequence of calls, whether they succeed or not. *)
Definition store_all (self : TrainingService.t) (calls : list store_call) (tbl : table)
  : table :=
  fold_left (fun t c => snd (store self t c)) calls tbl.

(** The row in conflict after the update by [new]. *)
Definition overwritten (old new : row) : row :=
  {| col_id := col_id old;
     col_knowledge_base_id := col_knowledge_base_id old;
     col_knowledge_base_version_id := col_knowledge_base_version_id old;
     col_knowledge_base_file_id := col_knowledge_base_file_id old;
     col_chunk_index := col_chunk_index old;
     col_chunk_text := col_chunk_text new;
     col_embedding := col_embedding new;
     col_metadata := col_metadata new;
     col_created_at := col_created_at old;
     col_updated_at := col_updated_at new |}.

(** A database that answers every call. *)
Definition db_ok (fresh now : Z) : db_call :=
  {| has_psycopg2 := true; connect := Ok tt; embedding_id := fresh; NOW := now;
     server_error := None; commit := Ok tt |}.

Definition chunk_md (start stop : Z) : chunk_metadata :=
  {| base := no_file; chunk_start := start; chunk_end := stop |}.

(** Two ingestions of chunk 0 of file 7 of version 3, with different
    texts. *)
Definition first_store : store_call :=
  {| call_db := db_ok 1001 10; call_knowledge_base_id := u "1";
     call_version_id := u "3"; call_file_id := u "7"; call_chunk_index := 0;
     call_chunk_text := u "old text"; call_embedding := JArr [JInt 1];
     call_metadata := chunk_md 0 1000 |}.

Definition second_store : store_call :=
  {| call_db := db_ok 2002 20; call_knowledge_base_id := u "1";
     call_version_id := u "3"; call_file_id := u "7"; call_chunk_index := 0;
     call_chunk_text := u "new text"; call_embedding := JArr [JInt 2];
     call_metadata := chunk_md 0 1000 |}.

(** *** Progress stream *)

Definition count (p : event -> bool) (evs : list event) : nat :=
  List.length (filter p evs).

(** The [processing] event that opens the file at position [i]. *)
Definition is_start_for (i : Z) (e : event) : bool :=
  match e with
  | progress cf _ _ _ _ processing _ _ => (cf =? i)%Z
  | _ => false
  end.

(** The [completed] progress event of the file at position [i]. *)
Definition is_completed_for (i : Z) (e : event) : bool :=
  match e with
  | progress cf _ _ _ _ completed _ _ => (cf =? i)%Z
  | _ => false
  end.

(** The [error] event of the file at position [i]. *)
Definition is_error_for (i : Z) (e : event) : bool :=
  match e with
  | error cf _ _ _ _ => (cf =? i)%Z
  | _ => false
  end.

(** An event that ends the stream. *)
Definition is_terminal (e : event) : bool :=
  match e with
  | complete _ _ _ | job_error _ => true
  | _ => false
  end.

(** An [embedding] or [storing] event of the file at position [i]. *)
Definition is_chunk_event (i : Z) (e : event) : bool :=
  match e with
  | progress cf _ _ _ _ embedding _ _ | progress cf _ _ _ _ storing _ _ => (cf =? i)%Z
  | _ => false
  end.

(** A progress or error event of the file at position [i]. *)
Definition of_file (i : Z) (e : event) : bool :=
  match e with
  | progress cf _ _ _ _ _ _ _ | error cf _ _ _ _ => (cf =? i)%Z
  | _ => false
  end.

(** An event of a file at position [lo] or later. *)
Definition from_file (lo : Z) (e : event) : bool :=
  match e with
  | progress cf _ _ _ _ _ _ _ | error cf _ _ _ _ => (lo <=? cf)%Z
  | _ => false
  end.

(** The three kinds of event counted per file. *)
Inductive per_file : (Z -> event -> bool) -> Prop :=
| per_file_start : per_file is_start_for
| per_file_error : per_file is_error_for
| per_file_completed : per_file is_completed_for.

(** The events [evs] hold what the stream owes the file at position [k]
    whose stages ended as [o]: one [processing] event, and either one
    [completed] event and no [error] event, or one [error] event and no
    [completed] event. *)
Definition accounts_for (k : Z) (o : result unit) (evs : list event) : Prop :=
  count (is_start_for k) evs = 1%nat
  /\ count (is_error_for k) evs = (if is_ok o then 0 else 1)%nat
  /\ count (is_completed_for k) evs = (if is_ok o then 1 else 0)%nat.

(** The stages of one file without the events: the embedding and the
    storage of every chunk in turn, up to the first exception. *)
Fixpoint store_chunks (self : TrainingService.t) (W : world) (req : TrainingRequest)
    (info : file_info) (file_idx chunk_idx : Z) (chunks : list chunk) (tbl : table)
  : result unit * table :=
  match chunks with
  | [] => (Ok tt, tbl)
  | chunk :: rest =>
      match generate_embedding self (embeddings_reply W file_idx chunk_idx)
                               (text chunk) with
      | Raise e => (Raise e, tbl)
      | Ok emb =>
          match store_embedding self (db W file_idx chunk_idx) tbl
                  (knowledge_base_id req) (version_id req) (id info)
                  (chunk_idx - 1) (text chunk) emb (metadata chunk) with
          | (Raise e, tbl1) => (Raise e, tbl1)
          | (Ok _, tbl1) =>
              store_chunks self W req info file_idx (chunk_idx + 1) rest tbl1
          end
      end
  end.

(** Extraction, chunking, embedding and storage of one file: [None] when
    the chunker does not return, otherwise whether a stage raised, and the
    table. *)
Definition ingest_file (self : TrainingService.t) (W : world) (req : TrainingRequest)
    (file_idx : Z) (info : file_info) (tbl : table) : option (result unit * table) :=
  match process_file self (service_env W) (path info) (id info)
                     (TrainingRoutes.mime_type info) with
  | None => None
  | Some (Raise e) => Some (Raise e, tbl)
  | Some (Ok chunks) => Some (store_chunks self W req info file_idx 1 chunks tbl)
  end.

(** The outcome of the stages of each file in turn, each file starting on
    the table the file before it left: the list ends early only when a
    file's chunker does not return. *)
Fixpoint ingest_all (self : TrainingService.t) (W : world) (req : TrainingRequest)
    (file_idx : Z) (todo : list file_info) (tbl : table) : list (result unit) :=
  match todo with
  | [] => []
  | info :: rest =>
      match ingest_file self W req file_idx info tbl with
      | None => []
      | Some (r, tbl1) => r :: ingest_all self W req (file_idx + 1) rest tbl1
      end
  end.

Definition status_of (A : Type) (r : result A) : status :=
  if is_ok r then completed else failed.
Arguments status_of {A} r.

(** The file, status and overall percentage of the progress events, and
    the percentage of the [complete] event, in the order of the stream. *)
Definition percentages (evs : list event) : list Z :=
  flat_map (fun e => match e with
                     | progress _ _ _ _ pct _ _ _ => [pct]
                     | complete _ _ pct => [pct]
                     | _ => []
                     end) evs.

Definition trace (evs : list event) : list (Z * status * Z) :=
  flat_map (fun e => match e with
                     | progress cf _ _ _ pct st _ _ => [(cf, st, pct)]
                     | _ => []
                     end) evs.

(** The overall percentages as section 4.5 of the specification has them,
    in exact arithmetic: [floor ((i-1)/F * 100)] when file [i] of [F]
    starts, [floor (((i-1)/F + j/C/F) * 100)] at chunk [j] of [C], and
    [floor (i/F * 100)] when the file is completed. *)
Definition spec_pct_processing (i F : Z) : Z := ((i - 1) * 100 / F)%Z.
Definition spec_pct_chunk (i F j C : Z) : Z := (((i - 1) * C + j) * 100 / (C * F))%Z.
Definition spec_pct_completed (i F : Z) : Z := (i * 100 / F)%Z.

Fixpoint nondecreasing (l : list Z) : bool :=
  match l with
  | a :: (b :: _) as rest => (a <=? b)%Z && nondecreasing rest
  | _ => true
  end.

(** Surroundings in which every stage succeeds: every path exists and
    reads as [hello world], every embedding request is answered with a
    vector, and the database takes every row. *)
Definition quiet_env : env :=
  {| HAS_PDF := true; HAS_DOCX := true; HAS_PANDAS := true; HAS_XLSX := true;
     path_exists := fun _ => true;
     reader := fun _ _ => Ok (u "hello world") |}.

Definition quiet_world : world :=
  {| service_env := quiet_env;
     embeddings_reply := fun _ _ => response 200 (jq "{'embedding':[0.5,0.25]}");
     db := fun i j => db_ok (i * 1000 + j)%Z i |}.

Definition text_file (n : nat) : file_info :=
  {| id := str_of_Z (Z.of_nat n); name := u "notes.txt";
     path := u "/data/notes.txt"; TrainingRoutes.mime_type := u "text/plain";
     size := Some 11%Z |}.

(** A job of [F] such files. *)
Definition job (F : nat) : TrainingRequest :=
  {| knowledge_base_id := u "1"; version_id := u "2";
     files := List.map text_file (seq 1 F) |}.

(** The same surroundings, where the path of the second file of
    [job_missing] does not exist. *)
Definition world_missing : world :=
  {| service_env :=
       {| HAS_PDF := true; HAS_DOCX := true; HAS_PANDAS := true; HAS_XLSX := true;
          path_exists := fun p => negb (Py.eqb p (u "/data/missing.txt"));
          reader := fun _ _ => Ok (u "hello world") |};
     embeddings_reply := embeddings_reply quiet_world;
     db := db quiet_world |}.

Definition job_missing : TrainingRequest :=
  {| knowledge_base_id := u "1"; version_id := u "2";
     files := [ text_file 1;
                {| id := u "2"; name := u "missing.txt"; path := u "/data/missing.txt";
                   TrainingRoutes.mime_type := u "text/plain"; size := None |};
                text_file 3 ] |}.

End Spec.

(* ================================================================== *)
(** ** Further vocabulary: chunks, stream, store and events            *)
(* ================================================================== *)

Module Shape.
Import Py Json TrainingService TrainingRoutes Spec.
Local Open Scope Z_scope.

(** *** Extraction *)

(** The optional library a method needs. *)
Definition capability (E : env) (x : extractor) : bool :=
  match x with
  | _extract_pdf_text => HAS_PDF E
  | _extract_docx_text => HAS_DOCX E
  | _extract_excel_text | _extract_csv_text => HAS_PANDAS E
  | _extract_json_text | _extract_text_file => true
  end.

(** Surroundings in which every file reads as white space. *)
Definition blank_env : env :=
  {| HAS_PDF := true; HAS_DOCX := true; HAS_PANDAS := true; HAS_XLSX := true;
     path_exists := fun _ => true;
     reader := fun _ _ => Ok (u "   ") |}.

Definition notes_metadata : file_metadata :=
  {| file_id := u "1"; file_path := u "/data/notes.txt";
     TrainingService.mime_type := u "text/plain" |}.

(** *** Chat stream *)

(** What the body of the loop does with one upstream line: [continue],
    [break], let an exception escape, or [yield] a value. *)
Inductive action :=
| Skip
| Stop
| Fail (e : exn)
| Yield (v : Json.t).

Definition line_action (line : str) : action :=
  match line, strip line with
  | [], _ | _, [] => Skip
  | _, _ =>
      let line := OllamaClient.clean line in
      if OllamaClient.is_sentinel line then Stop
      else
        match json_loads line with
        | Raise {| exn_cls := JSONDecodeError |} => Skip
        | Raise e => Fail e
        | Ok data =>
            match OllamaClient.py_in (u "message") data with
            | Raise e => Fail e
            | Ok false => Skip
            | Ok true =>
                match OllamaClient.getitem data (u "message") with
                | Raise e => Fail e
                | Ok m =>
                    match OllamaClient.py_in (u "content") m with
                    | Raise e => Fail e
                    | Ok false => Skip
                    | Ok true =>
                        match OllamaClient.getitem m (u "content") with
                        | Raise e => Fail e
                        | Ok c => Yield c
                        end
                    end
                end
            end
        end
  end.

(** The run of the actions of the lines, in order. *)
Fixpoint run_actions (acts : list action) : list Json.t * OllamaClient.ending :=
  match acts with
  | [] => ([], OllamaClient.Finished)
  | Skip :: rest => run_actions rest
  | Stop :: _ => ([], OllamaClient.Finished)
  | Fail e :: _ => ([], OllamaClient.Raised e)
  | Yield c :: rest => let (ys, e) := run_actions rest in (c :: ys, e)
  end.

(** No action of the list ends the loop. *)
Definition live (acts : list action) : bool :=
  forallb (fun a => match a with Skip | Yield _ => true | _ => false end) acts.


Definition scalar (v : Json.t) : bool :=
  match v with
  | JNull | JBool _ | JInt _ | JFloat _ => true
  | _ => false
  end.

(** *** Vector store *)



(** *** Progress stream *)

(** The details of a file whose iteration is over. *)
Definition terminal (d : file_detail) : bool :=
  match fd_status d with
  | completed | failed => true
  | _ => false
  end.

(** The [file_details] of an event of the file at position [cf]: the
    details of the [cf - 1] files before it, all of them over, followed by
    the details [d] of the file itself. *)
Definition snapshot (cf : Z) (fds : list file_detail) (d : file_detail) : Prop :=
  exists before,
    fds = before ++ [d]
    /\ Z.of_nat (List.length before) = cf - 1
    /\ forallb terminal before = true.

(** What an event of a job of [F] files must carry. *)
Definition event_ok (F : Z) (e : event) : Prop :=
  match e with
  | progress cf tf cc tc pct st fid fds =>
      tf = F /\ 1 <= cf <= F /\ 0 <= cc <= tc
      /\ exists d, snapshot cf fds d
                   /\ fd_file_id d = fid /\ fd_status d = st
                   /\ fd_chunks_total d = tc /\ fd_chunks_done d = cc
  | error cf tf fid fds msg =>
      tf = F /\ 1 <= cf <= F
      /\ exists d err, snapshot cf fds d
                       /\ fd_file_id d = fid /\ fd_status d = failed
                       /\ fd_error d = Some err
                       /\ msg = u "Error processing " ++ fd_file_name d ++ u ": " ++ err
  | complete cf tf pct => cf = F /\ tf = F /\ pct = 100
  | job_error _ => False
  end.

(** The position of the file an event is about. *)
Definition file_of (e : event) : Z :=
  match e with
  | progress cf _ _ _ _ _ _ _ | error cf _ _ _ _ | complete cf _ _ => cf
  | job_error _ => 0
  end.

(** The file and chunk counters of the progress events, in the order of
    the stream. *)
Definition counters (evs : list event) : list (Z * Z) :=
  flat_map (fun e => match e with
                     | progress cf _ cc _ _ _ _ _ => [(cf, cc)]
                     | _ => []
                     end) evs.

(** The order of the counters: by file, then by chunk. *)
Definition counters_le (a b : Z * Z) : Prop :=
  fst a < fst b \/ (fst a = fst b /\ snd a <= snd b).

End Shape.

(* ================================================================== *)
(** ** [json.dumps]: the encoder used by the routes and the store      *)
(* ================================================================== *)

Module JsonEncoder.
Import Py Json.
Local Open Scope N_scope.

(** One digit of [format(n, "04x")]. *)
Definition hexdigit (d : N) : char := if d <? 10 then 48 + d else 87 + d.

(** The escape of a code unit [n < 0x10000]: a backslash, the letter u
    and four lowercase hexadecimal digits. *)
Definition u_escape (n : N) : str :=
  [BACKSLASH; 117; hexdigit (n / 4096); hexdigit ((n / 256) mod 16);
   hexdigit ((n / 16) mod 16); hexdigit (n mod 16)].

(** [ESCAPE_DCT]: the two-character escapes of the backslash, the quote
    and five control characters, and the four-digit escape of the other
    characters below U+0020. *)
Definition ESCAPE_DCT (c : char) : option str :=
  if c =? 92 then Some [92; 92]
  else if c =? 34 then Some [92; 34]
  else if c =? 8 then Some [92; 98]
  else if c =? 12 then Some [92; 102]
  else if c =? 10 then Some [92; 110]
  else if c =? 13 then Some [92; 114]
  else if c =? 9 then Some [92; 116]
  else if c <? 32 then Some (u_escape c)
  else None.

(** [py_encode_basestring]: the pattern [ESCAPE] matches exactly the keys
    of [ESCAPE_DCT]; every other character is kept. *)
Definition escape_char (c : char) : str :=
  match ESCAPE_DCT c with
  | Some e => e
  | None => [c]
  end.

Definition encode_basestring (s : str) : str :=
  QUOTE :: flat_map escape_char s ++ [QUOTE].

(** [py_encode_basestring_ascii]: the pattern [ESCAPE_ASCII] matches the
    backslash, the quote and everything outside space..tilde; a character
    that is not in [ESCAPE_DCT] becomes one four-digit escape, or the two
    escapes of its surrogate pair from U+10000 on. *)
Definition escape_char_ascii (c : char) : str :=
  if (c =? 92) || (c =? 34) || negb ((32 <=? c) && (c <=? 126)) then
    match ESCAPE_DCT c with
    | Some e => e
    | None =>
        if c <? 65536 then u_escape c
        else
          let n := c - 65536 in
          let s1 := N.lor 55296 (N.land (N.shiftr n 10) 1023) in
          let s2 := N.lor 56320 (N.land n 1023) in
          u_escape s1 ++ u_escape s2
    end
  else [c].

Definition encode_basestring_ascii (s : str) : str :=
  QUOTE :: flat_map escape_char_ascii s ++ [QUOTE].

(** The arguments of [_make_iterencode] that the output depends on.  A
    float of the model is the lexeme it was read from, so [_floatstr],
    which is [float.__repr__] but for the three constants, is a function
    of the lexeme and is left open. *)
Record encoder := {
  _encoder : str -> str;
  _floatstr : str -> str;
  _indent : option str;
  _item_separator : str;
  _key_separator : str
}.

Definition int_repr (z : Z) : str := TrainingService.str_of_Z z.

(** ['\n' + _indent * _current_indent_level], or nothing without indent. *)
Definition newline_indent (e : encoder) (level : nat) : str :=
  match _indent e with
  | None => []
  | Some i => 10 :: List.concat (List.repeat i level)
  end.

(** [sep.join(parts)] *)
Fixpoint join (sep : str) (parts : list str) : str :=
  match parts with
  | [] => []
  | [p] => p
  | p :: ps => p ++ sep ++ join sep ps
  end.

(** [_iterencode], [_iterencode_list] and [_iterencode_dict], the chunks
    concatenated.  The keys of a decoded object are strings. *)
Fixpoint _iterencode (e : encoder) (o : Json.t) (level : nat) {struct o} : str :=
  match o with
  | JStr s => _encoder e s
  | JNull => u "null"
  | JBool true => u "true"
  | JBool false => u "false"
  | JInt z => int_repr z
  | JFloat x => _floatstr e x
  | JArr [] => u "[]"
  | JArr items =>
      let separator := _item_separator e ++ newline_indent e (S level) in
      [91] ++ newline_indent e (S level)
           ++ join separator (List.map (fun x => _iterencode e x (S level)) items)
           ++ newline_indent e level ++ [93]
  | JObj [] => u "{}"
  | JObj pairs =>
      let item_separator := _item_separator e ++ newline_indent e (S level) in
      [123] ++ newline_indent e (S level)
            ++ join item_separator
                 (List.map (fun kv : str * Json.t =>
                              let (k, v) := kv in
                              _encoder e k ++ _key_separator e ++ _iterencode e v (S level))
                           pairs)
            ++ newline_indent e level ++ [125]
  end.

(** [JSONEncoder(ensure_ascii=..., indent=...)] with the other arguments
    at their defaults: the item separator is a comma and a space without
    indent and a comma with it. *)
Definition JSONEncoder (ensure_ascii : bool) (indent : option nat)
           (floatstr : str -> str) : encoder :=
  {| _encoder := if ensure_ascii then encode_basestring_ascii else encode_basestring;
     _floatstr := floatstr;
     _indent := option_map (List.repeat 32) indent;
     _item_separator := match indent with None => u ", " | Some _ => u "," end;
     _key_separator := u ": " |}.

(** [json.dumps(obj, ensure_ascii=..., indent=...)] *)
Definition dumps (ensure_ascii : bool) (indent : option nat) (floatstr : str -> str)
           (obj : Json.t) : str :=
  _iterencode (JSONEncoder ensure_ascii indent floatstr) obj 0.

End JsonEncoder.

(* ================================================================== *)
(** ** Further vocabulary: values and texts of the encoder             *)
(* ================================================================== *)

Module Wire.
Import Py Json.

(** *** Values the encoder writes down exactly *)

(** A code point of a string that is no surrogate. *)
Definition scalar_value (c : char) : bool :=
  ((c <? 1114112) && negb ((55296 <=? c) && (c <=? 57343)))%N.

Definition well_formed (s : str) : bool := forallb scalar_value s.

(** The keys of a dict differ from one another. *)
Fixpoint distinct (ks : list str) : bool :=
  match ks with
  | [] => true
  | k :: r => negb (existsb (Py.eqb k) r) && distinct r
  end.

(** A value without floats, whose strings and keys are well formed and
    whose objects are dicts. *)
Fixpoint exact (v : Json.t) : bool :=
  match v with
  | JNull | JBool _ | JInt _ => true
  | JFloat _ => false
  | JStr s => well_formed s
  | JArr items => forallb exact items
  | JObj pairs =>
      distinct (List.map fst pairs)
      && forallb (fun kv : str * Json.t =>
                    let (k, x) := kv in well_formed k && exact x) pairs
  end.

(** The characters of [s] are printable ASCII: space to tilde. *)
Definition printable (s : str) : bool :=
  forallb (fun c => (32 <=? c) && (c <=? 126))%N s.

(** What follows an encoded value: nothing, a comma, a closing bracket or
    brace, or the line feed of the indentation. *)
Definition delimited (r : str) : bool :=
  match r with
  | [] => true
  | c :: _ => ((c =? 44) || (c =? 93) || (c =? 125) || (c =? 10))%N
  end.

(** The decoder reads the value [v] at the head of [s] and leaves [r]. *)
Definition reads (s : str) (v : Json.t) (r : str) : Prop :=
  exists fuel, scan_once fuel s = Scanned (v, r).

End Wire.

(* ================================================================== *)
(** ** [app/routes/chat_routes.py]: the relays of the chat stream      *)
(* ================================================================== *)

Module ChatRoutes.
Import Py Json OllamaClient JsonEncoder.

(** [f"data: {json.dumps(d)}\n\n"] *)
Definition sse_frame (floatstr : str -> str) (d : Json.t) : str :=
  u "data: " ++ dumps true None floatstr d ++ [10; 10]%N.

(** The end signal of [stream_chat_sse]. *)
Definition DONE_frame : str := u "data: [DONE]" ++ [10; 10]%N.

(** [stream_chat_sse(messages, max_tokens)], given the lines the upstream
    sends: a frame for every chunk of [stream_chat]; then the end signal
    when the generator is exhausted, or the frame of the handler when an
    exception escapes it. *)
Definition stream_chat_sse (floatstr : str -> str) (lines : list str) : list str :=
  let (chunks, e) := stream_chat lines in
  List.map (fun chunk => sse_frame floatstr (JObj [(u "content", chunk)])) chunks
  ++ match e with
     | Finished => [DONE_frame]
     | Raised x => [sse_frame floatstr (JObj [(u "error", JStr (exn_msg x))])]
     end.

(** [chunk + "\n"]: concatenation for a string, [TypeError] otherwise. *)
Definition add_newline (chunk : Json.t) : result str :=
  match chunk with
  | JStr s => Ok (s ++ [10%N])
  | JArr _ =>
      Raise (Exn TypeError
               (u "can only concatenate list (not " ++ [QUOTE] ++ u "str" ++ [QUOTE]
                ++ u ") to list"))
  | _ =>
      Raise (Exn TypeError
               (u "unsupported operand type(s) for +: '" ++ type_name chunk
                ++ u "' and 'str'"))
  end.

(** The loop of [generate], the generator of [legacy_chat_stream], over
    the chunks of [stream_chat] that ends as [e]: nothing catches the
    exception of the concatenation. *)
Fixpoint generate_loop (chunks : list Json.t) (e : ending) : list str * ending :=
  match chunks with
  | [] => ([], e)
  | chunk :: rest =>
      match add_newline chunk with
      | Raise x => ([], Raised x)
      | Ok line => let (out, e') := generate_loop rest e in (line :: out, e')
      end
  end.

Definition generate (lines : list str) : list str * ending :=
  let (chunks, e) := stream_chat lines in generate_loop chunks e.

End ChatRoutes.

(* ================================================================== *)
(** ** [app/personality_store.py] and the routes of [app/main.py]      *)
(* ================================================================== *)

Module PersonalityStore.
Import Py Json JsonEncoder.

(** What a path holds: a file with text, or something [read_text] fails
    on (a directory, bytes that are no UTF-8, no permission). *)
Inductive content :=
| Text (s : str)
| Unreadable.

(** The file system, by resolved path. *)
Definition files := str -> option content.

Definition update (fs : files) (path : str) (c : content) : files :=
  fun q => if Py.eqb q path then Some c else fs q.

(** What the device does with an [open(path, "w")] followed by the write
    of the encoded text. *)
Inductive io :=
| written
| not_opened
| broke_off (remains : content).

(** The surroundings of the store: the path that [dir / name] denotes,
    the device, and [float.__repr__]. *)
Record os := {
  resolve : str -> str -> str;
  device : str -> io;
  float_repr : str -> str
}.

Record t := { dir : str }.

Inductive failure :=
| OSError
| UnicodeEncodeError.

(** UTF-8 encodes every string without surrogates. *)
Definition encodable (s : str) : bool :=
  forallb (fun c => negb ((55296 <=? c) && (c <=? 57343)))%N s.

(** [self.dir / f"{pid}.json"] *)
Definition path_of (O : os) (self : t) (pid : str) : str :=
  resolve O (dir self) (pid ++ u ".json").

(** [save(pid, data)]: the file system afterwards and the exception, if
    any.  The text is built before the file is opened; opening truncates
    the file; the text is encoded before anything reaches the device. *)
Definition save (O : os) (self : t) (fs : files) (pid : str) (data : Json.t)
  : files * option failure :=
  let path := path_of O self pid in
  let text := dumps false (Some 2%nat) (float_repr O) data in
  match device O path with
  | not_opened => (fs, Some OSError)
  | broke_off remains =>
      if encodable text then (update fs path remains, Some OSError)
      else (update fs path (Text []), Some UnicodeEncodeError)
  | written =>
      if encodable text then (update fs path (Text text), None)
      else (update fs path (Text []), Some UnicodeEncodeError)
  end.

(** [load(pid)]: [None] for a missing path and for every exception. *)
Definition load (O : os) (self : t) (fs : files) (pid : str) : option Json.t :=
  match fs (path_of O self pid) with
  | None => None
  | Some Unreadable => None
  | Some (Text s) =>
      match json_loads s with
      | Ok v => Some v
      | Raise _ => None
      end
  end.

End PersonalityStore.

Module Main.
Import Py Json JsonEncoder PersonalityStore.

(** What a route answers: a body, an [HTTPException], or an exception
    that nothing handles. *)
Inductive answer :=
| body (v : Json.t)
| HTTPException (status_code : Z) (detail : str)
| unhandled (f : failure).

(** [bool(v)]; [nonzero] tells whether a float is not zero. *)
Definition truth (nonzero : str -> bool) (v : Json.t) : bool :=
  match v with
  | JNull => false
  | JBool b => b
  | JInt z => negb (z =? 0)%Z
  | JFloat x => nonzero x
  | JStr s => negb (Py.eqb s [])
  | JArr items => match items with [] => false | _ :: _ => true end
  | JObj pairs => match pairs with [] => false | _ :: _ => true end
  end.

(** [f"{v}"]: the string itself for a string; [py_str] stands for
    [str(v)] on the other values. *)
Definition format (py_str : Json.t -> str) (v : Json.t) : str :=
  match v with
  | JStr s => s
  | _ => py_str v
  end.

(** [get_personality(pid)] *)
Definition get_personality (O : os) (nonzero : str -> bool) (store : PersonalityStore.t)
           (fs : files) (pid : str) : answer :=
  match load O store fs pid with
  | None => HTTPException 404 (u "Personality not found")
  | Some p =>
      if truth nonzero p then body p
      else HTTPException 404 (u "Personality not found")
  end.

(** [save_personality(payload)] for the dict [payload]: the file system
    afterwards and the answer. *)
Definition save_personality (O : os) (nonzero : str -> bool) (py_str : Json.t -> str)
           (store : PersonalityStore.t) (fs : files) (payload : list (str * Json.t))
  : files * answer :=
  let pid := match lookup (u "id") payload with Some v => v | None => JNull end in
  if negb (truth nonzero pid) then
    (fs, HTTPException 400 (u "`id` field is required"))
  else
    match save O store fs (format py_str pid) (JObj payload) with
    | (fs', Some f) => (fs', unhandled f)
    | (fs', None) =>
        (fs', body (JObj [(u "ok", JBool true);
                          (u "message",
                           JStr (u "Personality '" ++ format py_str pid ++ u "' saved."))]))
    end.

(** A device that writes everything, with paths joined by a slash; the
    store of the service, empty; and a personality. *)
Definition plain_os : os :=
  {| resolve := fun d name => d ++ u "/" ++ name;
     device := fun _ => written;
     PersonalityStore.float_repr := fun x => x |}.

Definition personalities : PersonalityStore.t := {| dir := u "personalities" |}.

Definition no_files : files := fun _ => None.

Definition pirate : list (str * Json.t) :=
  [(u "id", JStr (u "pirate")); (u "system_prompt", JStr (u "Talk like a pirate."))].

End Main.

(* ================================================================== *)
(** ** [app/training_service.py]: the bodies of the extraction methods *)
(* ================================================================== *)

Module Extractors.
Import Py Json TrainingService JsonEncoder.

(** What the libraries return for a path: the text of every page of a
    PDF, the text of every paragraph of a document, the name and the
    rendering of every sheet of a workbook, the rendering of a CSV frame,
    and the text of a file read as UTF-8, strictly or ignoring errors. *)
Record libraries := {
  PdfReader : str -> result (list str);
  Document : str -> result (list str);
  read_excel : str -> result (list (str * str));
  read_csv : str -> result str;
  read : str -> result str;
  read_ignore : str -> result str;
  float_repr : str -> str
}.

(** The loop of [_extract_pdf_text] from page [page_num] on. *)
Fixpoint pdf_loop (page_num : Z) (pages : list str) (text : str) : str :=
  match pages with
  | [] => text
  | page_text :: rest =>
      pdf_loop (page_num + 1) rest
               (text ++ [10; 10]%N ++ u "--- Page " ++ str_of_Z (page_num + 1)
                     ++ u " ---" ++ [10; 10]%N ++ page_text)
  end.

(** The paragraphs [_extract_docx_text] keeps. *)
Definition kept (paragraphs : list str) : list str :=
  filter (fun p => match strip p with [] => false | _ :: _ => true end) paragraphs.

(** The [text_parts] of [_extract_excel_text]. *)
Definition text_parts (sheets : list (str * str)) : list str :=
  flat_map (fun sheet : str * str =>
              let (sheet_name, rendered) := sheet in
              [[10; 10]%N ++ u "--- Sheet: " ++ sheet_name ++ u " ---" ++ [10; 10]%N;
               rendered])
           sheets.

(** What each method computes from what its library returns. *)
Definition extract (L : libraries) (x : extractor) (path : str) : result str :=
  match x with
  | _extract_pdf_text =>
      pages <- PdfReader L path ;; Ok (pdf_loop 0 pages [])
  | _extract_docx_text =>
      paragraphs <- Document L path ;; Ok (join [10; 10]%N (kept paragraphs))
  | _extract_excel_text =>
      sheets <- read_excel L path ;; Ok (join [10%N] (text_parts sheets))
  | _extract_csv_text => read_csv L path
  | _extract_json_text =>
      s <- read L path ;;
      data <- json_loads s ;;
      Ok (dumps false (Some 2%nat) (float_repr L) data)
  | _extract_text_file => read_ignore L path
  end.

(** The surroundings of the service in which the libraries are [L]. *)
Definition surroundings (has_pdf has_docx has_pandas has_xlsx : bool)
           (exists_ : str -> bool) (L : libraries) : env :=
  {| HAS_PDF := has_pdf; HAS_DOCX := has_docx; HAS_PANDAS := has_pandas;
     HAS_XLSX := has_xlsx; path_exists := exists_; reader := extract L |}.

(** Libraries that return the same document for every path. *)
Definition one_document (pages paragraphs : list str) (content : str) : libraries :=
  {| PdfReader := fun _ => Ok pages;
     Document := fun _ => Ok paragraphs;
     read_excel := fun _ => Ok [];
     read_csv := fun _ => Ok content;
     read := fun _ => Ok content;
     read_ignore := fun _ => Ok content;
     float_repr := fun x => x |}.

End Extractors.

(* ================================================================== *)
(** ** Properties                                                      *)
(* ================================================================== *)

Import Py Json TrainingService TrainingRoutes Spec.
Local Open Scope Z_scope.

(** *** The JSON decoder *)

(** Every scanner leaves a shorter input behind. *)
Lemma skip_ws_length (s : str) : (List.length (skip_ws s) <= List.length s)%nat.
Proof.
  induction s as [|c s IH]; simpl; [lia|].
  destruct (ws_char c); simpl; lia.
Qed.

Lemma scanstring_shrinks (n : nat) :
  forall (s acc x r : str),
    (List.length s <= n)%nat -> scanstring s acc = Some (x, r) ->
    (List.length r < List.length s)%nat.
Proof.
  induction n as [|n IH]; intros s acc x r Hn H.
  - destruct s; [discriminate | simpl in Hn; lia].
  - destruct s as [|c s]; [discriminate|].
    cbn [scanstring] in H.
    repeat match type of H with
           | context [match hex4 ?a ?b ?c ?d with _ => _ end] => destruct (hex4 a b c d)
           | context [match unescape ?e with _ => _ end] => destruct (unescape e)
           | context [if ?b then _ else _] => destruct b
           | context [match ?l with [] => _ | _ :: _ => _ end] => destruct l
           end;
      try discriminate;
      try (injection H as <- <-; simpl; lia);
      try (apply IH in H; simpl in *; lia).
Qed.

Lemma span_digits_length (s d r : str) :
  span_digits s = (d, r) -> (List.length r <= List.length s)%nat.
Proof.
  revert d r. induction s as [|c s IH]; intros d r; simpl.
  - intros [= <- <-]. simpl. lia.
  - destruct (is_digit c).
    + destruct (span_digits s) as [d' r'] eqn:Hs. intros [= <- <-].
      specialize (IH _ _ eq_refl). lia.
    + intros [= <- <-]. simpl. lia.
Qed.

Lemma match_integer_shrinks (s : str) (neg : bool) (d r : str) :
  match_integer s = Some (neg, d, r) -> (List.length r < List.length s)%nat.
Proof.
  unfold match_integer.
  destruct s as [|c s]; [discriminate|].
  destruct (c =? 45)%N.
  - intros H.
    destruct s as [|c' s']; [discriminate|].
    destruct (c' =? 48)%N; [injection H as <- <- <-; simpl; lia|].
    destruct (is_digit c'); [|discriminate].
    destruct (span_digits s') as [d0 r'] eqn:Hs. injection H as <- <- <-.
    apply span_digits_length in Hs. simpl. lia.
  - intros H.
    destruct (c =? 48)%N; [injection H as <- <- <-; simpl; lia|].
    destruct (is_digit c); [|discriminate].
    destruct (span_digits s) as [d0 r'] eqn:Hs. injection H as <- <- <-.
    apply span_digits_length in Hs. simpl. lia.
Qed.

Lemma match_frac_length (s f r : str) :
  match_frac s = (f, r) -> (List.length r <= List.length s)%nat.
Proof.
  unfold match_frac. destruct s as [|c s]; [intros [= <- <-]; lia|].
  destruct (c =? 46)%N; [|intros [= <- <-]; lia].
  destruct (span_digits s) as [[|d0 d] r'] eqn:Hs; intros [= <- <-]; [lia|].
  apply span_digits_length in Hs. simpl. lia.
Qed.

Lemma match_exp_length (s f r : str) :
  match_exp s = (f, r) -> (List.length r <= List.length s)%nat.
Proof.
  unfold match_exp. destruct s as [|c s]; [intros [= <- <-]; lia|].
  destruct ((c =? 101) || (c =? 69))%N; [|intros [= <- <-]; lia].
  destruct s as [|g s'].
  - simpl. intros [= <- <-]. simpl. lia.
  - destruct ((g =? 45) || (g =? 43))%N.
    + destruct (span_digits s') as [[|d0 d] r'] eqn:Hs; intros [= <- <-]; [lia|].
      apply span_digits_length in Hs. simpl. lia.
    + destruct (span_digits (g :: s')) as [[|d0 d] r'] eqn:Hs; intros [= <- <-]; [lia|].
      apply span_digits_length in Hs. simpl in *. lia.
Qed.

Lemma match_number_shrinks (s : str) (v : Json.t) (r : str) :
  match_number s = Some (v, r) -> (List.length r < List.length s)%nat.
Proof.
  unfold match_number.
  destruct (match_integer s) as [[[neg d] r0]|] eqn:Hi; [|discriminate].
  apply match_integer_shrinks in Hi.
  destruct (match_frac r0) as [f r1] eqn:Hf. apply match_frac_length in Hf.
  destruct (match_exp r1) as [e r2] eqn:He. apply match_exp_length in He.
  destruct f, e; intros [= <- <-]; lia.
Qed.

Lemma startswith_length (p s : str) :
  startswith p s = true -> (List.length p <= List.length s)%nat.
Proof.
  revert s. induction p as [|x p IH]; intros [|y s]; simpl; try lia; try discriminate.
  intros H. apply andb_true_iff in H as [_ H]. apply IH in H. lia.
Qed.

Lemma literal_shrinks (lit : string) (v v' : Json.t) (s r : str) :
  u lit <> [] -> literal lit v s = Some (v', r) ->
  (List.length r < List.length s)%nat.
Proof.
  unfold literal. intros Hne.
  destruct (startswith (u lit) s) eqn:Hp; [|discriminate].
  intros [= <- <-]. apply startswith_length in Hp. rewrite length_skipn.
  destruct (u lit); [congruence | simpl in *; lia].
Qed.

Lemma scan_value_shrinks (s : str) (v : Json.t) (r : str) :
  first_some (literal "null" JNull s)
 (first_some (literal "true" (JBool true) s)
 (first_some (literal "false" (JBool false) s)
 (first_some (match_number s)
 (first_some (literal "NaN" (JFloat (u "NaN")) s)
 (first_some (literal "Infinity" (JFloat (u "Infinity")) s)
             (literal "-Infinity" (JFloat (u "-Infinity")) s)))))) = Some (v, r) ->
  (List.length r < List.length s)%nat.
Proof.
  unfold first_some.
  repeat match goal with
         | |- context [match literal ?l ?x s with _ => _ end] =>
             let H := fresh "H" in
             destruct (literal l x s) as [[? ?]|] eqn:H;
             [intros [= <- <-]; apply literal_shrinks in H; [exact H|discriminate]|]
         | |- context [match match_number s with _ => _ end] =>
             let H := fresh "H" in
             destruct (match_number s) as [[? ?]|] eqn:H;
             [intros [= <- <-]; now apply match_number_shrinks in H|]
         end.
  intros Hlast. apply literal_shrinks in Hlast; [exact Hlast|discriminate].
Qed.

(** A value that is read leaves less input than it was given. *)
Lemma scan_shrinks (fuel : nat) :
  (forall s v r, scan_once fuel s = Scanned (v, r) ->
                 (List.length r < List.length s)%nat)
  /\ (forall s pairs v r, object_members fuel s pairs = Scanned (v, r) ->
                          (List.length r < List.length s)%nat)
  /\ (forall s items v r, array_items fuel s items = Scanned (v, r) ->
                          (List.length r < List.length s)%nat).
Proof.
  induction fuel as [|n (IHv & IHo & IHa)];
    [repeat split; intros; discriminate|].
  split; [|split].
  - intros [|c s] v r; cbn [scan_once]; [discriminate|].
    destruct (c =? QUOTE)%N.
    { destruct (scanstring s []) as [[x r']|] eqn:Hs; [|discriminate].
      intros [= <- <-]. apply (scanstring_shrinks (List.length s)) in Hs; simpl; lia. }
    destruct (c =? 123)%N.
    { pose proof (skip_ws_length s) as Hws.
      destruct (skip_ws s) as [|c1 r1]; [discriminate|].
      destruct (c1 =? 125)%N; [intros [= <- <-]; simpl in *; lia|].
      destruct (c1 =? QUOTE)%N; [|discriminate].
      intros H. apply IHo in H. simpl in *. lia. }
    destruct (c =? 91)%N.
    { pose proof (skip_ws_length s) as Hws.
      destruct (skip_ws s) as [|c1 r1]; [discriminate|].
      destruct (c1 =? 93)%N; [intros [= <- <-]; simpl in *; lia|].
      intros H. apply IHa in H. simpl in *. lia. }
    match goal with
    | |- context [match ?x with Some _ => _ | None => _ end] =>
        destruct x as [[v' r']|] eqn:Hval; [|discriminate]
    end.
    intros [= <- <-]. now apply scan_value_shrinks in Hval.
  - intros s pairs v r; cbn [object_members].
    destruct (scanstring s []) as [[key s1]|] eqn:Hs; [|discriminate].
    apply (scanstring_shrinks (List.length s)) in Hs; [|lia].
    pose proof (skip_ws_length s1) as Hw1.
    destruct (skip_ws s1) as [|c s2]; [discriminate|].
    destruct (c =? 58)%N; [|discriminate].
    pose proof (skip_ws_length s2) as Hw2.
    destruct (scan_once n (skip_ws s2)) as [[v1 s3]| |] eqn:Hv; try discriminate.
    apply IHv in Hv.
    pose proof (skip_ws_length s3) as Hw3.
    destruct (skip_ws s3) as [|c' s4]; [discriminate|].
    destruct (c' =? 125)%N; [intros [= <- <-]; simpl in *; lia|].
    destruct (c' =? 44)%N; [|discriminate].
    pose proof (skip_ws_length s4) as Hw4.
    destruct (skip_ws s4) as [|q s5]; [discriminate|].
    destruct (q =? QUOTE)%N; [|discriminate].
    intros H. apply IHo in H. simpl in *. lia.
  - intros s items v r; cbn [array_items].
    destruct (scan_once n s) as [[v1 s1]| |] eqn:Hv; try discriminate.
    apply IHv in Hv.
    pose proof (skip_ws_length s1) as Hw1.
    destruct (skip_ws s1) as [|c s2]; [discriminate|].
    destruct (c =? 93)%N; [intros [= <- <-]; simpl in *; lia|].
    destruct (c =? 44)%N; [|discriminate].
    pose proof (skip_ws_length s2) as Hw2.
    intros H. apply IHa in H. simpl in *. lia.
Qed.

(** Two units of budget per character, and one more, are enough. *)
Lemma scan_fuel_enough (fuel : nat) :
  (forall s, (2 * List.length s + 1 <= fuel)%nat -> scan_once fuel s <> OutOfFuel)
  /\ (forall s pairs, (2 * List.length s + 2 <= fuel)%nat ->
                      object_members fuel s pairs <> OutOfFuel)
  /\ (forall s items, (2 * List.length s + 2 <= fuel)%nat ->
                      array_items fuel s items <> OutOfFuel).
Proof.
  induction fuel as [|n (IHv & IHo & IHa)];
    [repeat split; intros; lia|].
  split; [|split].
  - intros [|c s] Hn; cbn [scan_once]; [discriminate|].
    destruct (c =? QUOTE)%N.
    { destruct (scanstring s []) as [[x r']|]; discriminate. }
    destruct (c =? 123)%N.
    { pose proof (skip_ws_length s) as Hws.
      destruct (skip_ws s) as [|c1 r1]; [discriminate|].
      destruct (c1 =? 125)%N; [discriminate|].
      destruct (c1 =? QUOTE)%N; [|discriminate].
      apply IHo. simpl in *. lia. }
    destruct (c =? 91)%N.
    { pose proof (skip_ws_length s) as Hws.
      destruct (skip_ws s) as [|c1 r1]; [discriminate|].
      destruct (c1 =? 93)%N; [discriminate|].
      apply IHa. simpl in *. lia. }
    match goal with
    | |- context [match ?x with Some _ => _ | None => _ end] =>
        destruct x as [[v' r']|]; discriminate
    end.
  - intros s pairs Hn; cbn [object_members].
    destruct (scanstring s []) as [[key s1]|] eqn:Hs; [|discriminate].
    apply (scanstring_shrinks (List.length s)) in Hs; [|lia].
    pose proof (skip_ws_length s1) as Hw1.
    destruct (skip_ws s1) as [|c s2]; [discriminate|].
    destruct (c =? 58)%N; [|discriminate].
    pose proof (skip_ws_length s2) as Hw2.
    pose proof (IHv (skip_ws s2) ltac:(simpl in *; lia)) as Hfuel.
    destruct (scan_once n (skip_ws s2)) as [[v1 s3]| |] eqn:Hv;
      [|discriminate|congruence].
    apply (proj1 (scan_shrinks n)) in Hv.
    pose proof (skip_ws_length s3) as Hw3.
    destruct (skip_ws s3) as [|c' s4]; [discriminate|].
    destruct (c' =? 125)%N; [discriminate|].
    destruct (c' =? 44)%N; [|discriminate].
    pose proof (skip_ws_length s4) as Hw4.
    destruct (skip_ws s4) as [|q s5]; [discriminate|].
    destruct (q =? QUOTE)%N; [|discriminate].
    apply IHo. simpl in *. lia.
  - intros s items Hn; cbn [array_items].
    pose proof (IHv s ltac:(lia)) as Hfuel.
    destruct (scan_once n s) as [[v1 s1]| |] eqn:Hv; [|discriminate|congruence].
    apply (proj1 (scan_shrinks n)) in Hv.
    pose proof (skip_ws_length s1) as Hw1.
    destruct (skip_ws s1) as [|c s2]; [discriminate|].
    destruct (c =? 93)%N; [discriminate|].
    destruct (c =? 44)%N; [|discriminate].
    pose proof (skip_ws_length s2) as Hw2.
    apply IHa. simpl in *. lia.
Qed.


(** *** The chunker *)

(** One step of the loop. *)
Lemma chunk_loop_eq (fuel : nat) (self : TrainingService.t) (txt : str)
    (md : file_metadata) (start : Z) (chunks : list chunk) :
  chunk_loop fuel self txt md start chunks =
  if start <? Z.of_nat (List.length txt) then
    match fuel with
    | O => None
    | S n =>
        chunk_loop n self txt md (start + chunk_size self - chunk_overlap self)
          (if nonblank (window self txt md start)
           then chunks ++ [window self txt md start] else chunks)
    end
  else Some chunks.
Proof.
  destruct fuel as [|n]; simpl; [reflexivity|].
  destruct (start <? Z.of_nat (List.length txt)); [|reflexivity].
  unfold nonblank, window; simpl.
  destruct (strip (slice txt start (start + chunk_size self))); reflexivity.
Qed.

(** Arithmetic of the number of windows. *)
Lemma ceil_div_pos (a b : Z) : 0 < a -> 0 < b -> 1 <= ceil_div a b.
Proof.
  intros Ha Hb. unfold ceil_div.
  apply Z.div_le_lower_bound; lia.
Qed.

Lemma ceil_div_step (a b : Z) :
  0 < b -> b < a -> ceil_div (a - b) b = ceil_div a b - 1.
Proof.
  intros Hb Ha. unfold ceil_div.
  replace (a - b + b - 1) with ((a + b - 1) + (-1) * b) by lia.
  rewrite Z.div_add by lia. lia.
Qed.

Lemma ceil_div_last (a b : Z) : 0 < a -> a <= b -> ceil_div a b = 1.
Proof.
  intros Ha Hb. unfold ceil_div.
  symmetry. apply Z.div_unique with (r := a - 1); lia.
Qed.

Lemma ceil_div_le (a b : Z) : 0 <= a -> 0 < b -> ceil_div a b <= a.
Proof.
  intros Ha Hb. unfold ceil_div.
  destruct (Z.eq_dec a 0) as [->|Hne].
  - rewrite Z.div_small; lia.
  - apply Z.div_le_upper_bound; nia.
Qed.

Lemma remaining_step (self : TrainingService.t) (L start : Z) :
  0 < stride self -> start < L ->
  remaining self L start = S (remaining self L (start + stride self)).
Proof.
  intros Hs Hlt. unfold remaining.
  apply Z.ltb_lt in Hlt as Hb. rewrite Hb.
  destruct (start + stride self <? L) eqn:Hn.
  - apply Z.ltb_lt in Hn.
    replace (L - (start + stride self)) with ((L - start) - stride self) by lia.
    rewrite ceil_div_step by lia.
    pose proof (ceil_div_pos (L - start - stride self) (stride self) ltac:(lia) Hs) as H1.
    rewrite ceil_div_step in H1 by lia. lia.
  - apply Z.ltb_ge in Hn.
    rewrite ceil_div_last by lia. reflexivity.
Qed.

Lemma remaining_done (self : TrainingService.t) (L start : Z) :
  0 < stride self -> remaining self L start = O -> L <= start.
Proof.
  intros Hs. unfold remaining.
  destruct (start <? L) eqn:Hb; [|apply Z.ltb_ge in Hb; lia].
  apply Z.ltb_lt in Hb.
  pose proof (ceil_div_pos (L - start) (stride self) ltac:(lia) Hs). lia.
Qed.

(** The loop visits the starts one stride apart and keeps the windows that
    are not blank. *)
Lemma chunk_loop_windows (self : TrainingService.t) (txt : str) (md : file_metadata) :
  0 < stride self ->
  forall (n fuel : nat) (start : Z) (acc : list chunk),
    remaining self (Z.of_nat (List.length txt)) start = n ->
    (n <= fuel)%nat ->
    chunk_loop fuel self txt md start acc =
    Some (acc ++ filter nonblank (List.map (window self txt md) (starts_from self n start))).
Proof.
  intros Hs. induction n as [|n IH]; intros fuel start acc Hrem Hfuel.
  - rewrite chunk_loop_eq.
    apply remaining_done in Hrem; [|exact Hs].
    apply Z.ltb_ge in Hrem. rewrite Hrem. simpl. now rewrite app_nil_r.
  - assert (Hlt : start < Z.of_nat (List.length txt)).
    { unfold remaining in Hrem.
      destruct (start <? Z.of_nat (List.length txt)) eqn:Hb; [|discriminate].
      now apply Z.ltb_lt. }
    rewrite chunk_loop_eq. apply Z.ltb_lt in Hlt as Hb. rewrite Hb.
    destruct fuel as [|fuel]; [lia|].
    rewrite (remaining_step self _ _ Hs Hlt) in Hrem. injection Hrem as Hrem.
    replace (start + chunk_size self - chunk_overlap self)
      with (start + stride self) by (unfold stride; lia).
    rewrite (IH fuel _ _ Hrem ltac:(lia)). simpl.
    destruct (nonblank (window self txt md start)).
    + now rewrite <- app_assoc.
    + reflexivity.
Qed.

(** The starts of the loop are the multiples of the stride. *)
Lemma starts_from_map (self : TrainingService.t) (n : nat) (start : Z) :
  starts_from self n start =
  List.map (fun k => start + Z.of_nat k * stride self) (seq 0 n).
Proof.
  revert start. induction n as [|n IH]; intros start; [reflexivity|].
  cbn [starts_from]. rewrite IH. cbn [seq List.map].
  f_equal; [lia|].
  rewrite <- seq_shift, map_map. apply map_ext. intros k. lia.
Qed.

(** Every chunk the loop adds is the window of a start inside the text. *)
Lemma chunk_loop_bounds (self : TrainingService.t) (txt : str) (md : file_metadata)
    (P : chunk -> Prop) :
  (forall start, start < Z.of_nat (List.length txt) -> P (window self txt md start)) ->
  forall (fuel : nat) (start : Z) (acc chunks : list chunk),
    chunk_loop fuel self txt md start acc = Some chunks ->
    Forall P acc -> Forall P chunks.
Proof.
  intros HP. induction fuel as [|fuel IH]; intros start acc chunks.
  - rewrite chunk_loop_eq. destruct (start <? _); [discriminate|].
    intros [= <-]. auto.
  - rewrite chunk_loop_eq. destruct (start <? _) eqn:Hb.
    + intros Hrun Hacc. apply (IH _ _ _ Hrun).
      destruct (nonblank _); [|exact Hacc].
      apply Forall_app. split; [exact Hacc|].
      constructor; [apply HP; now apply Z.ltb_lt|constructor].
    + intros [= <-]. auto.
Qed.

(** With a stride that is not positive the loop never leaves a text that
    is not empty. *)
Lemma chunk_loop_stuck (self : TrainingService.t) (txt : str) (md : file_metadata) :
  stride self <= 0 -> txt <> [] ->
  forall (fuel : nat) (start : Z) (acc : list chunk),
    start <= 0 -> chunk_loop fuel self txt md start acc = None.
Proof.
  intros Hs Hne. induction fuel as [|fuel IH]; intros start acc Hstart;
    rewrite chunk_loop_eq;
    assert (Hb : (start <? Z.of_nat (List.length txt)) = true)
      by (apply Z.ltb_lt; destruct txt; [congruence | simpl List.length; lia]);
    rewrite Hb; [reflexivity|].
  apply IH. unfold stride in Hs. lia.
Qed.

(** The budget of [_chunk_text] covers every iteration of a loop that
    advances. *)
Lemma window_count_fuel (self : TrainingService.t) (L : nat) :
  0 < stride self ->
  (remaining self (Z.of_nat L) 0 <= L)%nat /\
  remaining self (Z.of_nat L) 0 = Z.to_nat (window_count self (Z.of_nat L)).
Proof.
  intros Hs. unfold remaining, window_count.
  destruct (0 <? Z.of_nat L) eqn:Hb.
  - rewrite Z.sub_0_r. split; [|reflexivity].
    pose proof (ceil_div_le (Z.of_nat L) (stride self) ltac:(lia) Hs). lia.
  - apply Z.ltb_ge in Hb. assert (L = O) by lia. subst L. split; [lia|].
    unfold ceil_div. simpl. rewrite Z.div_small by lia. reflexivity.
Qed.

(** The result of [_chunk_text] when the stride is positive. *)
Lemma chunk_text_windows (self : TrainingService.t) (txt : str) (md : file_metadata) :
  0 < stride self ->
  _chunk_text self txt md =
  Some (filter nonblank
          (List.map (window self txt md)
                    (window_starts self (Z.of_nat (List.length txt))))).
Proof.
  intros Hs. unfold _chunk_text, _chunk_text_fuel.
  destruct (window_count_fuel self (List.length txt) Hs) as [Hfuel Hcount].
  rewrite (chunk_loop_windows self txt md Hs _ _ 0 [] eq_refl Hfuel).
  rewrite Hcount, starts_from_map. reflexivity.
Qed.

(** When [_chunk_text] has no result, no budget gives one: the call does
    not return. *)
Lemma chunk_text_None_diverges (self : TrainingService.t) (txt : str)
    (md : file_metadata) :
  _chunk_text self txt md = None ->
  forall fuel, _chunk_text_fuel fuel self txt md = None.
Proof.
  intros Hnone fuel.
  destruct (Z_lt_le_dec 0 (stride self)) as [Hs|Hs].
  - rewrite chunk_text_windows in Hnone by exact Hs. discriminate.
  - destruct txt as [|c txt]; [discriminate|].
    apply chunk_loop_stuck; [exact Hs|discriminate|lia].
Qed.

(** C2 (as amended).  For a window [W] and an overlap [V] with
    [0 <= V < W] and a text of length [L], the chunker makes one window
    for each start [k * (W - V)] below [L], that is [ceil (L / (W - V))]
    windows, and returns the chunks of the windows that are not blank, in
    order; every returned chunk records [end - start = W]. *)
Theorem C2_window_count (self : TrainingService.t) (txt : str) (md : file_metadata) :
  0 <= chunk_overlap self < chunk_size self ->
  let L := Z.of_nat (List.length txt) in
  let windows := List.map (window self txt md) (window_starts self L) in
  _chunk_text self txt md = Some (filter nonblank windows)
  /\ Z.of_nat (List.length windows) = ceil_div L (chunk_size self - chunk_overlap self)
  /\ Forall (fun c => chunk_end (metadata c) - chunk_start (metadata c) = chunk_size self)
            (filter nonblank windows).
Proof.
  intros HWV L windows.
  assert (Hs : 0 < stride self) by (unfold stride; lia).
  split; [apply chunk_text_windows; exact Hs|]. split.
  - unfold windows, window_starts. rewrite !length_map, length_seq.
    unfold window_count, stride.
    rewrite Z2Nat.id; [reflexivity|].
    unfold ceil_div. apply Z.div_pos; unfold L; lia.
  - apply Forall_forall. intros c Hc.
    apply filter_In in Hc as [Hc _]. unfold windows in Hc.
    apply in_map_iff in Hc as [start [<- _]]. simpl. lia.
Qed.

Lemma C2_window_count_witness :
  _chunk_text (with_window 4 2) (u "abcdefghij") no_file =
    Some (List.map (window (with_window 4 2) (u "abcdefghij") no_file) [0; 2; 4; 6; 8])
  /\ ceil_div 10 (4 - 2) = 5.
Proof.
  destruct (C2_window_count (with_window 4 2) (u "abcdefghij") no_file
              ltac:(simpl; lia)) as [Hrun [Hcount _]].
  split; [exact Hrun | reflexivity].
Defined.

(** C2, as the specification states it, fails: for the text [ab], a window
    of 2 and an overlap of 1 the formula [ceil (max 0 (L - V) / (W - V))]
    gives one window, and the chunker returns two chunks. *)
Lemma C2_counterexample :
  _chunk_text (with_window 2 1) (u "ab") no_file =
    Some [window (with_window 2 1) (u "ab") no_file 0;
          window (with_window 2 1) (u "ab") no_file 1]
  /\ spec_window_count (Z.of_nat (List.length (u "ab"))) 2 1 = 1
  /\ ~ (forall chunks,
          _chunk_text (with_window 2 1) (u "ab") no_file = Some chunks ->
          Z.of_nat (List.length chunks)
          = spec_window_count (Z.of_nat (List.length (u "ab"))) 2 1).
Proof.
  split; [reflexivity|]. split; [reflexivity|].
  intros H. specialize (H _ eq_refl). discriminate H.
Qed.

(** C5 (as amended).  [__init__] takes every window [W] and overlap [V] as
    they are.  When [W - V > 0] the chunker returns on every text; when
    [W - V <= 0] it returns on the empty text only, and on every other
    text its loop never ends. *)
Theorem C5_termination (url model : str) (W V : Z) (txt : str) (md : file_metadata) :
  let self := __init__ url model W V in
  chunk_size self = W /\ chunk_overlap self = V
  /\ (0 < W - V -> exists chunks, _chunk_text self txt md = Some chunks)
  /\ (W - V <= 0 -> txt <> [] -> forall fuel, _chunk_text_fuel fuel self txt md = None)
  /\ (txt = [] -> _chunk_text self txt md = Some []).
Proof.
  intros self. split; [reflexivity|]. split; [reflexivity|]. split; [|split].
  - intros Hs. eexists. apply chunk_text_windows. exact Hs.
  - intros Hs Hne fuel. apply chunk_loop_stuck; [exact Hs|exact Hne|lia].
  - intros ->. reflexivity.
Qed.

Lemma C5_termination_witness :
  (exists chunks, _chunk_text (__init__ [] [] 1000 200) (u "hello") no_file = Some chunks)
  /\ (forall fuel, _chunk_text_fuel fuel (__init__ [] [] 5 5) (u "a") no_file = None).
Proof.
  split.
  - apply (C5_termination [] [] 1000 200 (u "hello") no_file). lia.
  - apply (C5_termination [] [] 5 5 (u "a") no_file); [lia | discriminate].
Defined.

(** C5, as the specification states it, fails: a window of 5 with an
    overlap of 5 is taken as it is, and the chunker's loop on the text [a]
    has no end. *)
Lemma C5_counterexample :
  chunk_size (__init__ [] [] 5 5) - chunk_overlap (__init__ [] [] 5 5) <= 0
  /\ ~ (exists fuel chunks,
          _chunk_text_fuel fuel (__init__ [] [] 5 5) (u "a") no_file = Some chunks).
Proof.
  split; [simpl; lia|].
  intros (fuel & chunks & Hrun). unfold _chunk_text_fuel in Hrun.
  rewrite (chunk_loop_stuck (__init__ [] [] 5 5) (u "a") no_file) in Hrun;
    [discriminate | unfold stride; simpl; lia | discriminate | lia].
Qed.

(** C10.  Every chunk the chunker returns has [chunk_end = chunk_start + W]
    whatever the length of the text, and its text is the slice of these
    bounds, which Python cuts at the end of the text: for the text
    [abcdefghij], a window of 4 and an overlap of 2 the last chunk records
    the bounds 8 and 12 and holds the two characters [ij]. *)
Theorem C10_chunk_end_not_clamped (self : TrainingService.t) (txt : str)
    (md : file_metadata) (fuel : nat) (chunks : list chunk) :
  _chunk_text_fuel fuel self txt md = Some chunks ->
  Forall (fun c =>
            chunk_end (metadata c) = chunk_start (metadata c) + chunk_size self
            /\ text c = slice txt (chunk_start (metadata c)) (chunk_end (metadata c))
            /\ chunk_start (metadata c) < Z.of_nat (List.length txt)) chunks
  /\ exists last_chunk,
       _chunk_text (with_window 4 2) (u "abcdefghij") no_file
         = Some (List.map (window (with_window 4 2) (u "abcdefghij") no_file) [0; 2; 4; 6]
                   ++ [last_chunk])
       /\ chunk_end (metadata last_chunk) = 12
       /\ Z.of_nat (List.length (u "abcdefghij")) = 10
       /\ text last_chunk = u "ij".
Proof.
  intros Hrun. split.
  - apply (chunk_loop_bounds self txt md) with
      (fuel := fuel) (start := 0) (acc := []); [|exact Hrun|constructor].
    intros start Hlt. simpl. auto.
  - exists (window (with_window 4 2) (u "abcdefghij") no_file 8).
    repeat split.
Qed.

Lemma C10_chunk_end_not_clamped_witness :
  Forall (fun c =>
            chunk_end (metadata c) = chunk_start (metadata c) + 1000
            /\ text c = slice (u "hello world") (chunk_start (metadata c))
                              (chunk_end (metadata c))
            /\ chunk_start (metadata c) < 11)
         [window default (u "hello world") no_file 0].
Proof.
  apply (C10_chunk_end_not_clamped default (u "hello world") no_file 11%nat
           [window default (u "hello world") no_file 0]).
  reflexivity.
Defined.

(** *** The extraction dispatcher *)

(** C7 (as amended).  For every path and declared media type the
    dispatcher takes the first format, in the order PDF, Word, Excel, CSV,
    JSON, plain text, that the extension or the media type stands for:
    when only one of the two is known it decides, when both are known the
    one earlier in this order wins (so the extension wins over a media
    type of a later format, and loses to one of an earlier format), and
    when neither is known the file is read as plain text. *)
Theorem C7_dispatch_order (file_path mime_type : str) :
  let file_ext := lower (suffix file_path) in
  select_extractor file_ext mime_type =
  match ext_format file_ext, mime_format mime_type with
  | Some x, Some y => if (rank x <=? rank y)%nat then x else y
  | Some x, None => x
  | None, Some y => y
  | None, None => _extract_text_file
  end.
Proof.
  intros file_ext. generalize file_ext. clear. intros e.
  unfold select_extractor, ext_format, mime_format.
  repeat match goal with
         | |- context [Py.eqb ?a ?b] =>
             let b' := fresh "b" in
             generalize (Py.eqb a b); intros b'
         | |- context [mem ?a ?b] =>
             let b' := fresh "b" in
             generalize (mem a b); intros b'
         | |- context [contains ?a ?b] =>
             let b' := fresh "b" in
             generalize (contains a b); intros b'
         end.
  repeat match goal with
         | b : bool |- _ => destruct b
         end; reflexivity.
Qed.

(** C7, as the specification states it, fails: for [report.csv] declared
    as [application/pdf] the extension stands for CSV, and the dispatcher
    takes the PDF method. *)
Lemma C7_counterexample :
  ext_format (lower (suffix (u "report.csv"))) = Some _extract_csv_text
  /\ mime_format (u "application/pdf") = Some _extract_pdf_text
  /\ select_extractor (lower (suffix (u "report.csv"))) (u "application/pdf")
     = _extract_pdf_text
  /\ spec_select_extractor (lower (suffix (u "report.csv"))) (u "application/pdf")
     = _extract_csv_text.
Proof. repeat split. Qed.

(** *** The embedding client *)

(** C6 (as amended).  [generate_embedding] raises a plain [Exception],
    whose message starts with [Error generating embedding: ], when the
    request fails in transport, when the status of the response is outside
    200..299, and when the body of a success response is no JSON document.
    When the body of a success response is a JSON object without the key
    [embedding] the call returns the empty list, and with the key it
    returns the value under it. *)
Theorem C6_embedding_outcomes (self : TrainingService.t) (reply : http_reply) (txt : str) :
  (forall e, reply = transport_failure e ->
     generate_embedding self reply txt
     = Raise (Exn Exception (embedding_error_prefix ++ exn_msg e)))
  /\ (forall status body, reply = response status body ->
        ~ (200 <= status <= 299) ->
        exists msg, generate_embedding self reply txt
                    = Raise (Exn Exception (embedding_error_prefix ++ msg)))
  /\ (forall status body e, reply = response status body ->
        200 <= status <= 299 -> json_loads body = Raise e ->
        generate_embedding self reply txt
        = Raise (Exn Exception (embedding_error_prefix ++ exn_msg e)))
  /\ (forall status body d, reply = response status body ->
        200 <= status <= 299 -> json_loads body = Ok (JObj d) ->
        generate_embedding self reply txt
        = Ok (match lookup (u "embedding") d with
              | Some v => v
              | None => JArr []
              end)).
Proof.
  repeat split.
  - intros e ->. reflexivity.
  - intros status body -> Hstatus. unfold generate_embedding, raise_for_status.
    destruct ((200 <=? status) && (status <=? 299)) eqn:Hb.
    + apply andb_true_iff in Hb as [H1 H2].
      apply Z.leb_le in H1, H2. lia.
    + eexists. reflexivity.
  - intros status body e -> Hstatus Hbody.
    unfold generate_embedding, raise_for_status.
    replace ((200 <=? status) && (status <=? 299)) with true
      by (symmetry; apply andb_true_iff; split; apply Z.leb_le; lia).
    simpl. rewrite Hbody. reflexivity.
  - intros status body d -> Hstatus Hbody.
    unfold generate_embedding, raise_for_status.
    replace ((200 <=? status) && (status <=? 299)) with true
      by (symmetry; apply andb_true_iff; split; apply Z.leb_le; lia).
    simpl. rewrite Hbody. simpl.
    destruct (lookup (u "embedding") d); reflexivity.
Qed.

Lemma C6_embedding_outcomes_witness :
  (exists msg, generate_embedding default (response 500 (u "busy")) (u "hello")
               = Raise (Exn Exception (embedding_error_prefix ++ msg)))
  /\ generate_embedding default (response 200 (jq "{'embedding':[1,2]}")) (u "hello")
     = Ok (JArr [JInt 1; JInt 2])
  /\ generate_embedding default (response 200 (u "<html>")) (u "hello")
     = Raise (Exn Exception (embedding_error_prefix ++ u "JSONDecodeError")).
Proof.
  split; [|split].
  - apply (proj1 (proj2 (C6_embedding_outcomes default (response 500 (u "busy")) (u "hello")))
             500 (u "busy") eq_refl).
    lia.
  - apply (proj2 (proj2 (proj2
             (C6_embedding_outcomes default (response 200 (jq "{'embedding':[1,2]}"))
                                    (u "hello"))))
             200 (jq "{'embedding':[1,2]}")
             [(u "embedding", JArr [JInt 1; JInt 2])] eq_refl); [lia | reflexivity].
  - apply (proj1 (proj2 (proj2
             (C6_embedding_outcomes default (response 200 (u "<html>")) (u "hello"))))
             200 (u "<html>") (Exn JSONDecodeError (u "JSONDecodeError")) eq_refl);
      [lia | reflexivity].
Defined.

(** C6, as the specification states it, fails: a success response whose
    JSON object has no [embedding] key makes the call return the empty
    list. *)
Lemma C6_counterexample :
  generate_embedding default (response 200 (jq "{'model':'nomic-embed-text'}")) (u "hello")
  = Ok (JArr []).
Proof. reflexivity. Qed.

(** *** The chat stream normalizer *)

(** C8.  On the five upstream lines of the example the normalizer yields
    the content [a], then the content [b], and ends at the sentinel: the
    line after it is never read. *)
Theorem C8_stream_chat_example :
  OllamaClient.stream_chat upstream_lines
  = ([JStr (u "a"); JStr (u "b")], OllamaClient.Finished).
Proof. reflexivity. Qed.

(** C9 does not hold of the code.  On a line that starts with the prefix,
    [clean] removes every occurrence of [data: ], also the one inside the
    JSON payload, where removing the leading prefix alone would keep it;
    the content yielded for such a line has lost it. *)
Theorem C9_inner_occurrence_removed :
  OllamaClient.clean line_with_inner_prefix = jq "{'message':{'content':'x y'}}"
  /\ spec_strip_prefix line_with_inner_prefix = jq "{'message':{'content':'x data: y'}}"
  /\ OllamaClient.stream_chat [line_with_inner_prefix]
     = ([JStr (u "x y")], OllamaClient.Finished).
Proof. repeat split. Qed.

(** *** The vector store *)

(** Counting rows by natural key. *)
Lemma key_eqb_eq (a b : Z * Z * Z) : key_eqb a b = true <-> a = b.
Proof.
  destruct a as [[a1 a2] a3], b as [[b1 b2] b3]. unfold key_eqb.
  rewrite !andb_true_iff, !Z.eqb_eq. split.
  - intros [[-> ->] ->]. reflexivity.
  - intros [= -> -> ->]. auto.
Qed.

Lemma key_eqb_refl (a : Z * Z * Z) : key_eqb a a = true.
Proof. now apply key_eqb_eq. Qed.

Lemma count_key_app (k : Z * Z * Z) (a b : table) :
  count_key k (a ++ b) = (count_key k a + count_key k b)%nat.
Proof. unfold count_key. now rewrite filter_app, length_app. Qed.

Lemma count_key_cons (k : Z * Z * Z) (r : row) (tbl : table) :
  count_key k (r :: tbl)
  = ((if key_eqb (natural_key r) k then 1 else 0) + count_key k tbl)%nat.
Proof.
  unfold count_key. cbn [filter].
  destruct (key_eqb (natural_key r) k); reflexivity.
Qed.

Lemma natural_key_overwritten (old new : row) :
  natural_key (overwritten old new) = natural_key old.
Proof. reflexivity. Qed.

(** The update path: the first row with the key is rewritten where it
    stands. *)
Lemma on_conflict_split (new : row) (tbl tbl' : table) :
  on_conflict_do_update new tbl = Some tbl' ->
  exists pre old post,
    tbl = pre ++ old :: post
    /\ natural_key old = natural_key new
    /\ tbl' = pre ++ overwritten old new :: post.
Proof.
  revert tbl'. induction tbl as [|r rest IH]; intros tbl';
    cbn [on_conflict_do_update]; [discriminate|].
  destruct (key_eqb (natural_key r) (natural_key new)) eqn:Hk.
  - intros [= <-]. exists [], r, rest. apply key_eqb_eq in Hk. auto.
  - destruct (on_conflict_do_update new rest) as [rest'|]; [|discriminate].
    intros [= <-]. destruct (IH rest' eq_refl) as (pre & old & post & -> & Hkey & ->).
    exists (r :: pre), old, post. auto.
Qed.

(** The insert path is taken exactly when no row has the key. *)
Lemma on_conflict_none (new : row) (tbl : table) :
  on_conflict_do_update new tbl = None <-> count_key (natural_key new) tbl = O.
Proof.
  induction tbl as [|r rest IH]; cbn [on_conflict_do_update]; [tauto|].
  rewrite count_key_cons.
  destruct (key_eqb (natural_key r) (natural_key new)).
  - split; [discriminate | cbn [Nat.add]; discriminate].
  - destruct (on_conflict_do_update new rest); cbn [Nat.add].
    + split; [discriminate|]. intros H. apply IH in H. discriminate.
    + split; [intros _; now apply IH | reflexivity].
Qed.

(** The statement keeps the table at one row per key. *)
Lemma execute_insert_one_row (new : row) (tbl tbl' : table) :
  execute_insert new tbl = Ok tbl' ->
  one_row_per_key tbl -> one_row_per_key tbl'.
Proof.
  unfold execute_insert, one_row_per_key. intros Hexec Hinv k.
  destruct (on_conflict_do_update new tbl) as [t|] eqn:Hup.
  - injection Hexec as <-.
    apply on_conflict_split in Hup as (pre & old & post & -> & _ & ->).
    specialize (Hinv k).
    rewrite count_key_app, count_key_cons in *.
    now rewrite natural_key_overwritten.
  - destruct (existsb _ tbl); [discriminate|]. injection Hexec as <-.
    apply on_conflict_none in Hup.
    rewrite count_key_app, count_key_cons. change (count_key k []) with O.
    destruct (key_eqb (natural_key new) k) eqn:Hk.
    + apply key_eqb_eq in Hk. subst k. rewrite Hup. lia.
    + specialize (Hinv k). lia.
Qed.

(** What a call of [store_embedding] does to the table. *)
Lemma store_embedding_cases (self : TrainingService.t) (db : db_call) (tbl : table)
    (kb ver file : str) (idx : Z) (txt : str) (emb : Json.t) (md : chunk_metadata) :
  (exists e, store_embedding self db tbl kb ver file idx txt emb md = (Raise e, tbl))
  \/ (exists kbz verz filez tbl',
        py_int kb = Ok kbz /\ py_int ver = Ok verz /\ py_int file = Ok filez
        /\ execute_insert
             {| col_id := embedding_id db;
                col_knowledge_base_id := kbz;
                col_knowledge_base_version_id := verz;
                col_knowledge_base_file_id := filez;
                col_chunk_index := idx;
                col_chunk_text := txt;
                col_embedding := emb;
                col_metadata := md;
                col_created_at := NOW db;
                col_updated_at := NOW db |} tbl = Ok tbl'
        /\ store_embedding self db tbl kb ver file idx txt emb md = (Ok tt, tbl')).
Proof.
  unfold store_embedding.
  destruct (has_psycopg2 db); simpl; [|left; eexists; reflexivity].
  destruct (connect db) as [[]|e]; simpl; [|left; eexists; reflexivity].
  destruct (iterable emb) as [[]|e]; simpl; [|left; eexists; reflexivity].
  destruct (py_int kb) as [kbz|e]; simpl; [|left; eexists; reflexivity].
  destruct (py_int ver) as [verz|e]; simpl; [|left; eexists; reflexivity].
  destruct (py_int file) as [filez|e]; simpl; [|left; eexists; reflexivity].
  destruct (server_error db) as [e|]; simpl; [left; eexists; reflexivity|].
  match goal with
  | |- context [execute_insert ?r tbl] => destruct (execute_insert r tbl) as [tbl'|e] eqn:Hexec
  end; simpl; [|left; eexists; reflexivity].
  destruct (commit db) as [[]|e]; simpl; [|left; eexists; reflexivity].
  right. exists kbz, verz, filez, tbl'. auto.
Qed.

(** A call, and so any sequence of calls, keeps one row per key. *)
Lemma store_one_row (self : TrainingService.t) (tbl : table) (c : store_call) :
  one_row_per_key tbl -> one_row_per_key (snd (store self tbl c)).
Proof.
  intros Hinv. unfold store.
  destruct (store_embedding_cases self (call_db c) tbl (call_knowledge_base_id c)
              (call_version_id c) (call_file_id c) (call_chunk_index c)
              (call_chunk_text c) (call_embedding c) (call_metadata c))
    as [[e ->] | (kbz & verz & filez & tbl' & _ & _ & _ & Hexec & ->)]; simpl.
  - exact Hinv.
  - exact (execute_insert_one_row _ _ _ Hexec Hinv).
Qed.

Lemma store_all_one_row (self : TrainingService.t) (calls : list store_call) :
  forall tbl, one_row_per_key tbl -> one_row_per_key (store_all self calls tbl).
Proof.
  induction calls as [|c calls IH]; intros tbl Hinv; simpl; [exact Hinv|].
  apply IH. now apply store_one_row.
Qed.

(** C4.  After any sequence of [store_embedding] calls on an empty table,
    failed ones included, the table holds at most one row per (version id,
    file id, chunk index).  A statement whose key is in the table succeeds;
    and a successful call for such a key leaves the number of rows as it
    was and rewrites the row of that key where it stands: chunk text,
    embedding, metadata and update stamp are those of the call, id and
    creation stamp are kept, and every other row is untouched. *)
Theorem C4_upsert_in_place (self : TrainingService.t) :
  (forall calls, one_row_per_key (store_all self calls []))
  /\ (forall new tbl, (0 < count_key (natural_key new) tbl)%nat ->
        exists tbl', execute_insert new tbl = Ok tbl')
  /\ (forall calls c ver file tbl',
        let tbl := store_all self calls [] in
        let k := (ver, file, call_chunk_index c) in
        py_int (call_version_id c) = Ok ver ->
        py_int (call_file_id c) = Ok file ->
        (0 < count_key k tbl)%nat ->
        store self tbl c = (Ok tt, tbl') ->
        List.length tbl' = List.length tbl
        /\ count_key k tbl' = 1%nat
        /\ exists pre old post,
             tbl = pre ++ old :: post
             /\ natural_key old = k
             /\ tbl' = pre ++
                  {| col_id := col_id old;
                     col_knowledge_base_id := col_knowledge_base_id old;
                     col_knowledge_base_version_id := col_knowledge_base_version_id old;
                     col_knowledge_base_file_id := col_knowledge_base_file_id old;
                     col_chunk_index := col_chunk_index old;
                     col_chunk_text := call_chunk_text c;
                     col_embedding := call_embedding c;
                     col_metadata := call_metadata c;
                     col_created_at := col_created_at old;
                     col_updated_at := NOW (call_db c) |} :: post).
Proof.
  assert (Hempty : one_row_per_key [])
    by (intros k; change (count_key k []) with O; lia).
  split; [|split].
  - intros calls. now apply store_all_one_row.
  - intros new tbl Hpos. unfold execute_insert.
    destruct (on_conflict_do_update new tbl) as [t|] eqn:Hup; [eauto|].
    apply on_conflict_none in Hup. lia.
  - intros calls c ver file tbl' tbl k Hver Hfile Hpos Hstore.
    assert (Hinv : one_row_per_key tbl) by now apply store_all_one_row.
    unfold store in Hstore.
    destruct (store_embedding_cases self (call_db c) tbl (call_knowledge_base_id c)
                (call_version_id c) (call_file_id c) (call_chunk_index c)
                (call_chunk_text c) (call_embedding c) (call_metadata c))
      as [[e He] | (kbz & verz & filez & t & _ & Hv & Hf & Hexec & Hok)];
      [congruence|].
    assert (t = tbl') by congruence. subst t.
    assert (verz = ver) by congruence. assert (filez = file) by congruence.
    subst verz filez.
    pose proof (execute_insert_one_row _ _ _ Hexec Hinv) as Hinv'.
    unfold execute_insert in Hexec.
    match type of Hexec with
    | context [on_conflict_do_update ?r tbl] =>
        destruct (on_conflict_do_update r tbl) as [t|] eqn:Hup
    end.
    + injection Hexec as ->.
      apply on_conflict_split in Hup as (pre & old & post & Htbl & Hkey & Htbl').
      change (natural_key old = k) in Hkey.
      split; [|split].
      * rewrite Htbl, Htbl', !length_app. reflexivity.
      * specialize (Hinv' k). rewrite Htbl' in *.
        rewrite count_key_app, count_key_cons, natural_key_overwritten, Hkey,
          key_eqb_refl in *.
        lia.
      * exists pre, old, post. auto.
    + apply on_conflict_none in Hup. change (count_key k tbl = O) in Hup. lia.
Qed.

Lemma C4_upsert_in_place_witness :
  store default (store_all default [first_store] []) second_store
  = (Ok tt,
     [ {| col_id := 1001; col_knowledge_base_id := 1;
          col_knowledge_base_version_id := 3; col_knowledge_base_file_id := 7;
          col_chunk_index := 0; col_chunk_text := u "new text";
          col_embedding := JArr [JInt 2]; col_metadata := chunk_md 0 1000;
          col_created_at := 10; col_updated_at := 20 |} ])
  /\ count_key (3, 7, 0)
       (snd (store default (store_all default [first_store] []) second_store)) = 1%nat.
Proof.
  split; [reflexivity|].
  apply (proj2 (proj2 (C4_upsert_in_place default)) [first_store] second_store 3 7);
    [reflexivity | reflexivity | vm_compute; lia | reflexivity].
Defined.

(** *** The progress stream: failures stay inside their file *)

(** Counting events. *)
Lemma count_app (p : event -> bool) (a b : list event) :
  count p (a ++ b) = (count p a + count p b)%nat.
Proof. unfold count. now rewrite filter_app, length_app. Qed.

Lemma count_cons (p : event -> bool) (e : event) (evs : list event) :
  count p (e :: evs) = ((if p e then 1 else 0) + count p evs)%nat.
Proof. unfold count. cbn [filter]. destruct (p e); reflexivity. Qed.

Lemma count_nil (p : event -> bool) : count p [] = O.
Proof. reflexivity. Qed.

Lemma count_none (p q : event -> bool) (evs : list event) :
  (forall e, q e = true -> p e = false) ->
  Forall (fun e => q e = true) evs -> count p evs = O.
Proof.
  intros Hpq Hall. induction Hall as [|e evs He _ IH]; [reflexivity|].
  rewrite count_cons, (Hpq e He), IH. reflexivity.
Qed.

Lemma chunk_event_of_file (i : Z) (e : event) :
  is_chunk_event i e = true -> of_file i e = true.
Proof. destruct e as [cf ? ? ? ? [] ? ?| | |]; simpl; congruence. Qed.

Lemma of_file_from_file (i lo : Z) (e : event) :
  lo <= i -> of_file i e = true -> from_file lo e = true.
Proof.
  intros Hle. destruct e; simpl; try congruence;
    intros H; apply Z.eqb_eq in H; apply Z.leb_le; lia.
Qed.

Lemma from_file_weaken (lo lo' : Z) (e : event) :
  lo <= lo' -> from_file lo' e = true -> from_file lo e = true.
Proof.
  intros Hle. destruct e; simpl; try congruence;
    intros H; apply Z.leb_le in H; apply Z.leb_le; lia.
Qed.

(** What tells the counted events of a file from the events of the other
    files. *)
Lemma per_file_other (p : Z -> event -> bool) (i k : Z) (e : event) :
  per_file p -> k <> i -> of_file i e = true -> p k e = false.
Proof.
  intros [] Hne; destruct e as [cf ? ? ? ? [] ? ?| | |]; simpl; try congruence;
    intros H; apply Z.eqb_eq in H; apply Z.eqb_neq; lia.
Qed.

Lemma per_file_later (p : Z -> event -> bool) (lo k : Z) (e : event) :
  per_file p -> k < lo -> from_file lo e = true -> p k e = false.
Proof.
  intros [] Hlt; destruct e as [cf ? ? ? ? [] ? ?| | |]; simpl; try congruence;
    intros H; apply Z.leb_le in H; apply Z.eqb_neq; lia.
Qed.

Lemma per_file_chunk (p : Z -> event -> bool) (i k : Z) (e : event) :
  per_file p -> is_chunk_event i e = true -> p k e = false.
Proof.
  intros []; destruct e as [cf ? ? ? ? [] ? ?| | |]; simpl; congruence.
Qed.

Lemma from_file_not_terminal (lo : Z) (e : event) :
  from_file lo e = true -> is_terminal e = false.
Proof. destruct e; simpl; congruence. Qed.

(** The chunk loop emits only [embedding] and [storing] events of its
    file, and ends as the stages of the chunks end. *)
Lemma chunks_loop_spec (self : TrainingService.t) (W : world) (req : TrainingRequest)
    (info : file_info) (file_idx total_files total_chunks : Z)
    (before : list file_detail) :
  forall (chunks : list chunk) (chunk_idx : Z) (detail : file_detail) (tbl : table)
         (evs : list event) (r : result unit) (d : file_detail) (t : table),
    chunks_loop self W req info file_idx total_files total_chunks before
                chunk_idx chunks detail tbl = (evs, r, d, t) ->
    Forall (fun e => is_chunk_event file_idx e = true) evs
    /\ store_chunks self W req info file_idx chunk_idx chunks tbl = (r, t)
    /\ fd_file_id d = fd_file_id detail.
Proof.
  induction chunks as [|chunk rest IH]; intros chunk_idx detail tbl evs r d t;
    cbn [chunks_loop store_chunks].
  - intros [= <- <- <- <-]. auto.
  - destruct (generate_embedding self (embeddings_reply W file_idx chunk_idx)
                                 (text chunk)) as [emb|e].
    + destruct (store_embedding self (db W file_idx chunk_idx) tbl
                  (knowledge_base_id req) (version_id req) (id info)
                  (chunk_idx - 1) (text chunk) emb (metadata chunk))
        as [[[]|e] tbl1].
      * destruct (chunks_loop self W req info file_idx total_files total_chunks
                    before (chunk_idx + 1) rest
                    (set_status storing
                       (set_progress chunk_idx (pct_file chunk_idx total_chunks)
                                     embedding detail)) tbl1)
          as [[[evs' r'] d'] t'] eqn:Hrest.
        intros [= <- <- <- <-].
        destruct (IH _ _ _ _ _ _ _ Hrest) as (Hevs & Hstages & Hid).
        split; [|split; [exact Hstages | exact Hid]].
        repeat constructor; [simpl; apply Z.eqb_refl .. | exact Hevs].
      * intros [= <- <- <- <-].
        split; [|split; reflexivity].
        repeat constructor. simpl. apply Z.eqb_refl.
    + intros [= <- <- <- <-].
      split; [|split; reflexivity].
      repeat constructor. simpl. apply Z.eqb_refl.
Qed.

(** With a positive stride [process_file] returns or raises. *)
Lemma process_file_returns (self : TrainingService.t) (E : env)
    (file_path file_id mime_type : str) :
  0 < stride self -> process_file self E file_path file_id mime_type <> None.
Proof.
  intros Hs. unfold process_file.
  destruct (extract_text E file_path mime_type) as [txt|e]; [|discriminate].
  rewrite chunk_text_windows by exact Hs. discriminate.
Qed.

(** The events of the chunk loop are none of the counted kinds. *)
Lemma count_chunk_events (p : Z -> event -> bool) (i k : Z) (evs : list event) :
  per_file p ->
  Forall (fun e => is_chunk_event i e = true) evs -> count (p k) evs = O.
Proof.
  intros Hp. apply count_none. intros e. now apply per_file_chunk.
Qed.

(** One iteration of the loop over the files: it comes to its end, all its
    events are events of its file, and they account for the outcome of the
    stages of the file. *)
Lemma file_body_spec (self : TrainingService.t) (W : world) (req : TrainingRequest)
    (total_files file_idx : Z) (info : file_info) (fds : list file_detail)
    (tbl : table) (evs : list event) (en : run_end) (d : file_detail) (t : table) :
  0 < stride self ->
  file_body self W req total_files file_idx info fds tbl = (evs, en, d, t) ->
  en = returned
  /\ Forall (fun e => of_file file_idx e = true) evs
  /\ fd_file_id d = id info
  /\ exists o,
       ingest_file self W req file_idx info tbl = Some (o, t)
       /\ fd_status d = status_of o
       /\ count (is_start_for file_idx) evs = 1%nat
       /\ count (is_error_for file_idx) evs = (if is_ok o then 0 else 1)%nat
       /\ count (is_completed_for file_idx) evs = (if is_ok o then 1 else 0)%nat.
Proof.
  intros Hs. unfold file_body, ingest_file.
  pose proof (process_file_returns self (service_env W) (path info) (id info)
                (TrainingRoutes.mime_type info) Hs) as Hret.
  destruct (process_file self (service_env W) (path info) (id info)
              (TrainingRoutes.mime_type info)) as [[chunks|e]|]; [| |congruence].
  - match goal with
    | |- context [chunks_loop ?a ?b ?c ?d ?e ?f ?g ?h ?i ?j ?k ?l] =>
        destruct (chunks_loop a b c d e f g h i j k l) as [[[evs_c r] d2] t1] eqn:Hc
    end.
    apply chunks_loop_spec in Hc as (Hevs & Hst & Hid).
    assert (Hof : Forall (fun e => of_file file_idx e = true) evs_c)
      by (eapply Forall_impl; [|exact Hevs]; intros e; apply chunk_event_of_file).
    destruct r as [[]|e]; intros [= <- <- <- <-];
      (split; [reflexivity|]);
      (split; [constructor; [simpl; apply Z.eqb_refl|];
               apply Forall_app; split; [exact Hof|];
               repeat constructor; simpl; apply Z.eqb_refl|]);
      (split; [exact Hid|]);
      eexists; (split; [rewrite Hst; reflexivity|]);
      (split; [reflexivity|]);
      rewrite !count_cons, !count_app, !count_cons, !count_nil,
        (count_chunk_events is_start_for file_idx file_idx evs_c per_file_start Hevs),
        (count_chunk_events is_error_for file_idx file_idx evs_c per_file_error Hevs),
        (count_chunk_events is_completed_for file_idx file_idx evs_c
           per_file_completed Hevs);
      simpl; rewrite ?Z.eqb_refl; auto.
  - intros [= <- <- <- <-].
    split; [reflexivity|].
    split; [repeat constructor; simpl; apply Z.eqb_refl|].
    split; [reflexivity|].
    eexists; split; [reflexivity|]. split; [reflexivity|].
    rewrite !count_cons, !count_nil. simpl. rewrite ?Z.eqb_refl. auto.
Qed.

(** Events of other files do not change what is owed to a file. *)
Lemma accounts_for_app_l (k : Z) (o : result unit) (a b : list event) :
  accounts_for k o a ->
  (forall p, per_file p -> count (p k) b = O) ->
  accounts_for k o (a ++ b).
Proof.
  intros (H1 & H2 & H3) Hb. unfold accounts_for.
  rewrite !count_app, H1, H2, H3.
  rewrite (Hb _ per_file_start), (Hb _ per_file_error), (Hb _ per_file_completed).
  repeat split; lia.
Qed.

Lemma accounts_for_app_r (k : Z) (o : result unit) (a b : list event) :
  accounts_for k o b ->
  (forall p, per_file p -> count (p k) a = O) ->
  accounts_for k o (a ++ b).
Proof.
  intros (H1 & H2 & H3) Ha. unfold accounts_for.
  rewrite !count_app, H1, H2, H3.
  rewrite (Ha _ per_file_start), (Ha _ per_file_error), (Ha _ per_file_completed).
  repeat split; lia.
Qed.

(** The loop over the files makes one iteration per file, whatever the
    outcomes, and its events account for each of them. *)
Lemma files_loop_spec (self : TrainingService.t) (W : world) (req : TrainingRequest)
    (total_files : Z) :
  0 < stride self ->
  forall (todo : list file_info) (file_idx : Z) (fds : list file_detail) (tbl : table)
         (evs : list event) (en : run_end) (ds : list file_detail) (t : table),
    files_loop self W req total_files file_idx todo fds tbl = (evs, en, ds, t) ->
    en = returned
    /\ Forall (fun e => from_file file_idx e = true) evs
    /\ List.length (ingest_all self W req file_idx todo tbl) = List.length todo
    /\ exists added,
         ds = fds ++ added
         /\ List.map fd_file_id added = List.map id todo
         /\ List.map fd_status added
            = List.map status_of (ingest_all self W req file_idx todo tbl)
         /\ forall (i : nat) (o : result unit),
              nth_error (ingest_all self W req file_idx todo tbl) i = Some o ->
              accounts_for (file_idx + Z.of_nat i) o evs.
Proof.
  intros Hs. induction todo as [|info rest IH];
    intros file_idx fds tbl evs en ds t; cbn [files_loop ingest_all].
  - intros [= <- <- <- <-].
    split; [reflexivity|]. split; [constructor|]. split; [reflexivity|].
    exists []. rewrite app_nil_r.
    split; [reflexivity|]. split; [reflexivity|]. split; [reflexivity|].
    intros [|i] o; discriminate.
  - destruct (file_body self W req total_files file_idx info fds tbl)
      as [[[evs_b en_b] d_b] t_b] eqn:Hb.
    apply file_body_spec in Hb as (-> & Hof & Hid & o1 & Hing & Hst & Hacc); [|exact Hs].
    rewrite Hing.
    destruct (files_loop self W req total_files (file_idx + 1) rest (fds ++ [d_b]) t_b)
      as [[[evs' en'] ds'] t'] eqn:Hr.
    intros [= <- <- <- <-].
    apply IH in Hr as (-> & Hfrom & Hlen & added & -> & Hids & Hsts & Hcnt).
    split; [reflexivity|]. split; [|split].
    + apply Forall_app. split.
      * eapply Forall_impl; [|exact Hof]. intros e. apply of_file_from_file. lia.
      * eapply Forall_impl; [|exact Hfrom]. intros e. apply from_file_weaken. lia.
    + simpl. now rewrite Hlen.
    + exists (d_b :: added). rewrite <- app_assoc. split; [reflexivity|].
      split; [simpl; now rewrite Hid, Hids|].
      split; [simpl; now rewrite Hst, Hsts|].
      intros [|i] o' Hnth.
      * injection Hnth as <-. rewrite Z.add_0_r.
        apply accounts_for_app_l; [exact Hacc|].
        intros p Hp. eapply count_none; [|exact Hfrom].
        intros e. apply per_file_later; [exact Hp | lia].
      * replace (file_idx + Z.of_nat (S i)) with (file_idx + 1 + Z.of_nat i) by lia.
        apply accounts_for_app_r; [now apply Hcnt|].
        intros p Hp. eapply count_none; [|exact Hof].
        intros e. apply per_file_other; [exact Hp | lia].
Qed.

(** C1.  Take any job, any surroundings and a configuration whose overlap
    is below its window.  The generator returns, and its last event is the
    one [complete] event of the stream.  Every file of the request is
    processed, whatever happened to the files before it: it gets exactly
    one [processing] event.  A file one of whose stages (extraction,
    embedding, storage) raises is marked [failed] and gets exactly one
    [error] event and no [completed] event; every other file is marked
    [completed] and gets exactly one [completed] event and no [error]
    event. *)
Theorem C1_failure_isolation (self : TrainingService.t) (W : world)
    (request : TrainingRequest) (tbl : table) :
  chunk_overlap self < chunk_size self ->
  let r := generate_progress self W request tbl in
  let F := Z.of_nat (List.length (files request)) in
  let outcomes := ingest_all self W request 1 (files request) tbl in
  ending r = returned
  /\ (exists evs, events r = evs ++ [complete F F 100] /\ count is_terminal evs = O)
  /\ List.length outcomes = List.length (files request)
  /\ List.map fd_file_id (details r) = List.map id (files request)
  /\ List.map fd_status (details r) = List.map status_of outcomes
  /\ forall (i : nat) (o : result unit),
       nth_error outcomes i = Some o ->
       let k := Z.of_nat (S i) in
       count (is_start_for k) (events r) = 1%nat
       /\ count (is_error_for k) (events r) = (if is_ok o then 0 else 1)%nat
       /\ count (is_completed_for k) (events r) = (if is_ok o then 1 else 0)%nat.
Proof.
  intros HWV r F outcomes.
  assert (Hs : 0 < stride self) by (unfold stride; lia).
  unfold r, generate_progress. fold F.
  destruct (files_loop self W request F 1 (files request) [] tbl)
    as [[[evs en] ds] t] eqn:Hloop.
  apply files_loop_spec in Hloop
    as (-> & Hfrom & Hlen & added & -> & Hids & Hsts & Hcnt); [|exact Hs].
  cbn [events ending details]. fold outcomes in Hlen, Hsts, Hcnt.
  split; [reflexivity|]. split; [|split; [exact Hlen|split; [exact Hids|split; [exact Hsts|]]]].
  - exists evs. split; [reflexivity|].
    eapply count_none; [|exact Hfrom]. intros e. apply from_file_not_terminal.
  - intros i o Hnth.
    destruct (Hcnt i o Hnth) as (H1 & H2 & H3).
    replace (1 + Z.of_nat i) with (Z.of_nat (S i)) in H1, H2, H3 by lia.
    rewrite !count_app, H1, H2, H3. cbn. repeat split; lia.
Qed.

Lemma C1_failure_isolation_witness :
  chunk_overlap default < chunk_size default
  /\ List.map fd_status (details (generate_progress default world_missing job_missing []))
     = [completed; failed; completed]
  /\ count (is_error_for 2)
       (events (generate_progress default world_missing job_missing [])) = 1%nat
  /\ count (is_completed_for 3)
       (events (generate_progress default world_missing job_missing [])) = 1%nat.
Proof.
  assert (Hcfg : chunk_overlap default < chunk_size default) by (simpl; lia).
  destruct (C1_failure_isolation default world_missing job_missing [] Hcfg)
    as (_ & _ & _ & _ & Hstatus & Hcount).
  split; [exact Hcfg|]. split; [exact Hstatus|]. split.
  - apply (Hcount 1%nat
             (Raise (Exn FileNotFoundError (u "File not found: /data/missing.txt")))).
    reflexivity.
  - apply (Hcount 2%nat (Ok tt)). reflexivity.
Defined.

(** In exact arithmetic the percentages of section 4.5 never go down: within
    a file they grow with the chunk index, they stay between the value at
    the start of the file and the value at its completion, and the next
    file starts where the file before it was completed. *)
Lemma spec_percentages_nondecreasing (i F j j' C : Z) :
  1 <= i <= F -> 1 <= j <= j' -> j' <= C ->
  spec_pct_processing i F <= spec_pct_chunk i F j C
  /\ spec_pct_chunk i F j C <= spec_pct_chunk i F j' C
  /\ spec_pct_chunk i F j' C <= spec_pct_completed i F
  /\ spec_pct_completed i F = spec_pct_processing (i + 1) F
  /\ spec_pct_completed F F = 100.
Proof.
  intros Hi Hj Hj'. unfold spec_pct_processing, spec_pct_chunk, spec_pct_completed.
  assert (HC : 0 < C) by lia. assert (HF : 0 < F) by lia.
  repeat split.
  - rewrite <- (Z.div_mul_cancel_l ((i - 1) * 100) F C) by lia.
    apply Z.div_le_mono; nia.
  - apply Z.div_le_mono; nia.
  - rewrite <- (Z.div_mul_cancel_l (i * 100) F C) by lia.
    apply Z.div_le_mono; nia.
  - f_equal. lia.
  - replace (F * 100) with (100 * F) by lia. apply Z.div_mul. lia.
Qed.

(** C3 does not hold of the code.  In a job of fifty one-chunk files in
    which every stage succeeds, the [storing] event of file 29 carries 58
    (the float sum 28/50 + 1/1/50 is just above 0.58) and the [completed]
    event that follows carries 57 (the float product 29/50 * 100 is just
    below 58): the percentages of the stream are not non-decreasing.  In
    exact arithmetic both events would carry 58. *)
Theorem C3_percentage_decreases :
  let r := generate_progress default quiet_world (job 50) [] in
  ending r = returned
  /\ List.map fd_status (details r) = repeat completed 50
  /\ firstn 4 (skipn 112 (trace (events r)))
     = [(29, processing, 56); (29, embedding, 58); (29, storing, 58);
        (29, completed, 57)]
  /\ nondecreasing (percentages (events r)) = false
  /\ spec_pct_chunk 29 50 1 1 = 58
  /\ spec_pct_completed 29 50 = 58.
Proof. vm_compute. repeat split. Qed.

(* ================================================================== *)
(** ** Further properties                                              *)
(* ================================================================== *)

Import Shape.

(** *** More on strings *)

Lemma lstrip_keeps (x : char) (s : str) :
  In x s -> isspace x = false -> In x (lstrip s).
Proof.
  intros Hin Hx. induction s as [|c s IH]; [contradiction|].
  simpl. destruct (isspace c) eqn:Hc.
  - destruct Hin as [->|Hin]; [congruence | now apply IH].
  - exact Hin.
Qed.

(** [strip] keeps every character that is not white space. *)
Lemma strip_keeps (x : char) (s : str) :
  In x s -> isspace x = false -> In x (strip s).
Proof.
  intros Hin Hx. unfold strip, rstrip.
  apply in_rev. rewrite rev_involutive.
  apply lstrip_keeps; [|exact Hx].
  apply -> in_rev. now apply lstrip_keeps.
Qed.

Lemma lstrip_blank (s : str) : forallb isspace s = true -> lstrip s = [].
Proof.
  induction s as [|c s IH]; [reflexivity|]. simpl.
  intros H. apply andb_true_iff in H as [-> H]. now apply IH.
Qed.

(** A string of white space strips to the empty string. *)
Lemma strip_blank (s : str) : forallb isspace s = true -> strip s = [].
Proof. intros H. unfold strip. now rewrite lstrip_blank. Qed.

Lemma lstrip_suffix (s : str) : exists pre, s = pre ++ lstrip s /\ forallb isspace pre = true.
Proof.
  induction s as [|c s (pre & IH & Hpre)]; [exists []; auto|].
  simpl. destruct (isspace c) eqn:Hc.
  - exists (c :: pre). simpl. rewrite Hc, Hpre. split; [now f_equal | reflexivity].
  - exists []. auto.
Qed.

Lemma strip_nonblank (s : str) :
  strip s <> [] -> exists x, In x s /\ isspace x = false.
Proof.
  intros Hne. destruct (forallb isspace s) eqn:Hall.
  - now rewrite strip_blank in Hne.
  - assert (Hex : existsb (fun c => negb (isspace c)) s = true).
    { clear Hne. induction s as [|c s IH]; [discriminate|]. simpl in *.
      destruct (isspace c); simpl in *; [now apply IH | reflexivity]. }
    apply existsb_exists in Hex as (x & Hin & Hx). exists x.
    split; [exact Hin|]. now destruct (isspace x).
Qed.

(** *** Slices *)

Lemma clamp_index_nonneg (len i : Z) :
  0 <= len -> 0 <= i -> clamp_index len i = Z.min i len.
Proof.
  intros Hlen Hi. unfold clamp_index.
  destruct (i <? 0) eqn:H1; [apply Z.ltb_lt in H1; lia|]. rewrite H1.
  destruct (len <? i) eqn:H2; [apply Z.ltb_lt in H2 | apply Z.ltb_ge in H2]; lia.
Qed.

(** With bounds that are not negative a slice is at most as long as their
    distance. *)
Lemma slice_length {A : Type} (s : list A) (lo hi : Z) :
  0 <= lo -> 0 <= hi ->
  Z.of_nat (List.length (slice s lo hi)) <= Z.max 0 (hi - lo).
Proof.
  intros Hlo Hhi. unfold slice.
  rewrite !clamp_index_nonneg by lia.
  rewrite length_firstn, length_skipn. lia.
Qed.

(** Inside its bounds a slice holds the characters of the string. *)
Lemma slice_nth {A : Type} (s : list A) (lo hi : Z) (p : nat) :
  0 <= lo <= Z.of_nat p -> Z.of_nat p < hi -> (p < List.length s)%nat ->
  nth_error (slice s lo hi) (p - Z.to_nat lo) = nth_error s p.
Proof.
  intros Hlo Hhi Hp. unfold slice.
  rewrite !clamp_index_nonneg by lia.
  rewrite nth_error_firstn.
  destruct (Nat.ltb_spec (p - Z.to_nat lo)
              (Z.to_nat (Z.min hi (Z.of_nat (List.length s))
                         - Z.min lo (Z.of_nat (List.length s))))); [|lia].
  rewrite nth_error_skipn. f_equal. lia.
Qed.

(** *** The chunker: what the chunks hold *)

Lemma window_starts_spec (self : TrainingService.t) (L start : Z) :
  0 < stride self -> 0 <= L ->
  In start (window_starts self L) <->
  exists k, start = k * stride self /\ 0 <= k /\ k * stride self < L.
Proof.
  intros Hs HL. unfold window_starts, window_count, ceil_div.
  rewrite in_map_iff. split.
  - intros (k & <- & Hk). apply in_seq in Hk. exists (Z.of_nat k).
    split; [reflexivity|]. split; [lia|].
    assert (Z.of_nat k < (L + stride self - 1) / stride self) by lia.
    assert (Z.of_nat k + 1 <= (L + stride self - 1) / stride self) by lia.
    pose proof (Z.mul_div_le (L + stride self - 1) (stride self) Hs). nia.
  - intros (k & -> & Hk0 & Hk). exists (Z.to_nat k). split; [f_equal; lia|].
    apply in_seq. split; [lia|]. simpl.
    assert (k + 1 <= (L + stride self - 1) / stride self); [|lia].
    apply Z.div_le_lower_bound; lia.
Qed.

(** Every character of the text lies in a window, provided the overlap is
    not negative. *)
Lemma window_covers (self : TrainingService.t) (L : Z) (p : Z) :
  0 <= chunk_overlap self < chunk_size self -> 0 <= p < L ->
  exists start, In start (window_starts self L)
                /\ start <= p < start + chunk_size self /\ 0 <= start.
Proof.
  intros HWV Hp. assert (Hs : 0 < stride self) by (unfold stride; lia).
  exists (p / stride self * stride self).
  pose proof (Z.mul_div_le p (stride self) Hs) as H1.
  pose proof (Z.mul_succ_div_gt p (stride self) Hs) as H2.
  assert (0 <= p / stride self) by (apply Z.div_pos; lia).
  split; [|unfold stride in *; nia].
  apply window_starts_spec; [exact Hs | lia |].
  exists (p / stride self). split; [reflexivity|]. split; [assumption|]. nia.
Qed.

(** X1.  With an overlap that is not negative and below the window, no
    content is lost between the chunks: every character of the text that
    is not white space lies in a returned chunk, at the offset its
    recorded start gives. *)
Theorem chunks_cover_text (self : TrainingService.t) (txt : str) (md : file_metadata)
    (p : nat) (x : char) :
  0 <= chunk_overlap self < chunk_size self ->
  nth_error txt p = Some x -> isspace x = false ->
  exists chunks c,
    _chunk_text self txt md = Some chunks /\ In c chunks
    /\ chunk_start (metadata c) <= Z.of_nat p < chunk_end (metadata c)
    /\ nth_error (text c) (p - Z.to_nat (chunk_start (metadata c))) = Some x.
Proof.
  intros HWV Hnth Hx. assert (Hs : 0 < stride self) by (unfold stride; lia).
  assert (Hp : (p < List.length txt)%nat) by (apply nth_error_Some; congruence).
  destruct (window_covers self (Z.of_nat (List.length txt)) (Z.of_nat p) HWV
              ltac:(lia)) as (start & Hin & Hrange & Hstart).
  exists (filter nonblank
            (List.map (window self txt md)
                      (window_starts self (Z.of_nat (List.length txt))))),
         (window self txt md start).
  split; [now apply chunk_text_windows|].
  assert (Hchar : nth_error (text (window self txt md start)) (p - Z.to_nat start)
                  = Some x).
  { cbn [window text]. rewrite slice_nth by lia. exact Hnth. }
  split; [|split; [exact Hrange | exact Hchar]].
  apply filter_In. split; [now apply in_map|].
  unfold nonblank.
  destruct (strip (text (window self txt md start))) eqn:Hstrip; [|reflexivity].
  apply nth_error_In in Hchar.
  pose proof (strip_keeps x _ Hchar Hx) as Hk. rewrite Hstrip in Hk. contradiction.
Qed.

Lemma chunks_cover_text_witness :
  exists chunks c,
    _chunk_text (with_window 4 2) (u "abcdefghij") no_file = Some chunks
    /\ In c chunks
    /\ chunk_start (metadata c) <= Z.of_nat 9 < chunk_end (metadata c)
    /\ nth_error (text c) (9 - Z.to_nat (chunk_start (metadata c))) = Some 106%N.
Proof.
  apply (chunks_cover_text (with_window 4 2) (u "abcdefghij") no_file 9 106%N);
    [simpl; lia | reflexivity | reflexivity].
Defined.

Lemma sorted_map_seq {A : Type} (R : A -> A -> Prop) (f : nat -> A) :
  (forall i j, (i < j)%nat -> R (f i) (f j)) ->
  forall n a, StronglySorted R (List.map f (seq a n)).
Proof.
  intros Hf. induction n as [|n IH]; intros a; simpl; constructor; [apply IH|].
  apply Forall_forall. intros y Hy. apply in_map_iff in Hy as (j & <- & Hj).
  apply in_seq in Hj. apply Hf. lia.
Qed.

Lemma sorted_filter {A : Type} (R : A -> A -> Prop) (f : A -> bool) (l : list A) :
  StronglySorted R l -> StronglySorted R (filter f l).
Proof.
  induction 1 as [|a l Hl IH Ha]; simpl; [constructor|].
  destruct (f a); [|exact IH]. constructor; [exact IH|].
  apply Forall_forall. intros y Hy. apply filter_In in Hy as [Hy _].
  revert y Hy. now apply Forall_forall.
Qed.

Lemma filter_map_window {A B : Type} (f : B -> bool) (g : A -> B) (l : list A) :
  filter f (List.map g l) = List.map g (filter (fun a => f (g a)) l).
Proof.
  induction l as [|a l IH]; [reflexivity|]. simpl.
  destruct (f (g a)); simpl; now rewrite IH.
Qed.

(** X2.  With an overlap that is not negative and below the window, the
    chunks come in strictly increasing order of their start; each start is
    a multiple of window minus overlap and lies inside the text; no chunk
    is blank, none is longer than the window, and each carries the
    metadata of the file unchanged. *)
Theorem chunks_shape (self : TrainingService.t) (txt : str) (md : file_metadata)
    (chunks : list chunk) :
  0 <= chunk_overlap self < chunk_size self ->
  _chunk_text self txt md = Some chunks ->
  StronglySorted Z.lt (List.map (fun c => chunk_start (metadata c)) chunks)
  /\ Forall (fun c =>
               strip (text c) <> []
               /\ 1 <= Z.of_nat (List.length (text c)) <= chunk_size self
               /\ base (metadata c) = md
               /\ 0 <= chunk_start (metadata c) < Z.of_nat (List.length txt)
               /\ (chunk_start (metadata c)) mod (chunk_size self - chunk_overlap self) = 0)
            chunks.
Proof.
  intros HWV Hrun. assert (Hs : 0 < stride self) by (unfold stride; lia).
  rewrite chunk_text_windows in Hrun by exact Hs. injection Hrun as <-.
  split.
  - rewrite filter_map_window, map_map. cbn [window metadata chunk_start].
    rewrite map_id. apply sorted_filter. unfold window_starts.
    apply sorted_map_seq. intros i j Hij. nia.
  - apply Forall_forall. intros c Hc. apply filter_In in Hc as [Hc Hnb].
    apply in_map_iff in Hc as (start & <- & Hstart).
    apply window_starts_spec in Hstart as (k & -> & Hk0 & Hk); [|exact Hs|lia].
    unfold nonblank in Hnb. cbn [window text metadata chunk_start base] in *.
    assert (Hne : strip (slice txt (k * stride self) (k * stride self + chunk_size self))
                  <> []) by (destruct (strip _); [discriminate | discriminate]).
    split; [exact Hne|]. split; [|split; [reflexivity|split; [nia|]]].
    + pose proof (slice_length txt (k * stride self) (k * stride self + chunk_size self)
                    ltac:(nia) ltac:(nia)) as Hlen.
      destruct (slice txt (k * stride self) (k * stride self + chunk_size self)) eqn:Hsl.
      * exfalso. apply Hne. reflexivity.
      * simpl List.length in *. lia.
    + fold (stride self). apply Z.mod_mul. lia.
Qed.

Lemma chunks_shape_witness :
  StronglySorted Z.lt
    (List.map (fun c => chunk_start (metadata c))
              (List.map (window (with_window 4 2) (u "abcdefghij") no_file)
                        [0; 2; 4; 6; 8])).
Proof.
  apply (proj1 (chunks_shape (with_window 4 2) (u "abcdefghij") no_file
                  (List.map (window (with_window 4 2) (u "abcdefghij") no_file)
                            [0; 2; 4; 6; 8])
                  ltac:(simpl; lia) eq_refl)).
Defined.

(** *** [process_file] *)

Lemma run_extractor_ok (E : env) (x : extractor) (path txt : str) :
  run_extractor E x path = Ok txt ->
  capability E x = true /\ reader E x path = Ok txt.
Proof.
  destruct x; simpl;
    try (destruct (HAS_PDF E)); try (destruct (HAS_DOCX E));
    try (destruct (HAS_PANDAS E)); simpl; try discriminate; auto;
    destruct (reader E _ path); try discriminate; auto.
Qed.

(** X3.  A file whose extracted text is empty or all white space makes
    [process_file] raise [ValueError] with the message [No text content
    extracted from] and the path; the chunker is not entered, whatever the
    window and the overlap are. *)
Theorem process_file_blank (self : TrainingService.t) (E : env)
    (file_path file_id mime_type txt : str) :
  path_exists E file_path = true ->
  run_extractor E (select_extractor (lower (suffix file_path)) mime_type) file_path
  = Ok txt ->
  forallb isspace txt = true ->
  process_file self E file_path file_id mime_type
  = Some (Raise (Exn ValueError (u "No text content extracted from " ++ file_path))).
Proof.
  intros Hex Hrun Hblank. unfold process_file, extract_text.
  rewrite Hex, Hrun. simpl. now rewrite (strip_blank txt Hblank).
Qed.

Lemma process_file_blank_witness :
  process_file (__init__ [] [] 5 5) blank_env (u "/data/notes.txt") (u "1")
               (u "text/plain")
  = Some (Raise (Exn ValueError
                   (u "No text content extracted from " ++ u "/data/notes.txt"))).
Proof.
  apply (process_file_blank (__init__ [] [] 5 5) blank_env (u "/data/notes.txt")
           (u "1") (u "text/plain") (u "   ")); reflexivity.
Defined.

(** X4.  When [process_file] returns chunks (overlap not negative and
    below the window), the list is not empty, the path exists, the library
    of the selected method is present, and the chunks are those of the
    text its reader returned, which is not blank: a missing file, a missing
    library, a failed read and a blank document never give chunks. *)
Theorem process_file_chunks (self : TrainingService.t) (E : env)
    (file_path file_id mime_type : str) (chunks : list chunk) :
  0 <= chunk_overlap self < chunk_size self ->
  process_file self E file_path file_id mime_type = Some (Ok chunks) ->
  chunks <> []
  /\ path_exists E file_path = true
  /\ capability E (select_extractor (lower (suffix file_path)) mime_type) = true
  /\ exists txt,
       reader E (select_extractor (lower (suffix file_path)) mime_type) file_path = Ok txt
       /\ strip txt <> []
       /\ _chunk_text self txt
            {| file_id := file_id; file_path := file_path;
               TrainingService.mime_type := mime_type |} = Some chunks.
Proof.
  intros HWV. unfold process_file, extract_text.
  destruct (path_exists E file_path); simpl; [|discriminate].
  destruct (run_extractor E _ file_path) as [txt|e] eqn:Hrun; [|discriminate].
  destruct (strip txt) as [|c0 s0] eqn:Hstrip; [discriminate|].
  destruct (_chunk_text self txt _) as [chunks'|] eqn:Hchunks; [|discriminate].
  intros [= <-].
  apply run_extractor_ok in Hrun as [Hcap Hread].
  split; [|split; [reflexivity|split; [exact Hcap|]]].
  - destruct (strip_nonblank txt ltac:(rewrite Hstrip; discriminate)) as (x & Hin & Hx).
    apply In_nth_error in Hin as (p & Hp).
    destruct (chunks_cover_text self txt
                {| file_id := file_id; file_path := file_path;
                   TrainingService.mime_type := mime_type |} p x HWV Hp Hx)
      as (chunks0 & c & Hrun0 & Hc & _).
    rewrite Hchunks in Hrun0. injection Hrun0 as <-.
    intros ->. contradiction.
  - exists txt. rewrite Hstrip. repeat split; [exact Hread | discriminate | exact Hchunks].
Qed.

Lemma process_file_chunks_witness :
  [window default (u "hello world") notes_metadata 0] <> [].
Proof.
  apply (proj1 (process_file_chunks default quiet_env (u "/data/notes.txt") (u "1")
                  (u "text/plain")
                  [window default (u "hello world") notes_metadata 0]
                  ltac:(simpl; lia) eq_refl)).
Defined.

(** *** The vector store: failures, inserts and what stays *)



(** X6.  A successful call of [store_embedding] for a key that is not in
    the table appends exactly one row: it holds the generated id, which no
    row of the table had, the ids, index, text, embedding and metadata of
    the call, and the same stamp as creation and as update time; the rows
    that were there are untouched. *)
Theorem store_embedding_insert (self : TrainingService.t) (db : db_call) (tbl tbl' : table)
    (kb ver file : str) (idx : Z) (txt : str) (emb : Json.t) (md : chunk_metadata)
    (verz filez : Z) :
  py_int ver = Ok verz -> py_int file = Ok filez ->
  count_key (verz, filez, idx) tbl = O ->
  store_embedding self db tbl kb ver file idx txt emb md = (Ok tt, tbl') ->
  (forall r, In r tbl -> col_id r <> embedding_id db)
  /\ exists kbz,
       py_int kb = Ok kbz
       /\ tbl' = tbl ++
            [ {| col_id := embedding_id db;
                 col_knowledge_base_id := kbz;
                 col_knowledge_base_version_id := verz;
                 col_knowledge_base_file_id := filez;
                 col_chunk_index := idx;
                 col_chunk_text := txt;
                 col_embedding := emb;
                 col_metadata := md;
                 col_created_at := NOW db;
                 col_updated_at := NOW db |} ].
Proof.
  intros Hver Hfile Hnew Hstore.
  destruct (store_embedding_cases self db tbl kb ver file idx txt emb md)
    as [[e He] | (kbz & verz' & filez' & t & Hkb & Hv & Hf & Hexec & Hok)];
    [congruence|].
  assert (t = tbl') by congruence. subst t.
  assert (verz' = verz) by congruence. assert (filez' = filez) by congruence.
  subst verz' filez'.
  unfold execute_insert in Hexec.
  match type of Hexec with
  | context [on_conflict_do_update ?r tbl] =>
      destruct (on_conflict_do_update r tbl) as [t|] eqn:Hup;
      [apply on_conflict_split in Hup as (pre & old & post & Htbl & Hkey & _);
       change (natural_key old = (verz, filez, idx)) in Hkey;
       rewrite Htbl, count_key_app, count_key_cons, Hkey, key_eqb_refl in Hnew; lia|];
      destruct (existsb (fun r0 => col_id r0 =? col_id r) tbl) eqn:Hid;
      [discriminate|]
  end.
  injection Hexec as <-. split.
  - intros r Hr Heq.
    assert (existsb (fun r0 => col_id r0 =? embedding_id db) tbl = true)
      by (apply existsb_exists; exists r; split; [exact Hr | now apply Z.eqb_eq]).
    simpl in Hid. congruence.
  - exists kbz. auto.
Qed.

Lemma store_embedding_insert_witness :
  exists kbz,
    py_int (u "1") = Ok kbz
    /\ [ {| col_id := 1001; col_knowledge_base_id := 1;
            col_knowledge_base_version_id := 3; col_knowledge_base_file_id := 7;
            col_chunk_index := 0; col_chunk_text := u "old text";
            col_embedding := JArr [JInt 1]; col_metadata := chunk_md 0 1000;
            col_created_at := 10; col_updated_at := 10 |} ]
       = [] ++
         [ {| col_id := embedding_id (db_ok 1001 10); col_knowledge_base_id := kbz;
              col_knowledge_base_version_id := 3; col_knowledge_base_file_id := 7;
              col_chunk_index := 0; col_chunk_text := u "old text";
              col_embedding := JArr [JInt 1]; col_metadata := chunk_md 0 1000;
              col_created_at := NOW (db_ok 1001 10);
              col_updated_at := NOW (db_ok 1001 10) |} ].
Proof.
  apply (proj2 (store_embedding_insert default (db_ok 1001 10) []
                  [ {| col_id := 1001; col_knowledge_base_id := 1;
                       col_knowledge_base_version_id := 3;
                       col_knowledge_base_file_id := 7;
                       col_chunk_index := 0; col_chunk_text := u "old text";
                       col_embedding := JArr [JInt 1];
                       col_metadata := chunk_md 0 1000;
                       col_created_at := 10; col_updated_at := 10 |} ]
                  (u "1") (u "3") (u "7") 0 (u "old text") (JArr [JInt 1])
                  (chunk_md 0 1000) 3 7 eq_refl eq_refl eq_refl eq_refl)).
Defined.

Lemma execute_insert_keeps (new : row) (tbl tbl' : table) (k : Z * Z * Z) :
  execute_insert new tbl = Ok tbl' ->
  (count_key k tbl <= count_key k tbl')%nat
  /\ (List.length tbl <= List.length tbl')%nat.
Proof.
  unfold execute_insert.
  destruct (on_conflict_do_update new tbl) as [t|] eqn:Hup.
  - intros [= <-].
    apply on_conflict_split in Hup as (pre & old & post & -> & _ & ->).
    rewrite !count_key_app, !count_key_cons, natural_key_overwritten, !length_app.
    simpl. lia.
  - destruct (existsb _ tbl); [discriminate|]. intros [= <-].
    rewrite count_key_app, length_app. simpl. lia.
Qed.

(** A call never removes a row and never takes a key out of the table. *)
Theorem store_embedding_keeps_rows (self : TrainingService.t) (db : db_call) (tbl : table)
    (kb ver file : str) (idx : Z) (txt : str) (emb : Json.t) (md : chunk_metadata)
    (k : Z * Z * Z) :
  let tbl' := snd (store_embedding self db tbl kb ver file idx txt emb md) in
  (count_key k tbl <= count_key k tbl')%nat
  /\ (List.length tbl <= List.length tbl')%nat.
Proof.
  intros tbl'. unfold tbl'.
  destruct (store_embedding_cases self db tbl kb ver file idx txt emb md)
    as [[e ->] | (kbz & verz & filez & t & _ & _ & _ & Hexec & ->)]; simpl.
  - lia.
  - exact (execute_insert_keeps _ _ _ k Hexec).
Qed.

(** *** What a job does to the table *)

Section TableInvariant.

Variable self : TrainingService.t.
Variable P : table -> Prop.
Hypothesis P_store :
  forall db tbl kb ver file idx txt emb md,
    P tbl -> P (snd (store_embedding self db tbl kb ver file idx txt emb md)).

Lemma chunks_loop_table (W : world) (req : TrainingRequest) (info : file_info)
    (file_idx total_files total_chunks : Z) (before : list file_detail) :
  forall (chunks : list chunk) (chunk_idx : Z) (detail : file_detail) (tbl : table),
    P tbl ->
    P (snd (chunks_loop self W req info file_idx total_files total_chunks before
                        chunk_idx chunks detail tbl)).
Proof.
  induction chunks as [|chunk rest IH]; intros chunk_idx detail tbl Htbl;
    cbn [chunks_loop]; [exact Htbl|].
  destruct (generate_embedding self (embeddings_reply W file_idx chunk_idx)
                               (text chunk)) as [emb|e]; [|exact Htbl].
  pose proof (P_store (db W file_idx chunk_idx) tbl (knowledge_base_id req)
                (version_id req) (id info) (chunk_idx - 1) (text chunk) emb
                (metadata chunk) Htbl) as Hstep.
  destruct (store_embedding self (db W file_idx chunk_idx) tbl
              (knowledge_base_id req) (version_id req) (id info)
              (chunk_idx - 1) (text chunk) emb (metadata chunk)) as [[[]|e] tbl1];
    [|exact Hstep].
  specialize (IH (chunk_idx + 1)
                 (set_status storing
                    (set_progress chunk_idx (pct_file chunk_idx total_chunks)
                                  embedding detail)) tbl1 Hstep).
  destruct (chunks_loop self W req info file_idx total_files total_chunks before
              (chunk_idx + 1) rest _ tbl1) as [[[evs r] d] t].
  exact IH.
Qed.

Lemma file_body_table (W : world) (req : TrainingRequest)
    (total_files file_idx : Z) (info : file_info) (fds : list file_detail)
    (tbl : table) :
  P tbl -> P (snd (file_body self W req total_files file_idx info fds tbl)).
Proof.
  intros Htbl. unfold file_body.
  destruct (process_file self (service_env W) (path info) (id info)
              (TrainingRoutes.mime_type info)) as [[chunks|e]|]; try exact Htbl.
  match goal with
  | |- context [chunks_loop ?a ?b ?c ?d ?e ?f ?g ?h ?i ?j ?k ?l] =>
      pose proof (chunks_loop_table b c d e f g h j i k l Htbl) as Hc;
      destruct (chunks_loop a b c d e f g h i j k l) as [[[evs r] d2] t1]
  end.
  destruct r as [[]|e]; exact Hc.
Qed.

Lemma files_loop_table (W : world) (req : TrainingRequest) (total_files : Z) :
  forall (todo : list file_info) (file_idx : Z) (fds : list file_detail) (tbl : table),
    P tbl -> P (snd (files_loop self W req total_files file_idx todo fds tbl)).
Proof.
  induction todo as [|info rest IH]; intros file_idx fds tbl Htbl;
    cbn [files_loop]; [exact Htbl|].
  pose proof (file_body_table W req total_files file_idx info fds tbl Htbl) as Hb.
  destruct (file_body self W req total_files file_idx info fds tbl)
    as [[[evs en] d] t1].
  destruct en; [|exact Hb].
  specialize (IH (file_idx + 1) (fds ++ [d]) t1 Hb).
  destruct (files_loop self W req total_files (file_idx + 1) rest (fds ++ [d]) t1)
    as [[[evs' en'] ds'] t2].
  exact IH.
Qed.

Lemma generate_progress_table (W : world) (req : TrainingRequest) (tbl : table) :
  P tbl -> P (final_table (generate_progress self W req tbl)).
Proof.
  intros Htbl. unfold generate_progress.
  pose proof (files_loop_table W req (Z.of_nat (List.length (files req))) (files req)
                1 [] tbl Htbl) as Hl.
  destruct (files_loop self W req _ 1 (files req) [] tbl) as [[[evs en] ds] t].
  destruct en; exact Hl.
Qed.

End TableInvariant.

Lemma store_embedding_one_row (self : TrainingService.t) (db : db_call) (tbl : table)
    (kb ver file : str) (idx : Z) (txt : str) (emb : Json.t) (md : chunk_metadata) :
  one_row_per_key tbl ->
  one_row_per_key (snd (store_embedding self db tbl kb ver file idx txt emb md)).
Proof.
  exact (store_one_row self tbl
           {| call_db := db; call_knowledge_base_id := kb; call_version_id := ver;
              call_file_id := file; call_chunk_index := idx; call_chunk_text := txt;
              call_embedding := emb; call_metadata := md |}).
Qed.

(** X7.  A whole job keeps the table at one row per (version id, file
    id, chunk index), whatever fails on the way. *)
Theorem job_keeps_one_row_per_key (self : TrainingService.t) (W : world)
    (req : TrainingRequest) (tbl : table) :
  one_row_per_key tbl ->
  one_row_per_key (final_table (generate_progress self W req tbl)).
Proof.
  apply generate_progress_table. intros. now apply store_embedding_one_row.
Qed.

Lemma job_keeps_one_row_per_key_witness :
  one_row_per_key (final_table (generate_progress default world_missing job_missing [])).
Proof.
  apply (job_keeps_one_row_per_key default world_missing job_missing []).
  intros k. vm_compute. lia.
Defined.

(** X8.  A job never removes a row: the table never gets shorter, and a
    key that has a row when the job starts, or gets one on the way, still
    has it at the end, also when a later chunk or file fails (nothing is
    rolled back). *)
Theorem job_keeps_rows (self : TrainingService.t) (W : world)
    (req : TrainingRequest) (tbl : table) (k : Z * Z * Z) :
  (count_key k tbl <= count_key k (final_table (generate_progress self W req tbl)))%nat
  /\ (List.length tbl
      <= List.length (final_table (generate_progress self W req tbl)))%nat.
Proof.
  apply (generate_progress_table self
           (fun t => (count_key k tbl <= count_key k t)%nat
                     /\ (List.length tbl <= List.length t)%nat)); [|lia].
  intros db t kb ver file idx txt emb md [H1 H2].
  destruct (store_embedding_keeps_rows self db t kb ver file idx txt emb md k). lia.
Qed.

(** *** What every event carries *)

Lemma chunks_loop_events_ok (self : TrainingService.t) (W : world)
    (req : TrainingRequest) (info : file_info) (file_idx F total_chunks : Z)
    (before : list file_detail) :
  1 <= file_idx <= F ->
  Z.of_nat (List.length before) = file_idx - 1 ->
  forallb terminal before = true ->
  forall (chunks : list chunk) (chunk_idx : Z) (detail : file_detail) (tbl : table)
         (evs : list event) (r : result unit) (d : file_detail) (t : table),
    1 <= chunk_idx ->
    chunk_idx - 1 + Z.of_nat (List.length chunks) = total_chunks ->
    fd_file_id detail = id info ->
    fd_file_name detail = name info ->
    fd_chunks_total detail = total_chunks ->
    fd_chunks_done detail = chunk_idx - 1 ->
    chunks_loop self W req info file_idx F total_chunks before
                chunk_idx chunks detail tbl = (evs, r, d, t) ->
    Forall (event_ok F) evs
    /\ fd_file_id d = id info /\ fd_file_name d = name info
    /\ fd_chunks_total d = total_chunks
    /\ 0 <= fd_chunks_done d <= total_chunks
    /\ (r = Ok tt -> fd_chunks_done d = total_chunks).
Proof.
  intros Hidx Hlen Hterm.
  induction chunks as [|chunk rest IH];
    intros chunk_idx detail tbl evs r d t Hc Htotal Hid Hname Htc Hdone;
    cbn [chunks_loop].
  - intros [= <- <- <- <-]. simpl in Htotal.
    repeat split; auto; lia.
  - assert (Hsnap : forall d', snapshot file_idx (before ++ [d']) d')
      by (intros d'; exists before; auto).
    simpl List.length in Htotal.
    destruct (generate_embedding self (embeddings_reply W file_idx chunk_idx)
                                 (text chunk)) as [emb|e].
    + destruct (store_embedding self (db W file_idx chunk_idx) tbl
                  (knowledge_base_id req) (version_id req) (id info)
                  (chunk_idx - 1) (text chunk) emb (metadata chunk))
        as [[[]|e] tbl1].
      * destruct (chunks_loop self W req info file_idx F total_chunks
                    before (chunk_idx + 1) rest
                    (set_status storing
                       (set_progress chunk_idx (pct_file chunk_idx total_chunks)
                                     embedding detail)) tbl1)
          as [[[evs' r'] d'] t'] eqn:Hrest.
        intros [= <- <- <- <-].
        apply IH in Hrest as (Hevs & H1 & H2 & H3 & H4 & H5);
          [|lia|lia|exact Hid|exact Hname|exact Htc|simpl; lia].
        split; [|auto].
        constructor; [|constructor; [|exact Hevs]]; simpl;
          (split; [reflexivity|]); (split; [exact Hidx|]); (split; [lia|]);
          eexists; (split; [apply Hsnap|]); simpl; auto.
      * intros [= <- <- <- <-]. simpl.
        split; [|repeat split; auto; try lia; discriminate].
        constructor; [|constructor]. simpl.
        (split; [reflexivity|]); (split; [exact Hidx|]); (split; [lia|]).
        eexists; (split; [apply Hsnap|]); simpl; auto.
    + intros [= <- <- <- <-]. simpl.
      split; [|repeat split; auto; try lia; discriminate].
      constructor; [|constructor]. simpl.
      (split; [reflexivity|]); (split; [exact Hidx|]); (split; [lia|]).
      eexists; (split; [apply Hsnap|]); simpl; auto.
Qed.

Lemma file_body_events_ok (self : TrainingService.t) (W : world)
    (req : TrainingRequest) (F file_idx : Z) (info : file_info)
    (before : list file_detail) (tbl : table)
    (evs : list event) (en : run_end) (d : file_detail) (t : table) :
  1 <= file_idx <= F ->
  Z.of_nat (List.length before) = file_idx - 1 ->
  forallb terminal before = true ->
  file_body self W req F file_idx info before tbl = (evs, en, d, t) ->
  Forall (event_ok F) evs /\ (en = returned -> terminal d = true).
Proof.
  intros Hidx Hlen Hterm. unfold file_body.
  assert (Hsnap : forall d', snapshot file_idx (before ++ [d']) d')
    by (intros d'; exists before; auto).
  destruct (process_file self (service_env W) (path info) (id info)
              (TrainingRoutes.mime_type info)) as [[chunks|e]|].
  - match goal with
    | |- context [chunks_loop ?a ?b ?c ?d ?e ?f ?g ?h ?i ?j ?k ?l] =>
        destruct (chunks_loop a b c d e f g h i j k l) as [[[evs_c r] d2] t1] eqn:Hc
    end.
    apply chunks_loop_events_ok in Hc as (Hevs & H1 & H2 & H3 & H4 & H5);
      try assumption; try reflexivity; try lia.
    destruct r as [[]|e]; intros [= <- <- <- <-]; (split; [|reflexivity]).
    + constructor.
      * simpl. repeat split; try lia. eexists. split; [apply Hsnap|]. simpl. auto.
      * apply Forall_app. split; [exact Hevs|]. constructor; [|constructor].
        simpl. repeat split; try lia.
        eexists. split; [apply Hsnap|]. simpl. rewrite H3.
        repeat split; auto.
    + constructor.
      * simpl. repeat split; try lia. eexists. split; [apply Hsnap|]. simpl. auto.
      * apply Forall_app. split; [exact Hevs|]. constructor; [|constructor].
        simpl. repeat split; try lia.
        eexists. eexists. split; [apply Hsnap|]. simpl.
        repeat split; auto. unfold error_message. now rewrite H2.
  - intros [= <- <- <- <-]. split; [|reflexivity].
    constructor; [|constructor; [|constructor]].
    + simpl. repeat split; try lia. eexists. split; [apply Hsnap|]. simpl. auto.
    + simpl. repeat split; try lia.
      eexists. eexists. split; [apply Hsnap|]. simpl. repeat split; auto.
  - intros [= <- <- <- <-]. split; [|discriminate].
    constructor; [|constructor].
    simpl. repeat split; try lia. eexists. split; [apply Hsnap|]. simpl. auto.
Qed.

Lemma files_loop_events_ok (self : TrainingService.t) (W : world)
    (req : TrainingRequest) (F : Z) :
  forall (todo : list file_info) (file_idx : Z) (before : list file_detail)
         (tbl : table),
    1 <= file_idx ->
    file_idx - 1 + Z.of_nat (List.length todo) = F ->
    Z.of_nat (List.length before) = file_idx - 1 ->
    forallb terminal before = true ->
    Forall (event_ok F)
      (fst (fst (fst (files_loop self W req F file_idx todo before tbl)))).
Proof.
  induction todo as [|info rest IH]; intros file_idx before tbl Hidx HF Hlen Hterm;
    cbn [files_loop]; [constructor|].
  simpl List.length in HF.
  destruct (file_body self W req F file_idx info before tbl)
    as [[[evs en] d] t1] eqn:Hb.
  apply file_body_events_ok in Hb as [Hevs Hd]; [|lia|exact Hlen|exact Hterm].
  destruct en; [|exact Hevs].
  specialize (IH (file_idx + 1) (before ++ [d]) t1 ltac:(lia) ltac:(lia)).
  rewrite length_app, forallb_app in IH. simpl in IH.
  rewrite Hterm, (Hd eq_refl) in IH. specialize (IH ltac:(lia) eq_refl).
  destruct (files_loop self W req F (file_idx + 1) rest (before ++ [d]) t1)
    as [[[evs' en'] ds'] t2].
  simpl in *. apply Forall_app. auto.
Qed.

(** X9.  Every event of the stream is well formed for a job of [F] files:
    [total_files] is [F] and [current_file] lies in 1..[F]; a progress
    event has [0 <= current_chunk <= total_chunks]; the [file_details] of a
    progress or error event list exactly the files up to the current one,
    those before it completed or failed, the last one being the current
    file with the status and the chunk counters of the event (for an error
    event: failed, with the error text the message ends with); the
    [complete] event carries [F], [F] and 100; and the event of the outer
    handler never occurs. *)
Theorem events_well_formed (self : TrainingService.t) (W : world)
    (req : TrainingRequest) (tbl : table) :
  Forall (event_ok (Z.of_nat (List.length (files req))))
         (events (generate_progress self W req tbl)).
Proof.
  unfold generate_progress.
  pose proof (files_loop_events_ok self W req (Z.of_nat (List.length (files req)))
                (files req) 1 [] tbl ltac:(lia) ltac:(lia) eq_refl eq_refl) as Hl.
  destruct (files_loop self W req _ 1 (files req) [] tbl) as [[[evs en] ds] t].
  simpl in Hl. destruct en; cbn [events]; [|exact Hl].
  apply Forall_app. split; [exact Hl|]. constructor; [|constructor].
  simpl. auto.
Qed.

(** *** The order of the events *)

Lemma sorted_app {A : Type} (R : A -> A -> Prop) (a b : list A) :
  StronglySorted R a -> StronglySorted R b ->
  (forall x y, In x a -> In y b -> R x y) ->
  StronglySorted R (a ++ b).
Proof.
  intros Ha Hb Hab. induction Ha as [|x a Ha IH Hx]; [exact Hb|].
  simpl. constructor.
  - apply IH. intros x' y Hx' Hy. apply Hab; [now right | exact Hy].
  - apply Forall_app. split; [exact Hx|].
    apply Forall_forall. intros y Hy. apply Hab; [now left | exact Hy].
Qed.

Lemma counters_app (a b : list event) : counters (a ++ b) = counters a ++ counters b.
Proof. unfold counters. apply flat_map_app. Qed.

Lemma chunks_loop_order (self : TrainingService.t) (W : world)
    (req : TrainingRequest) (info : file_info) (file_idx F total_chunks : Z)
    (before : list file_detail) :
  forall (chunks : list chunk) (chunk_idx : Z) (detail : file_detail) (tbl : table)
         (evs : list event) (r : result unit) (d : file_detail) (t : table),
    chunk_idx - 1 + Z.of_nat (List.length chunks) = total_chunks ->
    chunks_loop self W req info file_idx F total_chunks before
                chunk_idx chunks detail tbl = (evs, r, d, t) ->
    Forall (fun e => file_of e = file_idx) evs
    /\ Forall (fun s => fst s = file_idx /\ chunk_idx <= snd s <= total_chunks)
              (counters evs)
    /\ StronglySorted counters_le (counters evs).
Proof.
  induction chunks as [|chunk rest IH];
    intros chunk_idx detail tbl evs r d t Htotal; cbn [chunks_loop].
  - intros [= <- <- <- <-]. repeat split; constructor.
  - simpl List.length in Htotal.
    destruct (generate_embedding self (embeddings_reply W file_idx chunk_idx)
                                 (text chunk)) as [emb|e].
    + destruct (store_embedding self (db W file_idx chunk_idx) tbl
                  (knowledge_base_id req) (version_id req) (id info)
                  (chunk_idx - 1) (text chunk) emb (metadata chunk))
        as [[[]|e] tbl1].
      * destruct (chunks_loop self W req info file_idx F total_chunks
                    before (chunk_idx + 1) rest _ tbl1)
          as [[[evs' r'] d'] t'] eqn:Hrest.
        intros [= <- <- <- <-].
        apply IH in Hrest as (Hfile & Hbound & Hsorted); [|lia].
        split; [repeat constructor; exact Hfile|].
        cbn [counters flat_map app]. fold (counters evs').
        assert (Hb' : Forall (fun s => fst s = file_idx
                                       /\ chunk_idx <= snd s <= total_chunks)
                             (counters evs')).
        { eapply Forall_impl; [|exact Hbound]. simpl. intros s [H1 H2]. lia. }
        split; [repeat constructor; simpl; try lia; exact Hb'|].
        assert (Hle : Forall (counters_le (file_idx, chunk_idx)) (counters evs')).
        { eapply Forall_impl; [|exact Hbound]. intros s [H1 H2].
          right. simpl. lia. }
        constructor; [constructor; [exact Hsorted | exact Hle]|].
        constructor; [right; simpl; lia | exact Hle].
      * intros [= <- <- <- <-].
        split; [repeat constructor|].
        cbn [counters flat_map app].
        split; repeat constructor; simpl; lia.
    + intros [= <- <- <- <-].
      split; [repeat constructor|].
      cbn [counters flat_map app].
      split; repeat constructor; simpl; lia.
Qed.

Lemma file_body_order (self : TrainingService.t) (W : world)
    (req : TrainingRequest) (F file_idx : Z) (info : file_info)
    (before : list file_detail) (tbl : table)
    (evs : list event) (en : run_end) (d : file_detail) (t : table) :
  file_body self W req F file_idx info before tbl = (evs, en, d, t) ->
  Forall (fun e => file_of e = file_idx) evs
  /\ Forall (fun s => fst s = file_idx) (counters evs)
  /\ StronglySorted counters_le (counters evs).
Proof.
  unfold file_body.
  destruct (process_file self (service_env W) (path info) (id info)
              (TrainingRoutes.mime_type info)) as [[chunks|e]|].
  - match goal with
    | |- context [chunks_loop ?a ?b ?c ?d ?e ?f ?g ?h ?i ?j ?k ?l] =>
        destruct (chunks_loop a b c d e f g h i j k l) as [[[evs_c r] d2] t1] eqn:Hc
    end.
    apply chunks_loop_order in Hc as (Hfile & Hbound & Hsorted); [|lia].
    assert (Hfst : Forall (fun s : Z * Z => fst s = file_idx) (counters evs_c))
      by (eapply Forall_impl; [|exact Hbound]; simpl; tauto).
    assert (Hle : Forall (counters_le (file_idx, 0)) (counters evs_c)).
    { eapply Forall_impl; [|exact Hbound]. intros s [H1 H2]. right. simpl. lia. }
    destruct r as [[]|e]; intros [= <- <- <- <-].
    + split; [constructor; [reflexivity|]; apply Forall_app; split;
              [exact Hfile | repeat constructor]|].
      cbn [counters flat_map app]. fold (counters (evs_c ++
        [progress file_idx F (Z.of_nat (Datatypes.length chunks))
           (Z.of_nat (Datatypes.length chunks)) (pct_completed file_idx F) completed
           (id info)
           (before ++ [set_progress (fd_chunks_done d2) 100 completed d2])])).
      rewrite counters_app. cbn [counters flat_map app].
      split.
      * constructor; [reflexivity|]. apply Forall_app.
        split; [exact Hfst | repeat constructor].
      * constructor.
        -- apply sorted_app; [exact Hsorted | repeat constructor|].
           intros x y Hx [<-|[]].
           revert x Hx. apply Forall_forall.
           eapply Forall_impl; [|exact Hbound]. intros s [H1 H2].
           unfold counters_le. right. simpl. lia.
        -- apply Forall_app. split; [exact Hle|].
           constructor; [|constructor]. right. simpl. lia.
    + split; [constructor; [reflexivity|]; apply Forall_app; split;
              [exact Hfile | repeat constructor]|].
      cbn [counters flat_map app]. fold (counters (evs_c ++
        [error file_idx F (id info) (before ++ [set_failed (exn_msg e) d2])
           (error_message info e)])).
      rewrite counters_app. cbn [counters flat_map app]. rewrite app_nil_r.
      split; [constructor; [reflexivity | exact Hfst]|].
      constructor; [exact Hsorted | exact Hle].
  - intros [= <- <- <- <-]. cbn [counters flat_map app].
    repeat split; repeat constructor.
  - intros [= <- <- <- <-]. cbn [counters flat_map app].
    repeat split; repeat constructor.
Qed.

Lemma files_loop_order (self : TrainingService.t) (W : world)
    (req : TrainingRequest) (F : Z) :
  forall (todo : list file_info) (file_idx : Z) (before : list file_detail)
         (tbl : table),
    file_idx - 1 + Z.of_nat (List.length todo) = F ->
    let evs := fst (fst (fst (files_loop self W req F file_idx todo before tbl))) in
    Forall (fun e => file_idx <= file_of e <= F) evs
    /\ StronglySorted Z.le (List.map file_of evs)
    /\ Forall (fun s => file_idx <= fst s) (counters evs)
    /\ StronglySorted counters_le (counters evs).
Proof.
  induction todo as [|info rest IH]; intros file_idx before tbl HF;
    cbn [files_loop]; [repeat split; constructor|].
  simpl List.length in HF.
  destruct (file_body self W req F file_idx info before tbl)
    as [[[evs en] d] t1] eqn:Hb.
  apply file_body_order in Hb as (Hfile & Hfst & Hsorted).
  assert (Hrange : Forall (fun e => file_idx <= file_of e <= F) evs)
    by (eapply Forall_impl; [|exact Hfile]; simpl; intros; lia).
  assert (Hfiles : StronglySorted Z.le (List.map file_of evs)).
  { clear -Hfile. induction Hfile as [|e evs He Hrest IH]; simpl; constructor;
      [exact IH|].
    apply Forall_forall. intros y Hy. apply in_map_iff in Hy as (e' & <- & He').
    rewrite He, (proj1 (Forall_forall _ _) Hrest e' He'). lia. }
  assert (Hlo : Forall (fun s : Z * Z => file_idx <= fst s) (counters evs))
    by (eapply Forall_impl; [|exact Hfst]; simpl; intros; lia).
  destruct en; [|cbn [fst]; auto].
  specialize (IH (file_idx + 1) (before ++ [d]) t1 ltac:(lia)).
  destruct (files_loop self W req F (file_idx + 1) rest (before ++ [d]) t1)
    as [[[evs' en'] ds'] t2].
  cbn [fst] in *. destruct IH as (Hrange' & Hfiles' & Hlo' & Hsorted').
  split; [|split; [|split]].
  - apply Forall_app. split; [exact Hrange|].
    eapply Forall_impl; [|exact Hrange']. simpl. intros; lia.
  - rewrite map_app. apply sorted_app; [exact Hfiles | exact Hfiles'|].
    intros x y Hx Hy.
    apply in_map_iff in Hx as (e1 & <- & He1), Hy as (e2 & <- & He2).
    pose proof (proj1 (Forall_forall _ _) Hfile e1 He1).
    pose proof (proj1 (Forall_forall _ _) Hrange' e2 He2). simpl in *. lia.
  - rewrite counters_app. apply Forall_app. split; [exact Hlo|].
    eapply Forall_impl; [|exact Hlo']. simpl. intros; lia.
  - rewrite counters_app. apply sorted_app; [exact Hsorted | exact Hsorted'|].
    intros x y Hx Hy.
    pose proof (proj1 (Forall_forall _ _) Hfst x Hx).
    pose proof (proj1 (Forall_forall _ _) Hlo' y Hy). simpl in *.
    left. lia.
Qed.

(** X10.  The counters of the stream never go back: along the events the
    file position never decreases, and along the progress events the pair
    (current file, current chunk) never decreases in the order by file and
    then by chunk. *)
Theorem events_in_order (self : TrainingService.t) (W : world)
    (req : TrainingRequest) (tbl : table) :
  let evs := events (generate_progress self W req tbl) in
  StronglySorted Z.le (List.map file_of evs)
  /\ StronglySorted counters_le (counters evs).
Proof.
  unfold generate_progress.
  pose proof (files_loop_order self W req (Z.of_nat (List.length (files req)))
                (files req) 1 [] tbl ltac:(lia)) as Hl.
  destruct (files_loop self W req _ 1 (files req) [] tbl) as [[[evs en] ds] t].
  cbn [fst] in Hl. destruct Hl as (Hrange & Hfiles & _ & Hsorted).
  destruct en; cbn [events]; [|auto].
  split.
  - rewrite map_app. apply sorted_app; [exact Hfiles | repeat constructor|].
    intros x y Hx [<-|[]]. apply in_map_iff in Hx as (e & <- & He).
    pose proof (proj1 (Forall_forall _ _) Hrange e He). simpl in *. lia.
  - rewrite counters_app. cbn [counters flat_map app]. now rewrite app_nil_r.
Qed.

(** *** The chat stream *)

Module StreamFacts.
Import OllamaClient.

Lemma stream_chat_cons (line : str) (rest : list str) :
  stream_chat (line :: rest) =
  match line_action line with
  | Skip => stream_chat rest
  | Stop => ([], Finished)
  | Fail e => ([], Raised e)
  | Yield c => let (ys, e) := stream_chat rest in (c :: ys, e)
  end.
Proof.
  cbn [stream_chat]. unfold line_action.
  destruct line as [|c0 l0]; [reflexivity|].
  destruct (strip (c0 :: l0)) as [|c1 l1]; [reflexivity|].
  cbv zeta.
  destruct (is_sentinel (clean (c0 :: l0))); [reflexivity|].
  destruct (json_loads (clean (c0 :: l0))) as [data|[[] msg]]; try reflexivity.
  destruct (py_in (u "message") data) as [[]|e]; try reflexivity.
  destruct (getitem data (u "message")) as [m|e]; try reflexivity.
  destruct (py_in (u "content") m) as [[]|e]; try reflexivity.
  destruct (getitem m (u "content")) as [c|e]; reflexivity.
Qed.

Lemma stream_chat_actions (lines : list str) :
  stream_chat lines = run_actions (List.map line_action lines).
Proof.
  induction lines as [|line rest IH]; [reflexivity|].
  rewrite stream_chat_cons. cbn [List.map run_actions].
  destruct (line_action line); rewrite ?IH; reflexivity.
Qed.

Lemma run_actions_app_live (a b : list action) :
  live a = true ->
  run_actions (a ++ b)
  = (fst (run_actions a) ++ fst (run_actions b), snd (run_actions b))
  /\ snd (run_actions a) = Finished.
Proof.
  induction a as [|x a IH]; intros Hlive.
  - simpl. now destruct (run_actions b).
  - simpl in Hlive. apply andb_true_iff in Hlive as [Hx Hlive].
    destruct (IH Hlive) as [IH1 IH2].
    destruct x; try discriminate; simpl.
    + auto.
    + rewrite IH1. destruct (run_actions a) as [ys e]. simpl in *. auto.
Qed.

Lemma run_actions_app_dead (a b : list action) :
  live a = false -> run_actions (a ++ b) = run_actions a.
Proof.
  induction a as [|x a IH]; intros Hlive; [discriminate|].
  simpl in Hlive. destruct x; simpl in *; try reflexivity.
  - now apply IH.
  - now rewrite IH.
Qed.

(** X11.  The normalizer works on line: what it yields for the lines read
    so far is a prefix of what it yields once more lines have arrived, and
    once a line has made it raise, later lines change nothing. *)
Theorem stream_chat_prefix (lines more_lines : list str) :
  (exists more, fst (stream_chat (lines ++ more_lines))
                = fst (stream_chat lines) ++ more)
  /\ (forall e, snd (stream_chat lines) = Raised e ->
                stream_chat (lines ++ more_lines) = stream_chat lines).
Proof.
  rewrite !stream_chat_actions, map_app.
  destruct (live (List.map line_action lines)) eqn:Hlive.
  - destruct (run_actions_app_live _ (List.map line_action more_lines) Hlive)
      as [Happ Hfin].
    split; [rewrite Happ; cbn [fst]; eexists; reflexivity|].
    intros e He. congruence.
  - rewrite run_actions_app_dead by exact Hlive.
    split; [exists []; now rewrite app_nil_r | reflexivity].
Qed.

Lemma stream_chat_prefix_witness :
  stream_chat ([jq "12"] ++ upstream_lines) = stream_chat [jq "12"].
Proof.
  apply (proj2 (stream_chat_prefix [jq "12"] upstream_lines)
           (Exn TypeError (u "argument of type 'int' is not iterable"))).
  reflexivity.
Defined.

Lemma run_actions_stop (a b : list action) :
  run_actions (a ++ Stop :: b) = run_actions a.
Proof.
  induction a as [|x a IH]; [reflexivity|].
  destruct x; simpl; try reflexivity; [exact IH | now rewrite IH].
Qed.

Lemma run_actions_skip (a b : list action) :
  run_actions (a ++ Skip :: b) = run_actions (a ++ b).
Proof.
  induction a as [|x a IH]; [reflexivity|].
  destruct x; simpl; try reflexivity; [exact IH | now rewrite IH].
Qed.

Lemma line_action_stop (line : str) :
  strip line <> [] -> is_sentinel (clean line) = true -> line_action line = Stop.
Proof.
  intros Hne Hs. unfold line_action.
  destruct line as [|c0 l0]; [exfalso; apply Hne; reflexivity|].
  destruct (strip (c0 :: l0)); [exfalso; apply Hne; reflexivity|].
  cbv zeta. now rewrite Hs.
Qed.

(** X12.  A line that is a sentinel once trimmed and cleaned ends the
    stream: the result is that of the lines before it, and the lines after
    it are never looked at. *)
Theorem stream_chat_sentinel (before after : list str) (line : str) :
  strip line <> [] -> is_sentinel (clean line) = true ->
  stream_chat (before ++ line :: after) = stream_chat before.
Proof.
  intros Hne Hs. rewrite !stream_chat_actions, map_app. cbn [List.map].
  rewrite (line_action_stop line Hne Hs). apply run_actions_stop.
Qed.

Lemma stream_chat_sentinel_witness :
  stream_chat ([jq "{'message':{'content':'a'}}"] ++ u "  data: [DONE] " :: upstream_lines)
  = stream_chat [jq "{'message':{'content':'a'}}"].
Proof.
  apply (stream_chat_sentinel [jq "{'message':{'content':'a'}}"] upstream_lines
           (u "  data: [DONE] ")); [vm_compute; discriminate | reflexivity].
Defined.

Lemma line_action_blank (line : str) : strip line = [] -> line_action line = Skip.
Proof.
  intros Hb. unfold line_action.
  destruct line as [|c0 l0]; [reflexivity|]. now rewrite Hb.
Qed.

Lemma line_action_undecodable (line : str) :
  is_sentinel (clean line) = false -> loads (clean line) = DecodeError ->
  line_action line = Skip.
Proof.
  intros Hs Hd. unfold line_action.
  destruct line as [|c0 l0]; [reflexivity|].
  destruct (strip (c0 :: l0)); [reflexivity|].
  cbv zeta. rewrite Hs. unfold json_loads. now rewrite Hd.
Qed.

(** X13.  Blank lines and lines that are no JSON document (and no
    sentinel) are skipped: such a line can be put into the upstream or
    taken out of it anywhere without changing what the normalizer yields
    or how it ends. *)
Theorem stream_chat_skips (before after : list str) (line : str) :
  strip line = []
  \/ (is_sentinel (clean line) = false /\ loads (clean line) = DecodeError) ->
  stream_chat (before ++ line :: after) = stream_chat (before ++ after).
Proof.
  intros H. rewrite !stream_chat_actions, !map_app. cbn [List.map].
  replace (line_action line) with Skip; [apply run_actions_skip|].
  destruct H as [Hb | [Hs Hd]]; symmetry;
    [now apply line_action_blank | now apply line_action_undecodable].
Qed.

Lemma stream_chat_skips_witness :
  stream_chat ([jq "{'message':{'content':'a'}}"] ++ u "garbage{{" :: upstream_lines)
  = stream_chat ([jq "{'message':{'content':'a'}}"] ++ upstream_lines).
Proof.
  apply (stream_chat_skips [jq "{'message':{'content':'a'}}"] upstream_lines
           (u "garbage{{")).
  right. split; reflexivity.
Defined.

Lemma py_eqb_eq (a b : str) : Py.eqb a b = true <-> a = b.
Proof.
  revert b. induction a as [|x a IH]; intros [|y b]; simpl;
    try (split; [discriminate | discriminate]); [tauto|].
  rewrite andb_true_iff, N.eqb_eq, IH. split.
  - intros [-> ->]. reflexivity.
  - intros [= -> ->]. auto.
Qed.

(** None of the three sentinels is a JSON document. *)
Lemma sentinel_not_json (line : str) :
  is_sentinel line = true -> loads line = DecodeError.
Proof.
  unfold is_sentinel. rewrite !orb_true_iff, !py_eqb_eq.
  intros [[-> | ->] | ->]; reflexivity.
Qed.


Lemma line_action_yield (line : str) (c : Json.t) :
  line_action line = Yield c ->
  exists d m,
    json_loads (clean line) = Ok (JObj d)
    /\ lookup (u "message") d = Some (JObj m)
    /\ lookup (u "content") m = Some c.
Proof.
  unfold line_action.
  destruct line as [|c0 l0]; [discriminate|].
  destruct (strip (c0 :: l0)); [discriminate|]. cbv zeta.
  destruct (is_sentinel (clean (c0 :: l0))); [discriminate|].
  destruct (json_loads (clean (c0 :: l0))) as [data|[[] msg]]; try discriminate.
  destruct data as [| | | | |items|d]; simpl; try discriminate.
  - destruct (contains _ _); discriminate.
  - destruct (existsb _ items); discriminate.
  - destruct (lookup (u "message") d) as [m|] eqn:Hm; [|discriminate].
    destruct m as [| | | | |items|m]; simpl; try discriminate.
    + destruct (contains _ _); discriminate.
    + destruct (existsb _ items); discriminate.
    + destruct (lookup (u "content") m) as [c'|] eqn:Hc; [|discriminate].
      intros [= <-]. eauto.
Qed.


Lemma run_actions_yields (acts : list action) (c : Json.t) :
  In c (fst (run_actions acts)) -> In (Yield c) acts.
Proof.
  induction acts as [|x acts IH]; [contradiction|].
  destruct x; simpl; try contradiction; auto.
  destruct (run_actions acts) as [ys e]. simpl in *.
  intros [->|H]; auto.
Qed.

Lemma run_actions_length (acts : list action) :
  (List.length (fst (run_actions acts)) <= List.length acts)%nat.
Proof.
  induction acts as [|x acts IH]; [simpl; lia|].
  destruct x; simpl; try lia.
  destruct (run_actions acts) as [ys e]. simpl in *. lia.
Qed.


(** X14.  The normalizer yields nothing of its own: every value it yields
    is the value under [content] in the object under [message] of a JSON
    object decoded from one of the cleaned upstream lines. *)
Theorem stream_chat_yields_content (lines : list str) (c : Json.t) :
  In c (fst (stream_chat lines)) ->
  exists line d m,
    In line lines
    /\ json_loads (clean line) = Ok (JObj d)
    /\ lookup (u "message") d = Some (JObj m)
    /\ lookup (u "content") m = Some c.
Proof.
  rewrite stream_chat_actions. intros H.
  apply run_actions_yields, in_map_iff in H as (line & Hact & Hin).
  apply line_action_yield in Hact as (d & m & H1 & H2 & H3).
  exists line, d, m. auto.
Qed.

Lemma stream_chat_yields_content_witness :
  exists line d m,
    In line upstream_lines
    /\ json_loads (clean line) = Ok (JObj d)
    /\ lookup (u "message") d = Some (JObj m)
    /\ lookup (u "content") m = Some (JStr (u "b")).
Proof.
  apply (stream_chat_yields_content upstream_lines (JStr (u "b"))).
  vm_compute. auto.
Defined.



(** X16.  A line that decodes to [null], a boolean or a number makes the
    normalizer raise [TypeError] at once: nothing of that line or of the
    lines after it is yielded. *)
Theorem stream_chat_scalar_line (line : str) (after : list str) (v : Json.t) :
  strip line <> [] -> json_loads (clean line) = Ok v -> scalar v = true ->
  stream_chat (line :: after)
  = ([], Raised (Exn TypeError
                   (u "argument of type '" ++ type_name v ++ u "' is not iterable"))).
Proof.
  intros Hne Hload Hv. rewrite stream_chat_cons. unfold line_action.
  destruct line as [|c0 l0]; [exfalso; apply Hne; reflexivity|].
  destruct (strip (c0 :: l0)); [exfalso; apply Hne; reflexivity|]. cbv zeta.
  destruct (is_sentinel (clean (c0 :: l0))) eqn:Hs.
  - apply sentinel_not_json in Hs. unfold json_loads in Hload.
    rewrite Hs in Hload. discriminate.
  - rewrite Hload. destruct v; try discriminate; reflexivity.
Qed.

Lemma stream_chat_scalar_line_witness :
  stream_chat (u "null" :: upstream_lines)
  = ([], Raised (Exn TypeError
                   (u "argument of type '" ++ type_name JNull ++ u "' is not iterable"))).
Proof.
  apply (stream_chat_scalar_line (u "null") upstream_lines JNull);
    [vm_compute; discriminate | reflexivity | reflexivity].
Defined.

End StreamFacts.

(* ================================================================== *)
(** ** The encoder against the decoder                                 *)
(* ================================================================== *)

Module EncoderFacts.
Import JsonEncoder Wire.
Local Close Scope Z_scope.

(** *** The string scanner undoes the escapes *)

Lemma scanstring_raw (c : char) (r acc : str) :
  (c =? QUOTE)%N = false -> (c <? 32)%N = false -> (c =? BACKSLASH)%N = false ->
  scanstring (c :: r) acc = scanstring r (c :: acc).
Proof. intros H1 H2 H3. cbn [scanstring]. now rewrite H1, H2, H3. Qed.

Lemma scanstring_named (e c : char) (r acc : str) :
  (e =? 117)%N = false -> unescape e = Some c ->
  scanstring (BACKSLASH :: e :: r) acc = scanstring r (c :: acc).
Proof.
  intros H1 H2. cbn [scanstring].
  change (BACKSLASH =? QUOTE)%N with false.
  change (BACKSLASH <? 32)%N with false.
  change (BACKSLASH =? BACKSLASH)%N with true.
  cbv iota. now rewrite H1, H2.
Qed.

Lemma scanstring_u (h1 h2 h3 h4 uni : char) (r acc : str) :
  hex4 h1 h2 h3 h4 = Some uni -> is_high_surrogate uni = false ->
  scanstring (BACKSLASH :: 117%N :: h1 :: h2 :: h3 :: h4 :: r) acc
  = scanstring r (uni :: acc).
Proof.
  intros H1 H2. cbn [scanstring].
  change (BACKSLASH =? QUOTE)%N with false.
  change (BACKSLASH <? 32)%N with false.
  change (BACKSLASH =? BACKSLASH)%N with true.
  change (117 =? 117)%N with true.
  cbv iota. now rewrite H1, H2.
Qed.

Lemma scanstring_pair (h1 h2 h3 h4 g1 g2 g3 g4 hi lo : char) (r acc : str) :
  hex4 h1 h2 h3 h4 = Some hi -> is_high_surrogate hi = true ->
  hex4 g1 g2 g3 g4 = Some lo -> is_low_surrogate lo = true ->
  scanstring (BACKSLASH :: 117%N :: h1 :: h2 :: h3 :: h4
              :: BACKSLASH :: 117%N :: g1 :: g2 :: g3 :: g4 :: r) acc
  = scanstring r (join_surrogates hi lo :: acc).
Proof.
  intros H1 H2 H3 H4. cbn [scanstring].
  change (BACKSLASH =? QUOTE)%N with false.
  change (BACKSLASH <? 32)%N with false.
  change (BACKSLASH =? BACKSLASH)%N with true.
  change (117 =? 117)%N with true.
  cbv iota. rewrite H1, H2. cbn [andb]. cbv iota. now rewrite H3, H4.
Qed.

Lemma hexval_hexdigit (d : N) : (d < 16)%N -> hexval (hexdigit d) = Some d.
Proof.
  intros H.
  assert (Hall : forallb (fun d => match hexval (hexdigit d) with
                                   | Some x => (x =? d)%N
                                   | None => false
                                   end)
                         (List.map N.of_nat (seq 0 16)) = true) by reflexivity.
  rewrite forallb_forall in Hall.
  specialize (Hall d).
  destruct (hexval (hexdigit d)) as [x|].
  - f_equal. apply N.eqb_eq. apply Hall.
    apply in_map_iff. exists (N.to_nat d). split; [apply N2Nat.id|].
    apply in_seq. lia.
  - exfalso. enough (false = true) by discriminate. apply Hall.
    apply in_map_iff. exists (N.to_nat d). split; [apply N2Nat.id|].
    apply in_seq. lia.
Qed.

Lemma hex4_u_escape (n : N) :
  (n < 65536)%N ->
  hex4 (hexdigit (n / 4096)) (hexdigit ((n / 256) mod 16))
       (hexdigit ((n / 16) mod 16)) (hexdigit (n mod 16)) = Some n.
Proof.
  intros H. unfold hex4.
  rewrite !hexval_hexdigit.
  - f_equal.
    pose proof (N.div_mod n 16 ltac:(lia)) as E1.
    pose proof (N.div_mod (n / 16) 16 ltac:(lia)) as E2.
    pose proof (N.div_mod (n / 16 / 16) 16 ltac:(lia)) as E3.
    assert (E4 : (n / 256 = n / 16 / 16)%N) by (rewrite N.Div0.div_div; reflexivity).
    assert (E5 : (n / 4096 = n / 16 / 16 / 16)%N)
      by (rewrite !N.Div0.div_div; reflexivity).
    rewrite E4, E5. lia.
  - apply N.mod_lt. lia.
  - apply N.mod_lt. lia.
  - apply N.mod_lt. lia.
  - apply N.Div0.div_lt_upper_bound. simpl. lia.
Qed.

Lemma scanstring_u_escape (n : N) (r acc : str) :
  (n < 65536)%N -> is_high_surrogate n = false ->
  scanstring (u_escape n ++ r) acc = scanstring r (n :: acc).
Proof.
  intros H1 H2. unfold u_escape. cbn [app].
  apply scanstring_u; [apply hex4_u_escape; assumption | assumption].
Qed.

Lemma testbit_above (x i : N) :
  (x < 1024)%N -> (10 <= i)%N -> N.testbit x i = false.
Proof.
  intros Hx Hi.
  destruct (N.eq_dec x 0) as [->|Hx0]; [apply N.bits_0|].
  apply N.bits_above_log2. apply N.log2_lt_pow2; [now apply N.neq_0_lt_0|].
  apply N.lt_le_trans with (2 ^ 10)%N; [exact Hx|].
  apply N.pow_le_mono_r; lia.
Qed.

(** An [or] that only fills the ten low bits, all of them clear, is a
    sum. *)
Lemma lor_low_bits (base x : N) :
  (x < 1024)%N -> (forall i, (i < 10)%N -> N.testbit base i = false) ->
  N.lor base x = (base + x)%N.
Proof.
  intros Hx Hb.
  assert (Hland : N.land base x = 0%N).
  { apply N.bits_inj. intros i. rewrite N.land_spec, N.bits_0.
    destruct (N.ltb_spec i 10) as [Hi|Hi].
    - now rewrite Hb.
    - rewrite (testbit_above x i Hx Hi). apply andb_false_r. }
  now rewrite <- N.lxor_lor, <- N.add_nocarry_lxor.
Qed.

(** The two halves of a surrogate pair. *)
Lemma surrogate_halves (c : N) :
  (65536 <= c < 1114112)%N ->
  let n := (c - 65536)%N in
  let s1 := N.lor 55296 (N.land (N.shiftr n 10) 1023) in
  let s2 := N.lor 56320 (N.land n 1023) in
  s1 = (55296 + n / 1024)%N /\ s2 = (56320 + n mod 1024)%N.
Proof.
  intros H n s1 s2. subst s1 s2.
  assert (Hn : (n < 1048576)%N) by (subst n; lia).
  change 1023%N with (N.ones 10).
  rewrite !N.land_ones, N.shiftr_div_pow2.
  change (2 ^ 10)%N with 1024%N.
  assert (Hq : (n / 1024 < 1024)%N) by (apply N.Div0.div_lt_upper_bound; lia).
  rewrite (N.mod_small (n / 1024)) by assumption.
  assert (Hm : (n mod 1024 < 1024)%N) by (apply N.mod_lt; lia).
  assert (Hbase : forall base, N.land base (N.ones 10) = 0%N ->
                               forall i, (i < 10)%N -> N.testbit base i = false).
  { intros base Hb i Hi.
    pose proof (f_equal (fun y => N.testbit y i) Hb) as Ht. cbv beta in Ht.
    rewrite N.land_spec, N.bits_0, N.ones_spec_low in Ht by assumption.
    now rewrite andb_true_r in Ht. }
  split; apply lor_low_bits; try assumption; apply Hbase; reflexivity.
Qed.

Lemma join_surrogate_halves (n : N) :
  (n < 1048576)%N ->
  join_surrogates (55296 + n / 1024) (56320 + n mod 1024) = (65536 + n)%N.
Proof.
  intros Hn. unfold join_surrogates.
  rewrite (N.add_comm 55296), (N.add_comm 56320), !N.add_sub.
  f_equal.
  rewrite N.shiftl_mul_pow2.
  assert (Hm : (n mod 1024 < 1024)%N) by (apply N.mod_lt; lia).
  rewrite lor_low_bits.
  - change (2 ^ 10)%N with 1024%N.
    pose proof (N.div_mod n 1024 ltac:(lia)) as E.
    rewrite (N.mul_comm (n / 1024)). symmetry. exact E.
  - exact Hm.
  - intros i Hi. now apply N.mul_pow2_bits_low.
Qed.

Lemma scanstring_ESCAPE_DCT (c : char) (e r acc : str) :
  ESCAPE_DCT c = Some e -> scanstring (e ++ r) acc = scanstring r (c :: acc).
Proof.
  unfold ESCAPE_DCT.
  destruct (N.eqb_spec c 92) as [->|N92];
    [intros [= <-]; now apply scanstring_named|].
  destruct (N.eqb_spec c 34) as [->|N34];
    [intros [= <-]; now apply scanstring_named|].
  destruct (N.eqb_spec c 8) as [->|N8];
    [intros [= <-]; now apply scanstring_named|].
  destruct (N.eqb_spec c 12) as [->|N12];
    [intros [= <-]; now apply scanstring_named|].
  destruct (N.eqb_spec c 10) as [->|N10];
    [intros [= <-]; now apply scanstring_named|].
  destruct (N.eqb_spec c 13) as [->|N13];
    [intros [= <-]; now apply scanstring_named|].
  destruct (N.eqb_spec c 9) as [->|N9];
    [intros [= <-]; now apply scanstring_named|].
  destruct (N.ltb_spec c 32) as [Hlt|Hge]; [|discriminate].
  intros [= <-]. apply scanstring_u_escape; [lia|].
  unfold is_high_surrogate.
  destruct (N.leb_spec 55296 c); [lia | reflexivity].
Qed.

Lemma ESCAPE_DCT_None (c : char) :
  ESCAPE_DCT c = None ->
  (c =? QUOTE)%N = false /\ (c <? 32)%N = false /\ (c =? BACKSLASH)%N = false.
Proof.
  unfold ESCAPE_DCT, QUOTE, BACKSLASH.
  destruct (c =? 92)%N; [discriminate|].
  destruct (c =? 34)%N; [discriminate|].
  destruct (c =? 8)%N; [discriminate|].
  destruct (c =? 12)%N; [discriminate|].
  destruct (c =? 10)%N; [discriminate|].
  destruct (c =? 13)%N; [discriminate|].
  destruct (c =? 9)%N; [discriminate|].
  destruct (c <? 32)%N; [discriminate|].
  auto.
Qed.

Lemma scanstring_escape_char (c : char) (r acc : str) :
  scanstring (escape_char c ++ r) acc = scanstring r (c :: acc).
Proof.
  unfold escape_char.
  destruct (ESCAPE_DCT c) as [e|] eqn:E.
  - now apply scanstring_ESCAPE_DCT.
  - destruct (ESCAPE_DCT_None c E) as (H1 & H2 & H3).
    now apply scanstring_raw.
Qed.

Lemma scanstring_escape_char_ascii (c : char) (r acc : str) :
  scalar_value c = true ->
  scanstring (escape_char_ascii c ++ r) acc = scanstring r (c :: acc).
Proof.
  intros Hc. unfold scalar_value in Hc.
  apply andb_true_iff in Hc. destruct Hc as [Hmax Hsur].
  apply N.ltb_lt in Hmax. apply negb_true_iff in Hsur.
  unfold escape_char_ascii.
  destruct ((c =? 92)%N || (c =? 34)%N || negb ((32 <=? c)%N && (c <=? 126)%N)) eqn:Hesc.
  - destruct (ESCAPE_DCT c) as [e|] eqn:E; [now apply scanstring_ESCAPE_DCT|].
    destruct (N.ltb_spec c 65536) as [Hlow|Hhigh].
    + apply scanstring_u_escape; [assumption|].
      unfold is_high_surrogate.
      destruct (N.leb_spec 55296 c) as [H1|H1]; [|reflexivity].
      destruct (N.leb_spec c 56319) as [H2|H2]; [|reflexivity].
      exfalso.
      destruct (N.leb_spec 55296 c); [|lia].
      destruct (N.leb_spec c 57343); [discriminate | lia].
    + destruct (surrogate_halves c ltac:(lia)) as [E1 E2].
      cbv zeta in E1, E2. cbv zeta. rewrite E1, E2.
      set (n := (c - 65536)%N).
      assert (Hn : (n < 1048576)%N) by (subst n; lia).
      assert (Hq : (n / 1024 < 1024)%N) by (apply N.Div0.div_lt_upper_bound; lia).
      assert (Hm : (n mod 1024 < 1024)%N) by (apply N.mod_lt; lia).
      assert (Hc : join_surrogates (55296 + n / 1024) (56320 + n mod 1024) = c)
        by (rewrite join_surrogate_halves by assumption; subst n; lia).
      rewrite <- Hc. clear Hc.
      generalize dependent (n / 1024)%N. generalize dependent (n mod 1024)%N.
      intros m Hm q Hq. rewrite <- app_assoc.
      unfold u_escape. cbn [app].
      apply scanstring_pair.
      * apply hex4_u_escape. lia.
      * unfold is_high_surrogate.
        destruct (N.leb_spec 55296 (55296 + q)); [|lia].
        destruct (N.leb_spec (55296 + q) 56319); [reflexivity | lia].
      * apply hex4_u_escape. lia.
      * unfold is_low_surrogate.
        destruct (N.leb_spec 56320 (56320 + m)); [|lia].
        destruct (N.leb_spec (56320 + m) 57343); [reflexivity | lia].
  - apply orb_false_iff in Hesc. destruct Hesc as [Hesc H3].
    apply orb_false_iff in Hesc. destruct Hesc as [H1 H2].
    apply negb_false_iff, andb_true_iff in H3. destruct H3 as [H3 H4].
    apply N.leb_le in H3.
    apply scanstring_raw; [exact H2 | | exact H1].
    apply N.ltb_ge. exact H3.
Qed.

Lemma scanstring_flat_map (esc : char -> str) (s : str) :
  (forall c r acc, In c s -> scanstring (esc c ++ r) acc = scanstring r (c :: acc)) ->
  forall r acc,
    scanstring (flat_map esc s ++ QUOTE :: r) acc = Some (rev acc ++ s, r).
Proof.
  induction s as [|c s IH]; intros Hesc r acc.
  - cbn [flat_map app scanstring]. change (QUOTE =? QUOTE)%N with true.
    cbv iota. now rewrite app_nil_r.
  - cbn [flat_map]. rewrite <- app_assoc, Hesc by (left; reflexivity).
    rewrite IH by (intros; apply Hesc; right; assumption).
    cbn [rev]. now rewrite <- app_assoc.
Qed.

(** Reading back an encoded string, from the character after its opening
    quote on. *)
Lemma scanstring_encode (ensure_ascii : bool) (s r : str) :
  well_formed s = true ->
  exists body,
    (if ensure_ascii then encode_basestring_ascii s else encode_basestring s)
    = QUOTE :: body
    /\ scanstring (body ++ r) [] = Some (s, r).
Proof.
  intros Hs. unfold well_formed in Hs. rewrite forallb_forall in Hs.
  destruct ensure_ascii.
  - exists (flat_map escape_char_ascii s ++ [QUOTE]). split; [reflexivity|].
    rewrite <- app_assoc. cbn [app].
    apply (scanstring_flat_map escape_char_ascii s).
    intros c r' acc Hin. apply scanstring_escape_char_ascii. now apply Hs.
  - exists (flat_map escape_char s ++ [QUOTE]). split; [reflexivity|].
    rewrite <- app_assoc. cbn [app].
    apply (scanstring_flat_map escape_char s).
    intros c r' acc Hin. apply scanstring_escape_char.
Qed.

(** *** Integers *)

Lemma to_uint_head (p : positive) :
  match Pos.to_uint p with
  | Decimal.Nil | Decimal.D0 _ => False
  | _ => True
  end.
Proof.
  pose proof (DecimalPos.Unsigned.to_of (Pos.to_uint p)) as H.
  rewrite DecimalPos.Unsigned.of_to in H. cbn [N.to_uint] in H.
  pose proof (DecimalPos.Unsigned.to_uint_nonzero p) as Hnz.
  pose proof (DecimalPos.Unsigned.to_uint_nonnil p) as Hnn.
  destruct (Pos.to_uint p) as [|l|l|l|l|l|l|l|l|l|l]; try exact I.
  - now apply Hnn.
  - rewrite DecimalFacts.unorm_D0 in H. unfold Decimal.unorm in H.
    destruct (Decimal.nzhead l) eqn:E.
    + apply Hnz. congruence.
    + exfalso. apply (DecimalFacts.nzhead_nonzero l l). congruence.
    + discriminate. + discriminate. + discriminate. + discriminate.
    + discriminate. + discriminate. + discriminate. + discriminate.
    + discriminate.
Qed.

Lemma digits_value_acc (d : Decimal.uint) (acc : positive) :
  fold_left (fun (acc : Z) (c : char) => (acc * 10 + Z.of_N (c - 48))%Z)
            (u (NilEmpty.string_of_uint d)) (Z.pos acc)
  = Z.pos (Pos.of_uint_acc d acc).
Proof.
  revert acc.
  induction d; intros acc; cbn [NilEmpty.string_of_uint Pos.of_uint_acc];
    try reflexivity.
  all: change (u (String ?a ?s)) with (N_of_ascii a :: u s).
  all: cbn [fold_left]; rewrite <- IHd; f_equal.
  all: match goal with |- (_ + Z.of_N ?x)%Z = _ => let y := eval vm_compute in x in change x with y end.
  all: lia.
Qed.

Lemma digits_value_of_uint (d : Decimal.uint) :
  digits_value (u (NilEmpty.string_of_uint d)) = Z.of_N (Pos.of_uint d).
Proof.
  unfold digits_value.
  induction d; cbn [NilEmpty.string_of_uint Pos.of_uint]; try reflexivity.
  all: change (u (String ?a ?s)) with (N_of_ascii a :: u s).
  all: cbn [fold_left].
  all: match goal with
       | |- context [(0 * 10 + Z.of_N ?x)%Z] =>
           let y := eval vm_compute in (0 * 10 + Z.of_N x)%Z in
           change (0 * 10 + Z.of_N x)%Z with y
       end.
  all: try exact IHd.
  all: apply digits_value_acc.
Qed.

Lemma string_of_uint_digits (d : Decimal.uint) :
  forallb is_digit (u (NilEmpty.string_of_uint d)) = true.
Proof.
  induction d; cbn [NilEmpty.string_of_uint]; try reflexivity.
  all: change (u (String ?a ?s)) with (N_of_ascii a :: u s).
  all: cbn [forallb]; rewrite IHd; reflexivity.
Qed.

Lemma delimited_not_digit (r : str) :
  delimited r = true ->
  match r with
  | [] => True
  | c :: _ => is_digit c = false /\ (c =? 46)%N = false
              /\ (c =? 101)%N = false /\ (c =? 69)%N = false
              /\ ws_char c || (c =? 44)%N || (c =? 93)%N || (c =? 125)%N = true
  end.
Proof.
  destruct r as [|c r]; [trivial|]. unfold delimited, is_digit, ws_char.
  intros H.
  destruct (N.eqb_spec c 44) as [->|]; [repeat split; reflexivity|].
  destruct (N.eqb_spec c 93) as [->|]; [repeat split; reflexivity|].
  destruct (N.eqb_spec c 125) as [->|]; [repeat split; reflexivity|].
  destruct (N.eqb_spec c 10) as [->|]; [repeat split; reflexivity|].
  discriminate.
Qed.

Lemma span_digits_app (d r : str) :
  forallb is_digit d = true -> delimited r = true ->
  span_digits (d ++ r) = (d, r).
Proof.
  intros Hd Hr. induction d as [|c d IH].
  - cbn [app]. apply delimited_not_digit in Hr.
    destruct r as [|c r]; [reflexivity|].
    destruct Hr as (H & _). cbn [span_digits]. now rewrite H.
  - cbn [forallb] in Hd. apply andb_true_iff in Hd. destruct Hd as [Hc Hd].
    cbn [app span_digits]. rewrite Hc, (IH Hd). reflexivity.
Qed.

Lemma match_frac_delimited (r : str) : delimited r = true -> match_frac r = ([], r).
Proof.
  intros Hr. apply delimited_not_digit in Hr.
  destruct r as [|c r]; [reflexivity|].
  destruct Hr as (_ & H & _). unfold match_frac. now rewrite H.
Qed.

Lemma match_exp_delimited (r : str) : delimited r = true -> match_exp r = ([], r).
Proof.
  intros Hr. apply delimited_not_digit in Hr.
  destruct r as [|c r]; [reflexivity|].
  destruct Hr as (_ & _ & H1 & H2 & _). unfold match_exp. now rewrite H1, H2.
Qed.

(** The digits of a positive number, as characters: a digit that is not
    zero, then digits; their value is the number. *)
Lemma positive_digits (p : positive) :
  exists c ds,
    u (NilZero.string_of_uint (Pos.to_uint p)) = c :: ds
    /\ is_digit c = true /\ (c =? 48)%N = false /\ (c =? 45)%N = false
    /\ forallb is_digit ds = true
    /\ digits_value (c :: ds) = Z.pos p.
Proof.
  pose proof (to_uint_head p) as Hhead.
  pose proof (digits_value_of_uint (Pos.to_uint p)) as Hval.
  rewrite DecimalPos.Unsigned.of_to in Hval.
  pose proof (string_of_uint_digits (Pos.to_uint p)) as Hdig.
  assert (Hnz : NilZero.string_of_uint (Pos.to_uint p)
                = NilEmpty.string_of_uint (Pos.to_uint p)).
  { destruct (Pos.to_uint p); [destruct Hhead | reflexivity ..]. }
  rewrite Hnz. clear Hnz.
  destruct (Pos.to_uint p) as [|l|l|l|l|l|l|l|l|l|l]; try (now destruct Hhead).
  all: cbn [NilEmpty.string_of_uint] in *.
  all: change (u (String ?a ?s)) with (N_of_ascii a :: u s) in *.
  all: cbn [forallb] in Hdig; apply andb_true_iff in Hdig; destruct Hdig as [Hc Hds].
  all: eexists; eexists; split; [reflexivity|].
  all: repeat split; try reflexivity; assumption.
Qed.

Lemma match_integer_digits (neg : bool) (c : char) (ds r : str) :
  is_digit c = true -> (c =? 48)%N = false -> (c =? 45)%N = false ->
  forallb is_digit ds = true -> delimited r = true ->
  match_integer ((if neg then [45%N] else []) ++ c :: ds ++ r)
  = Some (neg, c :: ds, r).
Proof.
  intros Hc H48 H45 Hds Hr. unfold match_integer.
  destruct neg; cbn [app].
  - change (45 =? 45)%N with true. cbv iota.
    now rewrite H48, Hc, (span_digits_app ds r Hds Hr).
  - rewrite H45, H48, Hc, (span_digits_app ds r Hds Hr). reflexivity.
Qed.

Lemma match_number_int (z : Z) (r : str) :
  delimited r = true -> match_number (int_repr z ++ r) = Some (JInt z, r).
Proof.
  intros Hr. unfold int_repr, TrainingService.str_of_Z.
  destruct z as [|p|p]; cbn [Z.to_int NilZero.string_of_int].
  - change (u (NilZero.string_of_uint (Decimal.D0 Decimal.Nil))) with [48%N].
    unfold match_number.
    change (match_integer ([48%N] ++ r)) with (Some (false, [48%N], r)).
    cbv iota beta.
    rewrite (match_frac_delimited r Hr), (match_exp_delimited r Hr). reflexivity.
  - destruct (positive_digits p) as (c & ds & E & Hc & H48 & H45 & Hds & Hval).
    rewrite E. unfold match_number.
    pose proof (match_integer_digits false c ds r Hc H48 H45 Hds Hr) as Hm.
    cbn [app] in Hm |- *. rewrite Hm.
    cbv iota beta.
    rewrite (match_frac_delimited r Hr), (match_exp_delimited r Hr).
    now rewrite Hval.
  - destruct (positive_digits p) as (c & ds & E & Hc & H48 & H45 & Hds & Hval).
    change (u (String "-" ?s)) with (45%N :: u s).
    rewrite E. unfold match_number.
    pose proof (match_integer_digits true c ds r Hc H48 H45 Hds Hr) as Hm.
    match goal with
    | |- context [match_integer ?a] =>
        replace (match_integer a) with (Some (true, c :: ds, r))
          by (symmetry; exact Hm)
    end.
    cbv iota beta.
    rewrite (match_frac_delimited r Hr), (match_exp_delimited r Hr).
    now rewrite Hval.
Qed.

(** *** The decoder reads back what the encoder wrote *)

(** More budget does not change an answer. *)
Lemma scan_fuel_mono (fuel : nat) :
  (forall s r fuel', scan_once fuel s = r -> r <> OutOfFuel -> (fuel <= fuel')%nat ->
                     scan_once fuel' s = r)
  /\ (forall s pairs r fuel', object_members fuel s pairs = r -> r <> OutOfFuel ->
                              (fuel <= fuel')%nat -> object_members fuel' s pairs = r)
  /\ (forall s items r fuel', array_items fuel s items = r -> r <> OutOfFuel ->
                              (fuel <= fuel')%nat -> array_items fuel' s items = r).
Proof.
  induction fuel as [|n (IHv & IHo & IHa)];
    [repeat split; intros; cbn in *; congruence|].
  split; [|split].
  - intros [|c s] r [|n'] H Hr Hle; try lia; revert H; cbn [scan_once]; [trivial|].
    destruct (c =? QUOTE)%N; [trivial|].
    destruct (c =? 123)%N.
    { destruct (skip_ws s) as [|c1 r1]; [trivial|].
      destruct (c1 =? 125)%N; [trivial|].
      destruct (c1 =? QUOTE)%N; [|trivial].
      intros H. apply (IHo _ _ _ _ H Hr). lia. }
    destruct (c =? 91)%N.
    { destruct (skip_ws s) as [|c1 r1]; [trivial|].
      destruct (c1 =? 93)%N; [trivial|].
      intros H. apply (IHa _ _ _ _ H Hr). lia. }
    trivial.
  - intros s pairs r [|n'] H Hr Hle; try lia; revert H; cbn [object_members].
    destruct (scanstring s []) as [[key s1]|]; [|trivial].
    destruct (skip_ws s1) as [|c s2]; [trivial|].
    destruct (c =? 58)%N; [|trivial].
    destruct (scan_once n (skip_ws s2)) as [[v1 s3]| |] eqn:Hv.
    + rewrite (IHv _ _ n' Hv ltac:(discriminate) ltac:(lia)).
      destruct (skip_ws s3) as [|c' s4]; [trivial|].
      destruct (c' =? 125)%N; [trivial|].
      destruct (c' =? 44)%N; [|trivial].
      destruct (skip_ws s4) as [|q s5]; [trivial|].
      destruct (q =? QUOTE)%N; [|trivial].
      intros H. apply (IHo _ _ _ _ H Hr). lia.
    + rewrite (IHv _ _ n' Hv ltac:(discriminate) ltac:(lia)). trivial.
    + intros <-. now destruct Hr.
  - intros s items r [|n'] H Hr Hle; try lia; revert H; cbn [array_items].
    destruct (scan_once n s) as [[v1 s1]| |] eqn:Hv.
    + rewrite (IHv _ _ n' Hv ltac:(discriminate) ltac:(lia)).
      destruct (skip_ws s1) as [|c s2]; [trivial|].
      destruct (c =? 93)%N; [trivial|].
      destruct (c =? 44)%N; [|trivial].
      intros H. apply (IHa _ _ _ _ H Hr). lia.
    + rewrite (IHv _ _ n' Hv ltac:(discriminate) ltac:(lia)). trivial.
    + intros <-. now destruct Hr.
Qed.

Lemma scan_once_mono (f f' : nat) (s : str) (x : Json.t * str) :
  scan_once f s = Scanned x -> (f <= f')%nat -> scan_once f' s = Scanned x.
Proof.
  intros H Hle. apply (proj1 (scan_fuel_mono f) s _ f' H); [discriminate | exact Hle].
Qed.

Lemma array_items_mono (f f' : nat) (s : str) (items : list Json.t) (x : Json.t * str) :
  array_items f s items = Scanned x -> (f <= f')%nat ->
  array_items f' s items = Scanned x.
Proof.
  intros H Hle.
  apply (proj2 (proj2 (scan_fuel_mono f)) s items _ f' H); [discriminate | exact Hle].
Qed.

Lemma object_members_mono (f f' : nat) (s : str) (pairs : list (str * Json.t))
      (x : Json.t * str) :
  object_members f s pairs = Scanned x -> (f <= f')%nat ->
  object_members f' s pairs = Scanned x.
Proof.
  intros H Hle.
  apply (proj1 (proj2 (scan_fuel_mono f)) s pairs _ f' H); [discriminate | exact Hle].
Qed.

(** Induction on a value, with the hypothesis for every item and every
    member. *)
Lemma value_ind (P : Json.t -> Prop) :
  P JNull -> (forall b, P (JBool b)) -> (forall z, P (JInt z)) ->
  (forall x, P (JFloat x)) -> (forall s, P (JStr s)) ->
  (forall items, Forall P items -> P (JArr items)) ->
  (forall pairs, Forall (fun kv => P (snd kv)) pairs -> P (JObj pairs)) ->
  forall v, P v.
Proof.
  intros Hnull Hbool Hint Hfloat Hstr Harr Hobj.
  fix IH 1. intros [| b | z | x | s | items | pairs].
  - exact Hnull.
  - apply Hbool.
  - apply Hint.
  - apply Hfloat.
  - apply Hstr.
  - apply Harr. induction items as [|v items IHitems]; constructor.
    + apply IH.
    + exact IHitems.
  - apply Hobj. induction pairs as [|[k v] pairs IHpairs]; constructor.
    + apply IH.
    + exact IHpairs.
Qed.

Lemma skip_ws_blank (b x : str) :
  forallb ws_char b = true -> skip_ws (b ++ x) = skip_ws x.
Proof.
  induction b as [|c b IH]; [reflexivity|].
  cbn [forallb]. intros H. apply andb_true_iff in H. destruct H as [Hc Hb].
  cbn [app skip_ws]. rewrite Hc. now apply IH.
Qed.

Lemma skip_ws_head (c : char) (r : str) :
  ws_char c = false -> skip_ws (c :: r) = c :: r.
Proof. intros H. cbn [skip_ws]. now rewrite H. Qed.

Lemma join_cons (sep p x : str) (ps : list str) :
  join sep (p :: ps) ++ x
  = p ++ match ps with
         | [] => x
         | _ :: _ => sep ++ join sep ps ++ x
         end.
Proof.
  destruct ps as [|q ps]; [reflexivity|].
  cbn [join]. now rewrite <- !app_assoc.
Qed.

Lemma dict_set_fresh (k : str) (v : Json.t) (d : list (str * Json.t)) :
  existsb (Py.eqb k) (List.map fst d) = false -> dict_set k v d = d ++ [(k, v)].
Proof.
  induction d as [|[k' v'] d IH]; [reflexivity|].
  cbn [List.map fst existsb dict_set app]. intros H.
  apply orb_false_iff in H. destruct H as [H1 H2].
  rewrite H1. now rewrite IH.
Qed.

Lemma existsb_eqb_app (k : str) (a b : list str) :
  existsb (Py.eqb k) (a ++ b) = existsb (Py.eqb k) a || existsb (Py.eqb k) b.
Proof. apply existsb_app. Qed.

Lemma dict_distinct_from (pairs acc : list (str * Json.t)) :
  distinct (List.map fst (acc ++ pairs)) = true ->
  fold_left (fun d kv => dict_set (fst kv) (snd kv) d) pairs acc = acc ++ pairs.
Proof.
  revert acc. induction pairs as [|[k v] pairs IH]; intros acc Hd.
  - cbn [fold_left]. now rewrite app_nil_r.
  - cbn [fold_left fst snd].
    assert (Hfresh : existsb (Py.eqb k) (List.map fst acc) = false).
    { clear IH. induction acc as [|[k' v'] acc IHacc]; [reflexivity|].
      cbn [app List.map fst distinct] in Hd.
      apply andb_true_iff in Hd. destruct Hd as [Hk' Hd].
      cbn [List.map fst existsb]. rewrite (IHacc Hd), orb_false_r.
      apply negb_true_iff in Hk'.
      rewrite map_app, existsb_app in Hk'. apply orb_false_iff in Hk'.
      destruct Hk' as [_ Hk']. cbn [List.map fst existsb] in Hk'.
      apply orb_false_iff in Hk'. destruct Hk' as [Hk' _].
      destruct (Py.eqb k k') eqn:E; [|reflexivity].
      apply StreamFacts.py_eqb_eq in E. subst k'.
      assert (Py.eqb k k = true) by now apply StreamFacts.py_eqb_eq.
      congruence. }
    rewrite (dict_set_fresh k v acc Hfresh).
    rewrite IH; rewrite <- app_assoc; [reflexivity | exact Hd].
Qed.

Lemma dict_distinct (pairs : list (str * Json.t)) :
  distinct (List.map fst pairs) = true -> dict pairs = pairs.
Proof. intros H. unfold dict. now rewrite (dict_distinct_from pairs []). Qed.

Section ReadBack.

Variable ensure_ascii : bool.
Variable indent : option nat.
Variable floatstr : str -> str.

Let e : encoder := JSONEncoder ensure_ascii indent floatstr.

Lemma newline_indent_blank (level : nat) :
  forallb ws_char (newline_indent e level) = true.
Proof.
  unfold newline_indent, e, JSONEncoder. cbn [_indent].
  destruct indent as [n|]; [|reflexivity].
  cbn [option_map forallb]. change (ws_char 10%N) with true. cbn [andb].
  induction level as [|l IH]; [reflexivity|].
  cbn [List.repeat List.concat]. rewrite forallb_app, IH, andb_true_r.
  clear. induction n as [|n IH]; [reflexivity|].
  cbn [List.repeat forallb]. now rewrite IH.
Qed.

Lemma newline_indent_delimited (level : nat) (c : char) (r : str) :
  (c =? 93)%N || (c =? 125)%N = true ->
  delimited (newline_indent e level ++ c :: r) = true.
Proof.
  intros Hc. unfold newline_indent, e, JSONEncoder. cbn [_indent].
  destruct indent as [n|]; [reflexivity|].
  cbn [option_map app delimited].
  apply orb_true_iff in Hc. destruct Hc as [->| ->];
    rewrite ?orb_true_r; reflexivity.
Qed.

Lemma item_separator_shape :
  exists b, _item_separator e = 44%N :: b /\ forallb ws_char b = true.
Proof.
  unfold e, JSONEncoder. cbn [_item_separator].
  destruct indent; [exists [] | exists [32%N]]; split; reflexivity.
Qed.

Lemma encoder_reads_back (s r : str) :
  well_formed s = true ->
  exists body, _encoder e s = QUOTE :: body
               /\ scanstring (body ++ r) [] = Some (s, r).
Proof.
  intros Hs. pose proof (scanstring_encode ensure_ascii s r Hs) as H.
  unfold e, JSONEncoder. cbn [_encoder]. destruct ensure_ascii; exact H.
Qed.

(** An encoded value starts with a character that is neither white space
    nor a closing bracket or brace. *)
Lemma iterencode_head (v : Json.t) (level : nat) :
  exact v = true ->
  exists c r, _iterencode e v level = c :: r
              /\ ws_char c = false /\ (c =? 93)%N = false /\ (c =? 125)%N = false.
Proof.
  intros Hv. destruct v as [| [|] | z | x | s | items | pairs]; cbn [exact] in Hv.
  - eexists; eexists; split; [reflexivity|]. repeat split; reflexivity.
  - eexists; eexists; split; [reflexivity|]. repeat split; reflexivity.
  - eexists; eexists; split; [reflexivity|]. repeat split; reflexivity.
  - cbn [_iterencode]. unfold int_repr, TrainingService.str_of_Z.
    destruct z as [|p|p]; cbn [Z.to_int NilZero.string_of_int].
    + eexists; eexists; split; [reflexivity|]. repeat split; reflexivity.
    + destruct (positive_digits p) as (c & ds & E & Hc & H48 & H45 & Hds & Hval).
      rewrite E. exists c, ds. split; [reflexivity|].
      unfold is_digit in Hc. apply andb_true_iff in Hc. destruct Hc as [H1 H2].
      apply N.leb_le in H1. apply N.leb_le in H2. unfold ws_char.
      repeat split;
        repeat match goal with
               | |- context [(c =? ?k)%N] => destruct (N.eqb_spec c k); [lia|]
               end; reflexivity.
    + change (u (String "-" ?s)) with (45%N :: u s).
      eexists; eexists; split; [reflexivity|]. repeat split; reflexivity.
  - discriminate.
  - cbn [_iterencode]. destruct (encoder_reads_back s [] Hv) as (body & E & _).
    rewrite E. exists QUOTE, body. repeat split; reflexivity.
  - destruct items; eexists; eexists; (split; [reflexivity|]);
      repeat split; reflexivity.
  - destruct pairs; eexists; eexists; (split; [reflexivity|]);
      repeat split; reflexivity.
Qed.

Lemma digit_not_space (c : char) : is_digit c = true -> isspace c = false.
Proof.
  unfold is_digit. intros H. apply andb_true_iff in H. destruct H as [H1 H2].
  apply N.leb_le in H1. apply N.leb_le in H2. unfold isspace.
  repeat match goal with
         | |- context [(?a <=? ?b)%N] => destruct (N.leb_spec a b); try lia
         | |- context [(?a =? ?b)%N] => destruct (N.eqb_spec a b); try lia
         end; reflexivity.
Qed.

(** An encoded value starts with a character that Python does not count
    as white space either. *)
Lemma iterencode_head_not_space (v : Json.t) (level : nat) :
  exact v = true ->
  exists c r, _iterencode e v level = c :: r /\ isspace c = false.
Proof.
  intros Hv. destruct v as [| [|] | z | x | s | items | pairs]; cbn [exact] in Hv.
  - eexists; eexists; split; reflexivity.
  - eexists; eexists; split; reflexivity.
  - eexists; eexists; split; reflexivity.
  - cbn [_iterencode]. unfold int_repr, TrainingService.str_of_Z.
    destruct z as [|p|p]; cbn [Z.to_int NilZero.string_of_int].
    + eexists; eexists; split; reflexivity.
    + destruct (positive_digits p) as (c & ds & E & Hc & _).
      rewrite E. exists c, ds. split; [reflexivity | now apply digit_not_space].
    + change (u (String "-" ?s)) with (45%N :: u s).
      eexists; eexists; split; reflexivity.
  - discriminate.
  - cbn [_iterencode]. destruct (encoder_reads_back s [] Hv) as (body & E & _).
    rewrite E. exists QUOTE, body. split; reflexivity.
  - destruct items; eexists; eexists; split; reflexivity.
  - destruct pairs; eexists; eexists; split; reflexivity.
Qed.

Lemma skip_ws_iterencode (v : Json.t) (level : nat) (r : str) :
  exact v = true -> skip_ws (_iterencode e v level ++ r) = _iterencode e v level ++ r.
Proof.
  intros Hv. destruct (iterencode_head v level Hv) as (c & r' & E & Hc & _).
  rewrite E. cbn [app]. now apply skip_ws_head.
Qed.

Lemma reads_null (r : str) : reads (u "null" ++ r) JNull r.
Proof. exists 1%nat. reflexivity. Qed.

Lemma reads_true (r : str) : reads (u "true" ++ r) (JBool true) r.
Proof. exists 1%nat. reflexivity. Qed.

Lemma reads_false (r : str) : reads (u "false" ++ r) (JBool false) r.
Proof. exists 1%nat. reflexivity. Qed.

Lemma reads_int (z : Z) (r : str) :
  delimited r = true -> reads (int_repr z ++ r) (JInt z) r.
Proof.
  intros Hr. exists 1%nat.
  pose proof (match_number_int z r Hr) as Hnum.
  destruct (iterencode_head (JInt z) 0 eq_refl) as (c & r' & E & _).
  cbn [_iterencode] in E.
  assert (Hc : is_digit c = true \/ c = 45%N).
  { unfold int_repr, TrainingService.str_of_Z in E.
    destruct z as [|p|p]; cbn [Z.to_int NilZero.string_of_int] in E.
    - injection E as <- _. left. reflexivity.
    - destruct (positive_digits p) as (c' & ds & E' & Hc' & _).
      rewrite E' in E. injection E as <- _. left. exact Hc'.
    - change (u (String "-" ?s)) with (45%N :: u s) in E.
      injection E as <- _. right. reflexivity. }
  rewrite E in *. cbn [app] in *. cbn [scan_once].
  assert (Hq : (c =? QUOTE)%N = false /\ (c =? 123)%N = false /\ (c =? 91)%N = false
               /\ (110 =? c)%N = false /\ (116 =? c)%N = false /\ (102 =? c)%N = false).
  { destruct Hc as [Hc| ->]; [|repeat split; reflexivity].
    unfold is_digit in Hc. apply andb_true_iff in Hc. destruct Hc as [H1 H2].
    apply N.leb_le in H1. apply N.leb_le in H2. unfold QUOTE.
    repeat split;
      match goal with
      | |- (?a =? ?b)%N = false => destruct (N.eqb_spec a b); [lia | reflexivity]
      end. }
  destruct Hq as (H1 & H2 & H3 & H4 & H5 & H6).
  rewrite H1, H2, H3.
  unfold literal at 1 2 3.
  change (u "null") with [110; 117; 108; 108]%N.
  change (u "true") with [116; 114; 117; 101]%N.
  change (u "false") with [102; 97; 108; 115; 101]%N.
  cbn [startswith]. rewrite H4, H5, H6. cbn [andb first_some].
  rewrite Hnum. reflexivity.
Qed.

(** The item loop of the decoder on the items the encoder wrote. *)
Lemma reads_items (level : nat) (rest : str) (items : list Json.t) :
  Forall (fun v => exact v = true ->
                   forall level r, delimited r = true ->
                                   reads (_iterencode e v level ++ r) v r) items ->
  forallb exact items = true -> items <> [] ->
  forall acc,
  exists fuel,
    array_items fuel
      (join (_item_separator e ++ newline_indent e (S level))
            (List.map (fun x => _iterencode e x (S level)) items)
       ++ newline_indent e level ++ 93%N :: rest) acc
    = Scanned (JArr (rev acc ++ items), rest).
Proof.
  destruct item_separator_shape as (b & Hsep & Hb).
  induction items as [|v items IH]; intros HP Hex Hne acc; [now destruct Hne|].
  inversion HP as [|? ? Hv HPitems]; subst.
  cbn [forallb] in Hex. apply andb_true_iff in Hex. destruct Hex as [Hexv Hexs].
  cbn [List.map]. rewrite join_cons.
  destruct items as [|v2 items].
  - cbn [List.map].
    destruct (Hv Hexv (S level) (newline_indent e level ++ 93%N :: rest)
                 (newline_indent_delimited level 93%N rest eq_refl)) as (f & Hf).
    exists (S f). cbn [array_items]. rewrite Hf.
    rewrite (skip_ws_blank _ _ (newline_indent_blank level)).
    rewrite skip_ws_head by reflexivity.
    change (93 =? 93)%N with true. cbv iota. cbn [rev]. reflexivity.
  - specialize (IH HPitems Hexs ltac:(discriminate) (v :: acc)).
    destruct IH as (f2 & Hf2).
    set (tail := join (_item_separator e ++ newline_indent e (S level))
                      (List.map (fun x => _iterencode e x (S level)) (v2 :: items))
                 ++ newline_indent e level ++ 93%N :: rest) in *.
    assert (Hdel : delimited ((_item_separator e ++ newline_indent e (S level)) ++ tail)
                   = true).
    { rewrite Hsep. reflexivity. }
    destruct (Hv Hexv (S level) _ Hdel) as (f1 & Hf1).
    exists (S (Nat.max f1 f2)). cbn [array_items].
    rewrite (scan_once_mono f1 _ _ _ Hf1) by lia.
    rewrite Hsep. cbn [app]. rewrite skip_ws_head by reflexivity.
    change (44 =? 93)%N with false. change (44 =? 44)%N with true. cbv iota.
    rewrite <- app_assoc.
    rewrite (skip_ws_blank b _ Hb).
    rewrite (skip_ws_blank _ _ (newline_indent_blank (S level))).
    assert (Htail : skip_ws tail = tail).
    { subst tail. cbn [List.map]. rewrite join_cons.
      apply skip_ws_iterencode.
      cbn [forallb] in Hexs. apply andb_true_iff in Hexs. tauto. }
    rewrite Htail.
    rewrite (array_items_mono f2 _ _ _ _ Hf2) by lia.
    cbn [rev]. now rewrite <- app_assoc.
Qed.

Lemma skip_ws_space (x : str) : skip_ws (32%N :: x) = skip_ws x.
Proof. reflexivity. Qed.

Lemma key_separator_shape : _key_separator e = [58; 32]%N.
Proof. reflexivity. Qed.

(** The text of the members of an object starts with the quote of the
    first key. *)
Lemma members_head (level : nat) (x : str) (pairs : list (str * Json.t)) :
  forallb (fun kv : str * Json.t => let (k, v) := kv in well_formed k && exact v) pairs
  = true ->
  pairs <> [] ->
  exists tailq,
    join (_item_separator e ++ newline_indent e (S level))
         (List.map (fun kv : str * Json.t =>
                      let (k, v) := kv in
                      _encoder e k ++ _key_separator e ++ _iterencode e v (S level))
                   pairs) ++ x
    = QUOTE :: tailq.
Proof.
  intros Hex Hne. destruct pairs as [|[k v] pairs]; [now destruct Hne|].
  cbn [forallb] in Hex. apply andb_true_iff in Hex. destruct Hex as [Hkv _].
  apply andb_true_iff in Hkv. destruct Hkv as [Hk _].
  destruct (encoder_reads_back k [] Hk) as (body & E & _).
  cbn [List.map]. rewrite join_cons, E. cbn [app]. eexists. reflexivity.
Qed.

(** The member loop of the decoder on the members the encoder wrote. *)
Lemma reads_members (level : nat) (rest : str) (pairs : list (str * Json.t)) :
  Forall (fun kv => exact (snd kv) = true ->
                    forall level r, delimited r = true ->
                                    reads (_iterencode e (snd kv) level ++ r) (snd kv) r)
         pairs ->
  forallb (fun kv : str * Json.t => let (k, v) := kv in well_formed k && exact v) pairs
  = true ->
  pairs <> [] ->
  forall acc,
  exists fuel,
    forall tailq,
      join (_item_separator e ++ newline_indent e (S level))
           (List.map (fun kv : str * Json.t =>
                        let (k, v) := kv in
                        _encoder e k ++ _key_separator e ++ _iterencode e v (S level))
                     pairs)
      ++ newline_indent e level ++ 125%N :: rest
      = QUOTE :: tailq ->
      object_members fuel tailq acc = Scanned (JObj (dict (rev acc ++ pairs)), rest).
Proof.
  destruct item_separator_shape as (b & Hsep & Hb).
  induction pairs as [|[k v] pairs IH]; intros HP Hex Hne acc; [now destruct Hne|].
  inversion HP as [|? ? Hv HPpairs]; subst. cbn [snd] in Hv.
  pose proof Hex as Hex0.
  cbn [forallb] in Hex. apply andb_true_iff in Hex. destruct Hex as [Hkv Hexs].
  apply andb_true_iff in Hkv. destruct Hkv as [Hk Hexv].
  cbn [List.map]. rewrite join_cons.
  set (sep := _item_separator e ++ newline_indent e (S level)) in *.
  set (enc := fun kv : str * Json.t =>
                let (k, v) := kv in
                _encoder e k ++ _key_separator e ++ _iterencode e v (S level)) in *.
  destruct pairs as [|p2 pairs].
  - set (after := newline_indent e level ++ 125%N :: rest).
    destruct (Hv Hexv (S level) after (newline_indent_delimited level 125%N rest eq_refl))
      as (f & Hf).
    exists (S f). intros tailq Htail.
    destruct (encoder_reads_back k (_key_separator e ++ _iterencode e v (S level) ++ after)
                Hk) as (body & E & Hscan).
    rewrite E in Htail. rewrite <- !app_assoc in Htail. cbn [app] in Htail.
    injection Htail as <-.
    cbn [object_members]. rewrite <- ?app_assoc.
    rewrite key_separator_shape in Hscan. cbn [app] in Hscan. rewrite Hscan.
    rewrite skip_ws_head by reflexivity.
    change (58 =? 58)%N with true. cbv iota.
    rewrite skip_ws_space.
    rewrite (skip_ws_iterencode v (S level) after Hexv), Hf.
    subst after. rewrite (skip_ws_blank _ _ (newline_indent_blank level)).
    rewrite skip_ws_head by reflexivity.
    change (125 =? 125)%N with true. cbv iota. cbn [rev]. reflexivity.
  - specialize (IH HPpairs Hexs ltac:(discriminate) ((k, v) :: acc)).
    destruct IH as (f2 & Hf2).
    set (X := join sep (List.map enc (p2 :: pairs))
              ++ newline_indent e level ++ 125%N :: rest) in *.
    assert (Hdel : delimited (sep ++ X) = true).
    { subst sep. rewrite Hsep. reflexivity. }
    destruct (Hv Hexv (S level) (sep ++ X) Hdel) as (f1 & Hf1).
    exists (S (Nat.max f1 f2)). intros tailq Htail.
    destruct (encoder_reads_back k
                (_key_separator e ++ _iterencode e v (S level) ++ sep ++ X) Hk)
      as (body & E & Hscan).
    rewrite E in Htail. rewrite <- !app_assoc in Htail. cbn [app] in Htail.
    injection Htail as <-.
    cbn [object_members]. rewrite <- ?app_assoc.
    rewrite key_separator_shape in Hscan. cbn [app] in Hscan. rewrite Hscan.
    rewrite skip_ws_head by reflexivity.
    change (58 =? 58)%N with true. cbv iota.
    rewrite skip_ws_space.
    rewrite (skip_ws_iterencode v (S level) _ Hexv).
    rewrite (scan_once_mono f1 _ _ _ Hf1) by lia.
    destruct (members_head level (newline_indent e level ++ 125%N :: rest)
                (p2 :: pairs) Hexs ltac:(discriminate)) as (tailq2 & HX).
    fold sep enc in HX. fold X in HX.
    unfold sep at 1. rewrite Hsep. cbn [app]. rewrite skip_ws_head by reflexivity.
    change (44 =? 125)%N with false. change (44 =? 44)%N with true. cbv iota.
    rewrite <- app_assoc.
    rewrite (skip_ws_blank b _ Hb).
    rewrite (skip_ws_blank _ _ (newline_indent_blank (S level))).
    rewrite HX. rewrite skip_ws_head by reflexivity.
    change (QUOTE =? QUOTE)%N with true. cbv iota.
    rewrite (object_members_mono f2 _ _ _ _ (Hf2 tailq2 HX)) by lia.
    cbn [rev]. now rewrite <- app_assoc.
Qed.

(** The decoder reads an encoded value back, whatever follows it. *)
Lemma reads_iterencode (v : Json.t) :
  exact v = true ->
  forall level r, delimited r = true -> reads (_iterencode e v level ++ r) v r.
Proof.
  induction v as [| b | z | x | s | items IH | pairs IH] using value_ind;
    intros Hex level r Hr.
  - apply reads_null.
  - destruct b; [apply reads_true | apply reads_false].
  - now apply reads_int.
  - discriminate.
  - cbn [exact] in Hex. cbn [_iterencode].
    destruct (encoder_reads_back s r Hex) as (body & E & Hscan).
    rewrite E. exists 1%nat. cbn [app scan_once].
    change (QUOTE =? QUOTE)%N with true. cbv iota. now rewrite Hscan.
  - cbn [exact] in Hex.
    destruct items as [|v items]; [exists 1%nat; reflexivity|].
    destruct (reads_items level r (v :: items) IH Hex ltac:(discriminate) [])
      as (f & Hf).
    exists (S f).
    change (_iterencode e (JArr (v :: items)) level)
      with ([91%N] ++ newline_indent e (S level)
            ++ join (_item_separator e ++ newline_indent e (S level))
                    (List.map (fun x => _iterencode e x (S level)) (v :: items))
            ++ newline_indent e level ++ [93%N]).
    rewrite <- !app_assoc. cbn [app scan_once].
    change (91 =? QUOTE)%N with false. change (91 =? 123)%N with false.
    change (91 =? 91)%N with true. cbv iota.
    rewrite (skip_ws_blank _ _ (newline_indent_blank (S level))).
    cbn [List.map] in Hf |- *. rewrite join_cons in Hf |- *.
    cbn [forallb] in Hex. apply andb_true_iff in Hex. destruct Hex as [Hexv _].
    rewrite skip_ws_iterencode by exact Hexv.
    destruct (iterencode_head v (S level) Hexv) as (c & r' & E & _ & H93 & _).
    rewrite E in Hf |- *. cbn [app] in Hf |- *. rewrite H93.
    exact Hf.
  - cbn [exact] in Hex. apply andb_true_iff in Hex. destruct Hex as [Hdist Hex].
    destruct pairs as [|p pairs]; [exists 1%nat; reflexivity|].
    destruct (reads_members level r (p :: pairs) IH Hex ltac:(discriminate) [])
      as (f & Hf).
    destruct (members_head level (newline_indent e level ++ 125%N :: r)
                (p :: pairs) Hex ltac:(discriminate)) as (tailq & HX).
    specialize (Hf tailq HX).
    exists (S f).
    change (_iterencode e (JObj (p :: pairs)) level)
      with ([123%N] ++ newline_indent e (S level)
            ++ join (_item_separator e ++ newline_indent e (S level))
                    (List.map (fun kv : str * Json.t =>
                                 let (k, v) := kv in
                                 _encoder e k ++ _key_separator e
                                 ++ _iterencode e v (S level)) (p :: pairs))
            ++ newline_indent e level ++ [125%N]).
    rewrite <- !app_assoc.
    change ([123%N] ++ ?x) with (123%N :: x). cbn [scan_once].
    change (123 =? QUOTE)%N with false. change (123 =? 123)%N with true. cbv iota.
    rewrite (skip_ws_blank _ _ (newline_indent_blank (S level))).
    change ([125%N] ++ r) with (125%N :: r).
    rewrite HX. rewrite skip_ws_head by reflexivity.
    change (QUOTE =? 125)%N with false. change (QUOTE =? QUOTE)%N with true. cbv iota.
    rewrite Hf. cbn [rev app]. now rewrite (dict_distinct _ Hdist).
Qed.

(** [json.loads(json.dumps(v))] is [v] for an exact value. *)
Lemma loads_dumps (v : Json.t) :
  exact v = true -> json_loads (dumps ensure_ascii indent floatstr v) = Ok v.
Proof.
  intros Hex. unfold dumps. fold e.
  destruct (reads_iterencode v Hex 0%nat [] eq_refl) as (f & Hf).
  pose proof (skip_ws_iterencode v 0%nat [] Hex) as Hws.
  rewrite app_nil_r in Hf, Hws.
  unfold json_loads, loads. rewrite Hws.
  set (s := _iterencode e v 0) in *.
  set (F := S (2 * List.length s)).
  assert (HF : scan_once F s = Scanned (v, [])).
  { destruct (Nat.le_gt_cases f F) as [Hle|Hgt].
    - now apply (scan_once_mono f F).
    - pose proof (proj1 (scan_fuel_enough F) s ltac:(subst F; lia)) as Hne.
      pose proof (proj1 (scan_fuel_mono F) s _ f eq_refl Hne ltac:(lia)) as Hm.
      rewrite <- Hm. exact Hf. }
  rewrite HF. reflexivity.
Qed.

Lemma dumps_head_not_space (v : Json.t) :
  exact v = true ->
  exists c r, dumps ensure_ascii indent floatstr v = c :: r /\ isspace c = false.
Proof. intros Hv. apply (iterencode_head_not_space v 0 Hv). Qed.

End ReadBack.

(** *** The characters of an encoded value *)

Lemma forallb_join (P : char -> bool) (sep : str) (parts : list str) :
  forallb P sep = true -> forallb (forallb P) parts = true ->
  forallb P (join sep parts) = true.
Proof.
  intros Hsep. induction parts as [|p parts IH]; [reflexivity|].
  cbn [forallb]. intros H. apply andb_true_iff in H. destruct H as [Hp Hps].
  destruct parts as [|q parts]; [exact Hp|].
  change (join sep (p :: q :: parts)) with (p ++ sep ++ join sep (q :: parts)).
  rewrite !forallb_app, Hp, Hsep. now rewrite IH.
Qed.

Lemma int_repr_chars (P : char -> bool) (z : Z) :
  (forall c, is_digit c = true -> P c = true) -> P 45%N = true ->
  forallb P (int_repr z) = true.
Proof.
  intros Hdigit Hminus.
  assert (Hall : forall d, forallb P (u (NilEmpty.string_of_uint d)) = true).
  { intros d. pose proof (string_of_uint_digits d) as H.
    induction (u (NilEmpty.string_of_uint d)) as [|c l IH]; [reflexivity|].
    cbn [forallb] in *. apply andb_true_iff in H. destruct H as [Hc Hl].
    now rewrite (Hdigit c Hc), IH. }
  assert (Hzero : forall d, forallb P (u (NilZero.string_of_uint d)) = true).
  { intros d. destruct d; try apply (Hall (_ d)).
    cbn. now rewrite Hdigit. }
  unfold int_repr, TrainingService.str_of_Z.
  destruct z as [|p|p]; cbn [Z.to_int NilZero.string_of_int].
  - apply Hzero.
  - apply Hzero.
  - change (u (String "-" ?s)) with (45%N :: u s).
    cbn [forallb]. now rewrite Hminus, Hzero.
Qed.

Section Characters.

Variable P : char -> bool.
Variable e : encoder.

Hypothesis P_encoder : forall s, well_formed s = true -> forallb P (_encoder e s) = true.
Hypothesis P_item : forallb P (_item_separator e) = true.
Hypothesis P_key : forallb P (_key_separator e) = true.
Hypothesis P_indent : forall level, forallb P (newline_indent e level) = true.
Hypothesis P_digit : forall c, is_digit c = true -> P c = true.
Hypothesis P_marks : forallb P (u "-[]{}nultrefas") = true.

Lemma iterencode_chars (v : Json.t) :
  exact v = true -> forall level, forallb P (_iterencode e v level) = true.
Proof.
  assert (Hm : forall m, In m (u "-[]{}nultrefas") -> P m = true).
  { intros m. revert m. apply forallb_forall. exact P_marks. }
  assert (Hlit : forall lit, forallb (fun c => existsb (N.eqb c) (u "-[]{}nultrefas")) lit
                             = true -> forallb P lit = true).
  { intros lit H. apply forallb_forall. intros c Hc.
    rewrite forallb_forall in H. specialize (H c Hc).
    apply existsb_exists in H. destruct H as (m & Hin & Heq).
    apply N.eqb_eq in Heq. subst m. now apply Hm. }
  induction v as [| b | z | x | s | items IH | pairs IH] using value_ind;
    intros Hex level.
  - now apply Hlit.
  - destruct b; now apply Hlit.
  - apply int_repr_chars; [exact P_digit|]. apply Hm. cbn. auto.
  - discriminate.
  - now apply P_encoder.
  - cbn [exact] in Hex. destruct items as [|v items]; [now apply Hlit|].
    change (_iterencode e (JArr (v :: items)) level)
      with ([91%N] ++ newline_indent e (S level)
            ++ join (_item_separator e ++ newline_indent e (S level))
                    (List.map (fun x => _iterencode e x (S level)) (v :: items))
            ++ newline_indent e level ++ [93%N]).
    rewrite !forallb_app.
    apply andb_true_iff; split; [now apply Hlit|].
    apply andb_true_iff; split; [apply P_indent|].
    apply andb_true_iff; split;
      [|apply andb_true_iff; split; [apply P_indent | now apply Hlit]].
    apply forallb_join; [now rewrite forallb_app, P_item, P_indent|].
    rewrite forallb_forall in Hex. rewrite Forall_forall in IH.
    apply forallb_forall. intros part Hpart.
    apply in_map_iff in Hpart. destruct Hpart as (x & <- & Hx).
    apply IH; [exact Hx | now apply Hex].
  - cbn [exact] in Hex. apply andb_true_iff in Hex. destruct Hex as [_ Hex].
    destruct pairs as [|p pairs]; [now apply Hlit|].
    change (_iterencode e (JObj (p :: pairs)) level)
      with ([123%N] ++ newline_indent e (S level)
            ++ join (_item_separator e ++ newline_indent e (S level))
                    (List.map (fun kv : str * Json.t =>
                                 let (k, v) := kv in
                                 _encoder e k ++ _key_separator e
                                 ++ _iterencode e v (S level)) (p :: pairs))
            ++ newline_indent e level ++ [125%N]).
    rewrite !forallb_app.
    apply andb_true_iff; split; [now apply Hlit|].
    apply andb_true_iff; split; [apply P_indent|].
    apply andb_true_iff; split;
      [|apply andb_true_iff; split; [apply P_indent | now apply Hlit]].
    apply forallb_join; [now rewrite forallb_app, P_item, P_indent|].
    rewrite forallb_forall in Hex. rewrite Forall_forall in IH.
    apply forallb_forall. intros part Hpart.
    apply in_map_iff in Hpart. destruct Hpart as ([k x] & <- & Hx).
    specialize (Hex _ Hx). cbn beta iota in Hex.
    apply andb_true_iff in Hex. destruct Hex as [Hk Hexx].
    rewrite !forallb_app, (P_encoder k Hk), P_key.
    now rewrite (IH _ Hx Hexx).
Qed.

End Characters.

Lemma hexdigit_printable (d : N) :
  (d < 16)%N -> ((32 <=? hexdigit d) && (hexdigit d <=? 126))%N = true.
Proof.
  intros H. unfold hexdigit.
  destruct (N.ltb_spec d 10); apply andb_true_iff; split; apply N.leb_le; lia.
Qed.

Lemma u_escape_printable (n : N) :
  (n < 65536)%N -> printable (u_escape n) = true.
Proof.
  intros H. unfold printable, u_escape. cbn [forallb].
  rewrite !hexdigit_printable; try reflexivity.
  - apply N.mod_lt. lia.
  - apply N.mod_lt. lia.
  - apply N.mod_lt. lia.
  - apply N.Div0.div_lt_upper_bound. simpl. lia.
Qed.

Lemma ESCAPE_DCT_printable (c : char) (x : str) :
  ESCAPE_DCT c = Some x -> printable x = true.
Proof.
  unfold ESCAPE_DCT.
  repeat match goal with
         | |- (if (c =? ?k)%N then _ else _) = _ -> _ =>
             destruct (c =? k)%N; [intros [= <-]; reflexivity|]
         end.
  destruct (N.ltb_spec c 32); [|discriminate].
  intros [= <-]. apply u_escape_printable. lia.
Qed.

Lemma escape_char_ascii_printable (c : char) :
  scalar_value c = true -> printable (escape_char_ascii c) = true.
Proof.
  intros Hc. unfold scalar_value in Hc.
  apply andb_true_iff in Hc. destruct Hc as [Hmax _]. apply N.ltb_lt in Hmax.
  unfold escape_char_ascii.
  destruct ((c =? 92)%N || (c =? 34)%N || negb ((32 <=? c)%N && (c <=? 126)%N)) eqn:Hesc.
  - destruct (ESCAPE_DCT c) as [x|] eqn:E; [now apply (ESCAPE_DCT_printable c)|].
    destruct (N.ltb_spec c 65536) as [Hlow|Hhigh];
      [now apply u_escape_printable|].
    destruct (surrogate_halves c ltac:(lia)) as [E1 E2].
    cbv zeta in E1, E2. cbv zeta. rewrite E1, E2.
    set (n := (c - 65536)%N).
    assert (Hn : (n < 1048576)%N) by (subst n; lia).
    assert (Hq : (n / 1024 < 1024)%N) by (apply N.Div0.div_lt_upper_bound; lia).
    assert (Hm : (n mod 1024 < 1024)%N) by (apply N.mod_lt; lia).
    unfold printable. rewrite forallb_app.
    generalize dependent (n / 1024)%N. generalize dependent (n mod 1024)%N.
    intros m Hm q Hq.
    apply andb_true_iff. split; apply u_escape_printable; lia.
  - apply orb_false_iff in Hesc. destruct Hesc as [_ H3].
    apply negb_false_iff in H3. unfold printable. cbn [forallb].
    now rewrite H3.
Qed.

Lemma encode_basestring_ascii_printable (s : str) :
  well_formed s = true -> printable (encode_basestring_ascii s) = true.
Proof.
  intros Hs. unfold encode_basestring_ascii, printable.
  cbn [forallb]. change ((32 <=? QUOTE)%N && (QUOTE <=? 126)%N) with true.
  cbn [andb]. rewrite forallb_app. cbn [forallb].
  change ((32 <=? QUOTE)%N && (QUOTE <=? 126)%N) with true.
  rewrite andb_true_r.
  unfold well_formed in Hs. rewrite forallb_forall in Hs.
  induction s as [|c s IH]; [reflexivity|].
  cbn [flat_map]. rewrite forallb_app.
  apply andb_true_iff. split.
  - apply escape_char_ascii_printable. apply Hs. now left.
  - apply IH. intros x Hx. apply Hs. now right.
Qed.

(** With the default arguments the text of an exact value is printable
    ASCII. *)
Lemma dumps_printable (floatstr : str -> str) (v : Json.t) :
  exact v = true -> printable (dumps true None floatstr v) = true.
Proof.
  intros Hex. unfold dumps, printable.
  apply iterencode_chars; try reflexivity; try exact Hex.
  - intros s Hs. now apply encode_basestring_ascii_printable.
  - intros c Hc. unfold is_digit in Hc.
    apply andb_true_iff in Hc. destruct Hc as [H1 H2].
    apply N.leb_le in H1. apply N.leb_le in H2.
    apply andb_true_iff. split; apply N.leb_le; lia.
Qed.

End EncoderFacts.

(* ================================================================== *)
(** ** The relays of the chat stream                                   *)
(* ================================================================== *)

Module RelayFacts.
Import OllamaClient ChatRoutes JsonEncoder Wire EncoderFacts.
Local Close Scope Z_scope.




Lemma sse_frame_payload (floatstr : str -> str) (k : str) (v : Json.t) :
  well_formed k = true -> exact v = true ->
  exists payload,
    sse_frame floatstr (JObj [(k, v)]) = u "data: " ++ payload ++ [10; 10]%N
    /\ printable payload = true
    /\ json_loads payload = Ok (JObj [(k, v)]).
Proof.
  intros Hk Hv.
  assert (Hex : exact (JObj [(k, v)]) = true).
  { cbn [exact List.map fst distinct existsb forallb negb andb]. now rewrite Hk, Hv. }
  exists (dumps true None floatstr (JObj [(k, v)])). split; [reflexivity|]. split.
  - now apply dumps_printable.
  - now apply loads_dumps.
Qed.


(** X18.  Every chunk of the upstream without floats, with well-formed
    strings and distinct keys, reaches the client of [/chat/stream]
    unchanged and in place: the frame at the position of the chunk is
    [data: ], one line of printable ASCII and an empty line, and the line
    decodes to the object with the chunk under [content]. *)
Theorem sse_content_frame (floatstr : str -> str) (lines : list str)
        (i : nat) (chunk : Json.t) :
  nth_error (fst (stream_chat lines)) i = Some chunk -> exact chunk = true ->
  exists payload,
    nth_error (stream_chat_sse floatstr lines) i
    = Some (u "data: " ++ payload ++ [10; 10]%N)
    /\ printable payload = true
    /\ json_loads payload = Ok (JObj [(u "content", chunk)]).
Proof.
  unfold stream_chat_sse.
  destruct (stream_chat lines) as [chunks e]. cbn [fst].
  intros Hnth Hex.
  destruct (sse_frame_payload floatstr (u "content") chunk eq_refl Hex)
    as (payload & Hframe & Hp & Hl).
  exists payload. split; [|split; assumption].
  rewrite nth_error_app1.
  - rewrite <- Hframe.
    now apply (map_nth_error
                 (fun chunk => sse_frame floatstr (JObj [(u "content", chunk)]))).
  - rewrite length_map. apply nth_error_Some. congruence.
Qed.

Lemma sse_content_frame_witness :
  exists payload,
    nth_error (stream_chat_sse (fun x => x) Spec.upstream_lines) 1
    = Some (u "data: " ++ payload ++ [10; 10]%N)
    /\ printable payload = true
    /\ json_loads payload = Ok (JObj [(u "content", JStr (u "b"))]).
Proof.
  apply (sse_content_frame (fun x => x) Spec.upstream_lines 1 (JStr (u "b")));
    reflexivity.
Defined.

Lemma generate_loop_strings (strs : list str) (tail : list Json.t) (e : ending) :
  generate_loop (List.map JStr strs ++ tail) e
  = (List.map (fun s => s ++ [10%N]) strs ++ fst (generate_loop tail e),
     snd (generate_loop tail e)).
Proof.
  induction strs as [|s strs IH]; cbn [List.map app generate_loop add_newline].
  - now destruct (generate_loop tail e).
  - rewrite IH. reflexivity.
Qed.

(** X19.  The legacy relay passes on the chunks that are strings, each
    followed by a line feed, and ends as the upstream does when there is
    nothing else; at the first chunk that is not a string it raises a
    [TypeError] that nothing handles, and the chunks after it are lost. *)
Theorem legacy_generate (lines : list str) (strs : list str) (tail : list Json.t) :
  fst (stream_chat lines) = List.map JStr strs ++ tail ->
  match tail with
  | [] => generate lines = (List.map (fun s => s ++ [10%N]) strs, snd (stream_chat lines))
  | JStr _ :: _ => True
  | _ :: _ =>
      exists msg,
        generate lines
        = (List.map (fun s => s ++ [10%N]) strs, Raised (Exn TypeError msg))
  end.
Proof.
  unfold generate. destruct (stream_chat lines) as [chunks e]. cbn [fst snd].
  intros ->. rewrite generate_loop_strings.
  destruct tail as [|c tail]; [cbn; now rewrite app_nil_r|].
  destruct c; try exact I;
    cbn [generate_loop add_newline fst snd]; rewrite app_nil_r;
    eexists; reflexivity.
Qed.

Lemma legacy_generate_witness :
  exists msg,
    generate [jq "{'message':{'content':'a'}}"; jq "{'message':{'content':7}}";
              jq "{'message':{'content':'c'}}"]
    = (List.map (fun s => s ++ [10%N]) [u "a"], Raised (Exn TypeError msg)).
Proof.
  apply (legacy_generate
           [jq "{'message':{'content':'a'}}"; jq "{'message':{'content':7}}";
            jq "{'message':{'content':'c'}}"]
           [u "a"] [JInt 7; JStr (u "c")]).
  reflexivity.
Defined.

End RelayFacts.

(* ================================================================== *)
(** ** The personality store                                           *)
(* ================================================================== *)

Module StoreFacts.
Import JsonEncoder Wire EncoderFacts PersonalityStore Main.
Local Close Scope Z_scope.

Lemma printable_encodable (s : str) : printable s = true -> encodable s = true.
Proof.
  unfold printable, encodable. intros H. apply forallb_forall. intros c Hc.
  rewrite forallb_forall in H. specialize (H c Hc).
  apply andb_true_iff in H. destruct H as [_ H]. apply N.leb_le in H.
  apply negb_true_iff. destruct (N.leb_spec 55296 c); [lia | reflexivity].
Qed.

Lemma encode_basestring_encodable (s : str) :
  well_formed s = true -> encodable (encode_basestring s) = true.
Proof.
  intros Hs. unfold encode_basestring, encodable.
  cbn [forallb]. change (negb ((55296 <=? QUOTE)%N && (QUOTE <=? 57343)%N)) with true.
  cbn [andb]. rewrite forallb_app. cbn [forallb].
  change (negb ((55296 <=? QUOTE)%N && (QUOTE <=? 57343)%N)) with true.
  rewrite andb_true_r.
  unfold well_formed in Hs. rewrite forallb_forall in Hs.
  induction s as [|c s IH]; [reflexivity|].
  cbn [flat_map]. rewrite forallb_app. apply andb_true_iff. split.
  - unfold escape_char. destruct (ESCAPE_DCT c) as [x|] eqn:E.
    + apply printable_encodable. now apply (ESCAPE_DCT_printable c).
    + cbn [forallb]. rewrite andb_true_r.
      specialize (Hs c ltac:(now left)). unfold scalar_value in Hs.
      apply andb_true_iff in Hs. tauto.
  - apply IH. intros x Hx. apply Hs. now right.
Qed.

(** The text of an exact value can be encoded as UTF-8. *)
Lemma dumps_encodable (indent : option nat) (floatstr : str -> str) (v : Json.t) :
  exact v = true -> encodable (dumps false indent floatstr v) = true.
Proof.
  intros Hex. unfold dumps, encodable.
  apply iterencode_chars; try exact Hex; try reflexivity.
  - intros s Hs. now apply encode_basestring_encodable.
  - destruct indent; reflexivity.
  - intros level. unfold newline_indent, JSONEncoder. cbn [_indent].
    destruct indent as [n|]; [|reflexivity].
    cbn [option_map forallb]. rewrite andb_true_l.
    induction level as [|l IH]; [reflexivity|].
    cbn [List.repeat List.concat]. rewrite forallb_app, IH, andb_true_r.
    clear. induction n as [|n IH]; [reflexivity|].
    cbn [List.repeat forallb]. now rewrite IH.
  - intros c Hc. unfold is_digit in Hc.
    apply andb_true_iff in Hc. destruct Hc as [_ H2]. apply N.leb_le in H2.
    apply negb_true_iff. destruct (N.leb_spec 55296 c); [lia | reflexivity].
Qed.

Lemma update_same (fs : files) (path : str) (c : content) :
  update fs path c path = Some c.
Proof.
  unfold update. assert (H : Py.eqb path path = true) by now apply StreamFacts.py_eqb_eq.
  now rewrite H.
Qed.

Lemma load_after_write (O : os) (self : PersonalityStore.t) (fs : files)
      (pid : str) (data : Json.t) :
  exact data = true ->
  load O self
       (update fs (path_of O self pid)
               (Text (dumps false (Some 2%nat) (PersonalityStore.float_repr O) data)))
       pid
  = Some data.
Proof.
  intros Hex. unfold load. rewrite update_same.
  now rewrite (loads_dumps false (Some 2%nat) (PersonalityStore.float_repr O) data Hex).
Qed.

(** X20.  A personality without floats, with well-formed strings and
    distinct keys, that [save] could write is the one [load] returns for
    the same id afterwards, whatever the file held before. *)
Theorem save_then_load (O : os) (self : PersonalityStore.t) (fs : files)
        (pid : str) (data : Json.t) :
  exact data = true -> device O (path_of O self pid) = written ->
  snd (save O self fs pid data) = None
  /\ load O self (fst (save O self fs pid data)) pid = Some data.
Proof.
  intros Hex Hdev. unfold save. cbv zeta. rewrite Hdev.
  rewrite (dumps_encodable _ _ _ Hex). cbn [fst snd]. split; [reflexivity|].
  now apply load_after_write.
Qed.

Lemma save_then_load_witness :
  snd (save plain_os personalities no_files (u "pirate") (JObj pirate)) = None
  /\ load plain_os personalities
          (fst (save plain_os personalities no_files (u "pirate") (JObj pirate)))
          (u "pirate")
     = Some (JObj pirate).
Proof.
  apply (save_then_load plain_os personalities no_files (u "pirate") (JObj pirate));
    reflexivity.
Defined.

(** X21.  A save whose text cannot be encoded as UTF-8 (a string with a
    lone surrogate) raises [UnicodeEncodeError] once the file is open, and
    by then the file is empty: [load] returns [None] for that id, also
    when a personality was stored under it before. *)
Theorem failed_save_truncates (O : os) (self : PersonalityStore.t) (fs : files)
        (pid : str) (data : Json.t) :
  device O (path_of O self pid) <> not_opened ->
  encodable (dumps false (Some 2%nat) (PersonalityStore.float_repr O) data) = false ->
  snd (save O self fs pid data) = Some UnicodeEncodeError
  /\ load O self (fst (save O self fs pid data)) pid = None.
Proof.
  intros Hdev Henc. unfold save. cbv zeta. rewrite Henc.
  destruct (device O (path_of O self pid)); [| now destruct Hdev |];
    cbn [fst snd]; (split; [reflexivity|]);
    unfold load; rewrite update_same; reflexivity.
Qed.

Lemma failed_save_truncates_witness :
  snd (save plain_os personalities
            (fst (save plain_os personalities no_files (u "pirate") (JObj pirate)))
            (u "pirate") (JObj [(u "id", JStr (u "pirate"));
                                (u "system_prompt", JStr [55357%N])]))
  = Some UnicodeEncodeError
  /\ load plain_os personalities
          (fst (save plain_os personalities
                     (fst (save plain_os personalities no_files (u "pirate")
                                (JObj pirate)))
                     (u "pirate") (JObj [(u "id", JStr (u "pirate"));
                                         (u "system_prompt", JStr [55357%N])])))
          (u "pirate")
     = None.
Proof.
  apply (failed_save_truncates plain_os personalities
           (fst (save plain_os personalities no_files (u "pirate") (JObj pirate)))
           (u "pirate")
           (JObj [(u "id", JStr (u "pirate")); (u "system_prompt", JStr [55357%N])]));
    [discriminate | reflexivity].
Defined.

(** X22.  A payload with a non-empty string as [id], without floats, with
    well-formed strings and distinct keys, that [POST /personalities]
    could write is the body of [GET /personalities/{id}] afterwards. *)
Theorem post_then_get (O : os) (nonzero : str -> bool) (py_str : Json.t -> str)
        (store : PersonalityStore.t) (fs : files)
        (payload : list (str * Json.t)) (pid : str) :
  exact (JObj payload) = true ->
  lookup (u "id") payload = Some (JStr pid) -> pid <> [] ->
  device O (path_of O store pid) = written ->
  get_personality O nonzero store
                  (fst (save_personality O nonzero py_str store fs payload)) pid
  = body (JObj payload).
Proof.
  intros Hex Hid Hpid Hdev.
  unfold save_personality. rewrite Hid. cbn [truth format].
  destruct pid as [|c pid]; [now destruct Hpid|]. cbn [Py.eqb negb].
  unfold save. cbv zeta. rewrite Hdev, (dumps_encodable _ _ _ Hex). cbn [fst].
  unfold get_personality.
  rewrite (load_after_write O store fs (c :: pid) (JObj payload) Hex). cbn [truth].
  destruct payload; [discriminate | reflexivity].
Qed.

Lemma post_then_get_witness :
  get_personality plain_os (fun _ => true) personalities
                  (fst (save_personality plain_os (fun _ => true) (fun _ => [])
                                         personalities no_files pirate))
                  (u "pirate")
  = body (JObj pirate).
Proof.
  apply (post_then_get plain_os (fun _ => true) (fun _ => []) personalities no_files
           pirate (u "pirate")); [reflexivity | reflexivity | discriminate | reflexivity].
Defined.

End StoreFacts.

(* ================================================================== *)
(** ** The extraction methods                                          *)
(* ================================================================== *)

Module ExtractorFacts.
Import JsonEncoder Wire EncoderFacts Extractors.

(** A text with a character that is no white space gives at least one
    chunk. *)
Lemma chunk_text_nonblank (self : TrainingService.t) (txt : str) (md : file_metadata)
      (x : char) :
  0 <= chunk_overlap self < chunk_size self ->
  In x txt -> isspace x = false ->
  exists chunks, _chunk_text self txt md = Some chunks /\ chunks <> [].
Proof.
  intros HWV Hin Hx. assert (Hs : 0 < stride self) by (unfold stride; lia).
  apply In_nth_error in Hin. destruct Hin as (p & Hnth).
  assert (Hp : (p < List.length txt)%nat) by (apply nth_error_Some; congruence).
  destruct (window_covers self (Z.of_nat (List.length txt)) (Z.of_nat p) HWV
              ltac:(lia)) as (start & Hin & Hrange & Hstart).
  eexists. split; [now apply chunk_text_windows|].
  assert (Hchar : nth_error (text (window self txt md start)) (p - Z.to_nat start)
                  = Some x).
  { cbn [window text]. rewrite slice_nth by lia. exact Hnth. }
  assert (Hc : In (window self txt md start)
                  (filter nonblank
                     (List.map (window self txt md)
                               (window_starts self (Z.of_nat (List.length txt)))))).
  { apply filter_In. split; [now apply in_map|].
    unfold nonblank.
    destruct (strip (text (window self txt md start))) eqn:Hstrip; [|reflexivity].
    apply nth_error_In in Hchar.
    pose proof (strip_keeps x _ Hchar Hx) as Hk. rewrite Hstrip in Hk.
    contradiction. }
  intros Hnil. rewrite Hnil in Hc. contradiction.
Qed.

Lemma strip_has (x : char) (s : str) :
  In x s -> isspace x = false -> strip s <> [].
Proof.
  intros Hin Hx Hnil. pose proof (strip_keeps x s Hin Hx) as H.
  rewrite Hnil in H. contradiction.
Qed.

(** [process_file] on a file that exists, once the selected method has
    produced its text. *)
Lemma process_file_text (self : TrainingService.t) (E : env)
      (file_path file_id mime_type txt : str) :
  path_exists E file_path = true ->
  run_extractor E (select_extractor (lower (suffix file_path)) mime_type) file_path
  = Ok txt ->
  process_file self E file_path file_id mime_type
  = match strip txt with
    | [] => Some (Raise (Exn ValueError
                           (u "No text content extracted from " ++ file_path)))
    | _ :: _ =>
        match _chunk_text self txt {| file_id := file_id; file_path := file_path;
                                      TrainingService.mime_type := mime_type |} with
        | Some chunks => Some (Ok chunks)
        | None => None
        end
    end.
Proof.
  intros Hexists Hrun. unfold process_file, extract_text.
  rewrite Hexists. cbn [negb]. cbv zeta. rewrite Hrun.
  destruct (strip txt); reflexivity.
Qed.

Lemma process_file_nonblank (self : TrainingService.t) (E : env)
      (file_path file_id mime_type txt : str) (x : char) :
  0 <= chunk_overlap self < chunk_size self ->
  path_exists E file_path = true ->
  run_extractor E (select_extractor (lower (suffix file_path)) mime_type) file_path
  = Ok txt ->
  In x txt -> isspace x = false ->
  exists chunks,
    process_file self E file_path file_id mime_type = Some (Ok chunks)
    /\ chunks <> []
    /\ _chunk_text self txt {| file_id := file_id; file_path := file_path;
                               TrainingService.mime_type := mime_type |}
       = Some chunks.
Proof.
  intros HWV Hexists Hrun Hin Hx.
  rewrite (process_file_text self E file_path file_id mime_type txt Hexists Hrun).
  pose proof (strip_has x txt Hin Hx) as Hstrip.
  destruct (chunk_text_nonblank self txt
              {| file_id := file_id; file_path := file_path;
                 TrainingService.mime_type := mime_type |} x HWV Hin Hx)
    as (chunks & Hchunks & Hne).
  exists chunks. rewrite Hchunks.
  destruct (strip txt); [now destruct Hstrip | auto].
Qed.

Lemma pdf_loop_keeps (x : char) (pages : list str) :
  forall page_num text, In x text -> In x (pdf_loop page_num pages text).
Proof.
  induction pages as [|page pages IH]; intros page_num text Hin; cbn [pdf_loop];
    [exact Hin|].
  apply IH. apply in_or_app. now left.
Qed.

Lemma pdf_loop_marker (page_num : Z) (pages : list str) (text : str) :
  pages <> [] -> In 80%N (pdf_loop page_num pages text).
Proof.
  destruct pages as [|page pages]; [intros H; now destruct H|]. intros _.
  cbn [pdf_loop]. apply pdf_loop_keeps.
  apply in_or_app. right. cbn. auto 12.
Qed.

(** X23.  A PDF with at least one page is never taken for empty: every
    page adds its marker to the text, so [process_file] returns at least
    one chunk even when no page has any text (overlap not negative and
    below the window); only a PDF without pages raises [No text content
    extracted]. *)
Theorem pdf_never_empty (self : TrainingService.t) (L : libraries)
        (has_docx has_pandas has_xlsx : bool) (exists_ : str -> bool)
        (file_path file_id mime_type : str) (pages : list str) :
  0 <= chunk_overlap self < chunk_size self ->
  exists_ file_path = true ->
  select_extractor (lower (suffix file_path)) mime_type = _extract_pdf_text ->
  PdfReader L file_path = Ok pages ->
  let E := surroundings true has_docx has_pandas has_xlsx exists_ L in
  match pages with
  | [] =>
      process_file self E file_path file_id mime_type
      = Some (Raise (Exn ValueError (u "No text content extracted from " ++ file_path)))
  | _ :: _ =>
      exists chunks,
        process_file self E file_path file_id mime_type = Some (Ok chunks)
        /\ chunks <> []
  end.
Proof.
  intros HWV Hexists Hsel Hpages E.
  assert (Hrun : run_extractor E (select_extractor (lower (suffix file_path)) mime_type)
                               file_path = Ok (pdf_loop 0 pages [])).
  { rewrite Hsel. cbn. now rewrite Hpages. }
  destruct pages as [|page pages].
  - now rewrite (process_file_text self E file_path file_id mime_type _ Hexists Hrun).
  - destruct (process_file_nonblank self E file_path file_id mime_type _ 80%N
                HWV Hexists Hrun (pdf_loop_marker 0 (page :: pages) [] ltac:(discriminate))
                eq_refl) as (chunks & H1 & H2 & _).
    eauto.
Qed.

Lemma pdf_never_empty_witness :
  exists chunks,
    process_file default
                 (surroundings true true true true (fun _ => true)
                               (one_document [[]] [] []))
                 (u "/data/scan.pdf") (u "1") (u "application/pdf")
    = Some (Ok chunks)
    /\ chunks <> [].
Proof.
  apply (pdf_never_empty default (one_document [[]] [] []) true true true
           (fun _ => true) (u "/data/scan.pdf") (u "1") (u "application/pdf") [[]]);
    [simpl; lia | reflexivity | reflexivity | reflexivity].
Defined.

Lemma in_join_head (x : char) (sep p : str) (ps : list str) :
  In x p -> In x (join sep (p :: ps)).
Proof.
  intros H. destruct ps as [|q ps]; [exact H|].
  change (join sep (p :: q :: ps)) with (p ++ sep ++ join sep (q :: ps)).
  apply in_or_app. now left.
Qed.

Lemma kept_nil (paragraphs : list str) :
  forallb (fun p => match strip p with [] => true | _ :: _ => false end) paragraphs
  = true ->
  kept paragraphs = [].
Proof.
  induction paragraphs as [|p ps IH]; [reflexivity|].
  cbn [forallb kept filter]. destruct (strip p); [|discriminate].
  cbn [andb]. exact IH.
Qed.

Lemma kept_head (paragraphs : list str) :
  forallb (fun p => match strip p with [] => true | _ :: _ => false end) paragraphs
  = false ->
  exists p rest, kept paragraphs = p :: rest /\ strip p <> [].
Proof.
  induction paragraphs as [|p ps IH]; [discriminate|].
  cbn [forallb kept filter]. destruct (strip p) eqn:E.
  - cbn [andb]. exact IH.
  - intros _. exists p. eexists. split; [reflexivity|]. now rewrite E.
Qed.

(** X24.  A document is taken for empty exactly when every paragraph is
    blank: then [process_file] raises [No text content extracted]; with
    one paragraph that is not blank it returns at least one chunk
    (overlap not negative and below the window). *)
Theorem docx_empty_iff_blank (self : TrainingService.t) (L : libraries)
        (has_pdf has_pandas has_xlsx : bool) (exists_ : str -> bool)
        (file_path file_id mime_type : str) (paragraphs : list str) :
  0 <= chunk_overlap self < chunk_size self ->
  exists_ file_path = true ->
  select_extractor (lower (suffix file_path)) mime_type = _extract_docx_text ->
  Document L file_path = Ok paragraphs ->
  let E := surroundings has_pdf true has_pandas has_xlsx exists_ L in
  if forallb (fun p => match strip p with [] => true | _ :: _ => false end) paragraphs
  then
    process_file self E file_path file_id mime_type
    = Some (Raise (Exn ValueError (u "No text content extracted from " ++ file_path)))
  else
    exists chunks,
      process_file self E file_path file_id mime_type = Some (Ok chunks)
      /\ chunks <> [].
Proof.
  intros HWV Hexists Hsel Hdoc E.
  assert (Hrun : run_extractor E (select_extractor (lower (suffix file_path)) mime_type)
                               file_path
                 = Ok (join [10; 10]%N (kept paragraphs))).
  { rewrite Hsel. cbn. now rewrite Hdoc. }
  destruct (forallb _ paragraphs) eqn:Hall.
  - rewrite (process_file_text self E file_path file_id mime_type _ Hexists Hrun).
    now rewrite (kept_nil paragraphs Hall).
  - destruct (kept_head paragraphs Hall) as (p & rest & Hkept & Hp).
    apply strip_nonblank in Hp. destruct Hp as (x & Hin & Hx).
    destruct (process_file_nonblank self E file_path file_id mime_type _ x
                HWV Hexists Hrun
                ltac:(rewrite Hkept; now apply in_join_head) Hx)
      as (chunks & H1 & H2 & _).
    eauto.
Qed.

Lemma docx_empty_iff_blank_witness :
  exists chunks,
    process_file default
                 (surroundings true true true true (fun _ => true)
                               (one_document [] [u " "; u "hello"] []))
                 (u "/data/letter.docx") (u "1") (u "application/msword")
    = Some (Ok chunks)
    /\ chunks <> [].
Proof.
  apply (docx_empty_iff_blank default (one_document [] [u " "; u "hello"] []) true true
           true (fun _ => true) (u "/data/letter.docx") (u "1")
           (u "application/msword") [u " "; u "hello"]);
    [simpl; lia | reflexivity | reflexivity | reflexivity].
Defined.

Lemma text_parts_marker (sheets : list (str * str)) :
  sheets <> [] -> In 83%N (join [10%N] (text_parts sheets)).
Proof.
  destruct sheets as [|[sheet_name rendered] sheets]; [intros H; now destruct H|].
  intros _. cbn [text_parts flat_map app]. apply in_join_head.
  right. right. apply in_or_app. left. cbn. auto 12.
Qed.

(** X25.  A workbook with at least one sheet is never taken for empty:
    every sheet adds its marker, so [process_file] returns at least one
    chunk (overlap not negative and below the window); and a failure of
    the reader reaches the caller as a plain [Exception] whose message
    carries both prefixes, [Error extracting text from], the path, and
    [Error reading Excel file: ], before the text of the failure. *)
Theorem excel_sheets_or_error (self : TrainingService.t) (L : libraries)
        (has_pdf has_docx has_xlsx : bool) (exists_ : str -> bool)
        (file_path file_id mime_type : str) :
  0 <= chunk_overlap self < chunk_size self ->
  exists_ file_path = true ->
  select_extractor (lower (suffix file_path)) mime_type = _extract_excel_text ->
  let E := surroundings has_pdf has_docx true has_xlsx exists_ L in
  match read_excel L file_path with
  | Ok [] =>
      process_file self E file_path file_id mime_type
      = Some (Raise (Exn ValueError (u "No text content extracted from " ++ file_path)))
  | Ok (_ :: _) =>
      exists chunks,
        process_file self E file_path file_id mime_type = Some (Ok chunks)
        /\ chunks <> []
  | Raise e =>
      process_file self E file_path file_id mime_type
      = Some (Raise (Exn Exception
                       (u "Error extracting text from " ++ file_path ++ u ": "
                        ++ u "Error reading Excel file: " ++ exn_msg e)))
  end.
Proof.
  intros HWV Hexists Hsel E.
  destruct (read_excel L file_path) as [sheets|e] eqn:Hread.
  - assert (Hrun : run_extractor E (select_extractor (lower (suffix file_path)) mime_type)
                                 file_path
                   = Ok (join [10%N] (text_parts sheets))).
    { rewrite Hsel. cbn. now rewrite Hread. }
    destruct sheets as [|sheet sheets].
    + now rewrite (process_file_text self E file_path file_id mime_type _ Hexists Hrun).
    + destruct (process_file_nonblank self E file_path file_id mime_type _ 83%N
                  HWV Hexists Hrun
                  (text_parts_marker (sheet :: sheets) ltac:(discriminate)) eq_refl)
        as (chunks & H1 & H2 & _).
      eauto.
  - assert (Hrun : run_extractor E (select_extractor (lower (suffix file_path)) mime_type)
                                 file_path
                   = Raise (Exn Exception (u "Error reading Excel file: " ++ exn_msg e))).
    { rewrite Hsel. cbn. now rewrite Hread. }
    unfold process_file, extract_text.
    change (path_exists E file_path) with (exists_ file_path).
    rewrite Hexists. cbn [negb]. cbv zeta. rewrite Hrun. reflexivity.
Qed.

Lemma excel_sheets_or_error_witness :
  exists chunks,
    process_file default
                 (surroundings true true true false (fun _ => true)
                               {| PdfReader := fun _ => Ok [];
                                  Document := fun _ => Ok [];
                                  read_excel := fun _ => Ok [(u "Sheet1", [])];
                                  read_csv := fun _ => Ok [];
                                  read := fun _ => Ok [];
                                  read_ignore := fun _ => Ok [];
                                  Extractors.float_repr := fun x => x |})
                 (u "/data/book.xlsx") (u "1") (u "application/vnd.ms-excel")
    = Some (Ok chunks)
    /\ chunks <> [].
Proof.
  apply (excel_sheets_or_error default
           {| PdfReader := fun _ => Ok [];
              Document := fun _ => Ok [];
              read_excel := fun _ => Ok [(u "Sheet1", [])];
              read_csv := fun _ => Ok [];
              read := fun _ => Ok [];
              read_ignore := fun _ => Ok [];
              Extractors.float_repr := fun x => x |}
           true true false (fun _ => true) (u "/data/book.xlsx") (u "1")
           (u "application/vnd.ms-excel"));
    [simpl; lia | reflexivity | reflexivity].
Defined.

(** X26.  A JSON file whose document has no floats, well-formed strings
    and distinct keys always gives chunks (overlap not negative and below
    the window), and the text that is cut into chunks is itself a JSON
    document of the same value. *)
Theorem json_file_chunks (self : TrainingService.t) (L : libraries)
        (has_pdf has_docx has_pandas has_xlsx : bool) (exists_ : str -> bool)
        (file_path file_id mime_type s : str) (data : Json.t) :
  0 <= chunk_overlap self < chunk_size self ->
  exists_ file_path = true ->
  select_extractor (lower (suffix file_path)) mime_type = _extract_json_text ->
  read L file_path = Ok s -> json_loads s = Ok data -> exact data = true ->
  exists txt chunks,
    process_file self (surroundings has_pdf has_docx has_pandas has_xlsx exists_ L)
                 file_path file_id mime_type
    = Some (Ok chunks)
    /\ chunks <> []
    /\ _chunk_text self txt {| file_id := file_id; file_path := file_path;
                               TrainingService.mime_type := mime_type |}
       = Some chunks
    /\ json_loads txt = Ok data.
Proof.
  intros HWV Hexists Hsel Hread Hloads Hex.
  set (E := surroundings has_pdf has_docx has_pandas has_xlsx exists_ L).
  set (txt := dumps false (Some 2%nat) (Extractors.float_repr L) data).
  assert (Hrun : run_extractor E (select_extractor (lower (suffix file_path)) mime_type)
                               file_path = Ok txt).
  { rewrite Hsel. cbn. rewrite Hread. cbn. now rewrite Hloads. }
  destruct (dumps_head_not_space false (Some 2%nat) (Extractors.float_repr L) data Hex)
    as (c & r & Hhead & Hc).
  destruct (process_file_nonblank self E file_path file_id mime_type txt c
              HWV Hexists Hrun ltac:(subst txt; rewrite Hhead; now left) Hc)
    as (chunks & H1 & H2 & H3).
  exists txt, chunks. repeat split; try assumption.
  now apply loads_dumps.
Qed.

Lemma json_file_chunks_witness :
  exists txt chunks,
    process_file default
                 (surroundings true true true true (fun _ => true)
                               (one_document [] [] (jq "{'a': [1, 2]}")))
                 (u "/data/table.json") (u "1") (u "application/json")
    = Some (Ok chunks)
    /\ chunks <> []
    /\ _chunk_text default txt
                   {| file_id := u "1"; file_path := u "/data/table.json";
                      TrainingService.mime_type := u "application/json" |}
       = Some chunks
    /\ json_loads txt = Ok (JObj [(u "a", JArr [JInt 1; JInt 2])]).
Proof.
  apply (json_file_chunks default (one_document [] [] (jq "{'a': [1, 2]}")) true true
           true true (fun _ => true) (u "/data/table.json") (u "1")
           (u "application/json") (jq "{'a': [1, 2]}")
           (JObj [(u "a", JArr [JInt 1; JInt 2])]));
    [simpl; lia | reflexivity | reflexivity | reflexivity | reflexivity | reflexivity].
Defined.

End ExtractorFacts.
